(** * Three Cards: the game logic of [App.jsx], embedded and verified

    The development follows the source file [src/App.jsx] (and its sibling
    variant, the second source file of the repository):

    - [Js]: the fragments of the JavaScript runtime the program relies on
      (numbers-or-undefined, ordinary objects with their property order,
      [Array.prototype.sort], [slice], the swap of two array cells);
    - [Card], [HandResult]: the shapes of the objects the program builds;
    - [App]: [createDeck], [shuffle], [getRankValue], [evaluateHand],
      [compareHands], the [App] component as a state record driven by
      handlers and timer callbacks, and what it renders ([ResultModal],
      [PlayerArea], [Card]);
    - [Part000]: the five game-logic functions of the sibling variant, and
      its component;
    - the theorems, one group per property of the specification, then
      the properties the code shows beyond it. *)

From Stdlib Require Import ZArith QArith Qround Lia Bool.
From Stdlib Require Import String Ascii DecimalString.
From Stdlib Require Import List Permutation Sorted.
From stdpp Require Import base list strings sorting.
Import ListNotations.

#[local] Open Scope string_scope.
#[local] Open Scope list_scope.
#[local] Open Scope Z_scope.

(* ===================================================================== *)
(** ** JavaScript runtime fragments *)
(* ===================================================================== *)

Module Js.

(** A value that is a number or [undefined] ([None]). Every number the
    program handles is a small integer, so numbers are [Z]. *)
Definition num := option Z.

(** [a > b] on numbers-or-undefined: [undefined] converts to [NaN], and
    every comparison with [NaN] is false. *)
Definition gt (a b : num) : bool :=
  match a, b with
  | Some x, Some y => y <? x
  | _, _ => false
  end.

(** [x || d] where [x] is a number or [undefined]: [undefined] and [0]
    are falsy. *)
Definition or_else (x : num) (d : Z) : Z :=
  match x with
  | Some v => if v =? 0 then d else v
  | None => d
  end.

(** [String(n)] for an integer [n], as a template literal prints it. *)
Definition toString (n : Z) : string :=
  NilZero.string_of_int (Z.to_int n).

(** *** Ordinary objects used as maps

    An object is the list of its own properties in insertion order.
    Properties inherited from [Object.prototype] are outside the model:
    the keys the program uses are the thirteen rank symbols. *)
Definition object (V : Type) := list (string * V).

Section Objects.
Context {V : Type}.

(** [o[k]] *)
Fixpoint get (o : object V) (k : string) : option V :=
  match o with
  | [] => None
  | (k', v) :: o' => if String.eqb k' k then Some v else get o' k
  end.

(** [o[k] = v]: an existing property keeps its place, a new one is
    added last. *)
Fixpoint set (o : object V) (k : string) (v : V) : object V :=
  match o with
  | [] => [(k, v)]
  | (k', v') :: o' =>
      if String.eqb k' k then (k', v) :: o' else (k', v') :: set o' k v
  end.

Definition digit (c : ascii) : option N :=
  let n := N_of_ascii c in
  if ((48 <=? n) && (n <=? 57))%N then Some (n - 48)%N else None.

Fixpoint parse_digits (s : string) (acc : N) : option N :=
  match s with
  | EmptyString => Some acc
  | String c s' =>
      match digit c with
      | Some d => parse_digits s' (10 * acc + d)%N
      | None => None
      end
  end.

(** A key is an array index when it is the canonical decimal string of
    an integer below [2^32 - 1]. *)
Definition array_index (k : string) : option N :=
  match k with
  | EmptyString => None
  | String c rest =>
      if Ascii.eqb c "0"%char && negb (String.eqb rest EmptyString) then None
      else match parse_digits k 0%N with
           | Some n => if (n <=? 4294967294)%N then Some n else None
           | None => None
           end
  end.

Fixpoint insert_by_index (e : N * (string * V)) (l : list (N * (string * V)))
  : list (N * (string * V)) :=
  match l with
  | [] => [e]
  | e' :: l' =>
      if (fst e <=? fst e')%N then e :: e' :: l' else e' :: insert_by_index e l'
  end.

Definition index_properties (o : object V) : list (N * (string * V)) :=
  flat_map (fun p => match array_index (fst p) with
                     | Some n => [(n, p)]
                     | None => []
                     end) o.

Definition string_properties (o : object V) : list (string * V) :=
  List.filter (fun p => match array_index (fst p) with
                        | Some _ => false
                        | None => true
                        end) o.

(** [Object.entries(o)]: array-index keys in ascending numeric order,
    then the other keys in insertion order. *)
Definition entries (o : object V) : list (string * V) :=
  map snd (fold_right insert_by_index [] (index_properties o))
    ++ string_properties o.
End Objects.

(** *** Arrays *)
Section Arrays.
Context {A : Type}.

(** [array.sort(cmp)]: the sort is stable, so with a consistent
    comparator its result is the one of a stable insertion sort. *)
Fixpoint sort_insert (cmp : A -> A -> Z) (x : A) (l : list A) : list A :=
  match l with
  | [] => [x]
  | y :: l' => if cmp x y <=? 0 then x :: y :: l' else y :: sort_insert cmp x l'
  end.

Definition sort (cmp : A -> A -> Z) (l : list A) : list A :=
  fold_right (sort_insert cmp) [] l.

(** [array.slice(from, to)] and [array.slice(from)] for non-negative
    bounds: both are clamped to the length, nothing is ever raised. *)
Definition slice (from to : nat) (l : list A) : list A :=
  take (to - from)%nat (drop from l).

Definition slice_from (from : nat) (l : list A) : list A := drop from l.

(** [[array[i], array[j]] = [array[j], array[i]]]: both cells are read,
    then [array[i]] and [array[j]] are written in this order. With an
    index past the end JavaScript would read [undefined] and extend the
    array; the callers keep [i] and [j] below the length (see
    [floor_mul_range]), and the model leaves the array as it is
    there. *)
Definition swap (i j : nat) (array : list A) : list A :=
  match array !! j, array !! i with
  | Some aj, Some ai => <[j := ai]> (<[i := aj]> array)
  | _, _ => array
  end.

(** [array.find(p)]: the first element satisfying [p], or [undefined]. *)
Definition find (p : A -> bool) (l : list A) : option A := List.find p l.
End Arrays.

(** [Math.floor(r * n)] for the result [r] of [Math.random()] and a
    positive integer [n]. The program computes the product in double
    precision; the model computes it exactly. Both lie in [0, n - 1]
    when [0 <= r < 1], which is all the theorems below rely on. *)
Definition floor_mul (r : Q) (n : nat) : nat :=
  Z.to_nat (Qfloor (r * inject_Z (Z.of_nat n))).

(** The names an ordinary object inherits from [Object.prototype]: a
    lookup of one of them finds the inherited property, where [get]
    answers [undefined]. *)
Definition inherited : list string :=
  ["constructor"; "hasOwnProperty"; "isPrototypeOf"; "propertyIsEnumerable";
   "toLocaleString"; "toString"; "valueOf"; "__proto__"; "__defineGetter__";
   "__defineSetter__"; "__lookupGetter__"; "__lookupSetter__"].

(** [s.includes(sub)]: [sub] occurs in [s] at some position. *)
Fixpoint includes (s sub : string) : bool :=
  String.prefix sub s
  || match s with
     | EmptyString => false
     | String _ s' => includes s' sub
     end.

End Js.

(* ===================================================================== *)
(** ** The objects of the program *)
(* ===================================================================== *)

(** [{ rank, suit, value }] *)
Module Card.
Record t := mk { rank : string; suit : string; value : Z }.
End Card.

(** [{ type, rank, primaryValue, kicker }]: [primaryValue] and [kicker] are
    absent ([undefined]) in some results, and a cell of [kicker] holds what
    [find] returned, a number or [undefined]. *)
Module HandResult.
Record t := mk {
  type : string;
  rank : Z;
  primaryValue : Js.num;
  kicker : option (list Js.num)
}.
End HandResult.

(** [array.entries()]: the cells with their indices. *)
Definition array_entries {A : Type} (l : list A) : list (Z * A) :=
  imap (fun i x => (Z.of_nat i, x)) l.

(* ===================================================================== *)
(** ** [src/App.jsx]: game logic *)
(* ===================================================================== *)

Module App.

Definition RANKS : list string :=
  ["2"; "3"; "4"; "5"; "6"; "7"; "8"; "9"; "10"; "J"; "Q"; "K"; "A"].
Definition SUITS : list string := ["H"; "D"; "C"; "S"].

(** The two nested [for ... of] loops, each [push] adding a card last. *)
Definition createDeck : list Card.t :=
  fold_left (fun deck suit =>
    fold_left (fun deck '(index, rank) =>
                 deck ++ [Card.mk rank suit (index + 2)])
              (array_entries RANKS) deck)
    SUITS [].

(** The loop [for (let i = array.length - 1; i > 0; i--)]: [pick k i] is
    the index [j] drawn at the [k]-th use of the random source. *)
Fixpoint shuffle_loop {A : Type} (pick : nat -> nat -> nat)
    (i k : nat) (array : list A) : list A :=
  match i with
  | O => array
  | S i' => let j := pick k i in shuffle_loop pick i' (S k) (Js.swap i j array)
  end.

(** [shuffle(array)], with [random k] the value [Math.random()] returns
    at its [k]-th call and [k0] the number of calls made before. The
    array is shuffled in place: the result is its new content. *)
Definition shuffle {A : Type} (random : nat -> Q) (k0 : nat)
    (array : list A) : list A :=
  shuffle_loop (fun k i => Js.floor_mul (random k) (i + 1))
               (length array - 1) k0 array.

(** The number of calls of [Math.random()] one [shuffle] makes. *)
Definition shuffle_calls {A : Type} (array : list A) : nat :=
  (length array - 1)%nat.

Definition rankMap : Js.object Z :=
  [("2", 2); ("3", 3); ("4", 4); ("5", 5); ("6", 6); ("7", 7); ("8", 8);
   ("9", 9); ("10", 10); ("J", 11); ("Q", 12); ("K", 13); ("A", 14)].

Definition getRankValue (rank : string) : Z :=
  Js.or_else (Js.get rankMap rank) 0.

Definition evaluateHand (hand : list Card.t) : HandResult.t :=
  let sortedValues :=
    Js.sort (fun a b => b - a) (map (fun c => getRankValue (Card.rank c)) hand) in
  let ranks := map Card.rank hand in
  let rankCounts :=
    fold_left (fun acc rank => Js.set acc rank (Js.or_else (Js.get acc rank) 0 + 1))
              ranks [] in
  let pairs := List.filter (fun '(_, count) => 2 <=? count) (Js.entries rankCounts) in
  (* first [if (pairs.length > 0)]: returns only for a count of 3 *)
  let threeOfAKind :=
    match pairs with
    | (pairRank, count) :: _ =>
        let pairValue := getRankValue pairRank in
        if count =? 3
        then Some (HandResult.mk "Three of a Kind" 3 (Some pairValue) None)
        else None
    | [] => None
    end in
  match threeOfAKind with
  | Some result => result
  | None =>
      (* second [if (pairs.length > 0)] *)
      match pairs with
      | (pairRank, _) :: _ =>
          let pairValue := getRankValue pairRank in
          let kicker := Js.find (fun v => negb (v =? pairValue)) sortedValues in
          HandResult.mk "Pair" 2 (Some pairValue) (Some [kicker])
      | [] =>
          HandResult.mk "High Card" 1 None (Some (map Some sortedValues))
      end
  end.

(** The loop over [hand1.kicker]: [n] iterations remain from index [i];
    leaving the loop reaches [return 0]. A cell past the end of an array
    reads as [undefined]. *)
Fixpoint compareKickers (kicker1 kicker2 : list Js.num) (n i : nat) : Z :=
  match n with
  | O => 0
  | S n' =>
      let a := mjoin (kicker1 !! i) in
      let b := mjoin (kicker2 !! i) in
      if Js.gt a b then 1
      else if Js.gt b a then 2
      else compareKickers kicker1 kicker2 n' (S i)
  end.

Definition compareHands (hand1 hand2 : HandResult.t) : Z :=
  if HandResult.rank hand2 <? HandResult.rank hand1 then 1
  else if HandResult.rank hand1 <? HandResult.rank hand2 then 2
  else if HandResult.rank hand1 =? HandResult.rank hand2 then
    let byPrimary :=
      match HandResult.primaryValue hand1, HandResult.primaryValue hand2 with
      | Some p1, Some p2 =>
          if p2 <? p1 then Some 1 else if p1 <? p2 then Some 2 else None
      | _, _ => None
      end in
    match byPrimary with
    | Some winner => winner
    | None =>
        match HandResult.kicker hand1, HandResult.kicker hand2 with
        | Some kicker1, Some kicker2 =>
            compareKickers kicker1 kicker2 (length kicker1) 0
        | _, _ => 0
        end
    end
  else 0.

(* ------------------------------------------------------------------- *)
(** *** The [App] component *)

(** The four values of [gameState]: ['pre-deal'], ['hands-out'],
    ['showdown'], ['reshuffling']. *)
Inductive GameState := pre_deal | hands_out | showdown | reshuffling.

#[global] Instance GameState_eq_dec : EqDecision GameState.
Proof. solve_decision. Defined.

(** The twelve [useState] cells. [winningPlayer] is [null] ([None]) or
    the number [compareHands] returned. *)
Record AppState := mkState {
  player1Score : Z;
  player2Score : Z;
  player1Hand : list Card.t;
  player2Hand : list Card.t;
  gameState : GameState;
  resultMessage : string;
  winnerMessage : string;
  winningPlayer : option Z;
  currentDeck : list Card.t;
  shuffleCount : Z;
  isHandsRevealed : bool;
  showReshuffleModal : bool
}.

(** The callbacks handed to [setTimeout], each with the variables its
    closure captured. *)
Inductive Callback :=
| DealCards (deckToUse : list Card.t) (player1Score player2Score : Z)
| FlipUp
| RevealWinner (p1Hand p2Hand remainingDeck : list Card.t)
               (player1Score player2Score : Z)
| ShowModal (finalResultMessage : string)
| FinishReshuffle.

(** The component with its environment: the state cells, the time in
    milliseconds, the pending timers (due time and callback, in the order
    they were set) and the number of calls of [Math.random()] so far. *)
Record World := mkWorld {
  app : AppState;
  clock : Z;
  timers : list (Z * Callback);
  randomCalls : nat
}.

Definition update (f : AppState -> AppState) (w : World) : World :=
  mkWorld (f (app w)) (clock w) (timers w) (randomCalls w).

(** The state setters. A setter called with a function applies it to the
    current value of the cell ([setPlayer1Score], [setShuffleCount]). *)
Definition setPlayer1Score (f : Z -> Z) : World -> World :=
  update (fun s => mkState (f (player1Score s)) (player2Score s) (player1Hand s)
    (player2Hand s) (gameState s) (resultMessage s) (winnerMessage s)
    (winningPlayer s) (currentDeck s) (shuffleCount s) (isHandsRevealed s)
    (showReshuffleModal s)).
Definition setPlayer2Score (f : Z -> Z) : World -> World :=
  update (fun s => mkState (player1Score s) (f (player2Score s)) (player1Hand s)
    (player2Hand s) (gameState s) (resultMessage s) (winnerMessage s)
    (winningPlayer s) (currentDeck s) (shuffleCount s) (isHandsRevealed s)
    (showReshuffleModal s)).
Definition setPlayer1Hand (v : list Card.t) : World -> World :=
  update (fun s => mkState (player1Score s) (player2Score s) v
    (player2Hand s) (gameState s) (resultMessage s) (winnerMessage s)
    (winningPlayer s) (currentDeck s) (shuffleCount s) (isHandsRevealed s)
    (showReshuffleModal s)).
Definition setPlayer2Hand (v : list Card.t) : World -> World :=
  update (fun s => mkState (player1Score s) (player2Score s) (player1Hand s)
    v (gameState s) (resultMessage s) (winnerMessage s)
    (winningPlayer s) (currentDeck s) (shuffleCount s) (isHandsRevealed s)
    (showReshuffleModal s)).
Definition setGameState (v : GameState) : World -> World :=
  update (fun s => mkState (player1Score s) (player2Score s) (player1Hand s)
    (player2Hand s) v (resultMessage s) (winnerMessage s)
    (winningPlayer s) (currentDeck s) (shuffleCount s) (isHandsRevealed s)
    (showReshuffleModal s)).
Definition setResultMessage (v : string) : World -> World :=
  update (fun s => mkState (player1Score s) (player2Score s) (player1Hand s)
    (player2Hand s) (gameState s) v (winnerMessage s)
    (winningPlayer s) (currentDeck s) (shuffleCount s) (isHandsRevealed s)
    (showReshuffleModal s)).
Definition setWinnerMessage (v : string) : World -> World :=
  update (fun s => mkState (player1Score s) (player2Score s) (player1Hand s)
    (player2Hand s) (gameState s) (resultMessage s) v
    (winningPlayer s) (currentDeck s) (shuffleCount s) (isHandsRevealed s)
    (showReshuffleModal s)).
Definition setWinningPlayer (v : option Z) : World -> World :=
  update (fun s => mkState (player1Score s) (player2Score s) (player1Hand s)
    (player2Hand s) (gameState s) (resultMessage s) (winnerMessage s)
    v (currentDeck s) (shuffleCount s) (isHandsRevealed s)
    (showReshuffleModal s)).
Definition setCurrentDeck (v : list Card.t) : World -> World :=
  update (fun s => mkState (player1Score s) (player2Score s) (player1Hand s)
    (player2Hand s) (gameState s) (resultMessage s) (winnerMessage s)
    (winningPlayer s) v (shuffleCount s) (isHandsRevealed s)
    (showReshuffleModal s)).
Definition setShuffleCount (f : Z -> Z) : World -> World :=
  update (fun s => mkState (player1Score s) (player2Score s) (player1Hand s)
    (player2Hand s) (gameState s) (resultMessage s) (winnerMessage s)
    (winningPlayer s) (currentDeck s) (f (shuffleCount s)) (isHandsRevealed s)
    (showReshuffleModal s)).
Definition setIsHandsRevealed (v : bool) : World -> World :=
  update (fun s => mkState (player1Score s) (player2Score s) (player1Hand s)
    (player2Hand s) (gameState s) (resultMessage s) (winnerMessage s)
    (winningPlayer s) (currentDeck s) (shuffleCount s) v
    (showReshuffleModal s)).
Definition setShowReshuffleModal (v : bool) : World -> World :=
  update (fun s => mkState (player1Score s) (player2Score s) (player1Hand s)
    (player2Hand s) (gameState s) (resultMessage s) (winnerMessage s)
    (winningPlayer s) (currentDeck s) (shuffleCount s) (isHandsRevealed s)
    v).

(** [setTimeout(callback, delay)] *)
Definition setTimeout (callback : Callback) (delay : Z) (w : World) : World :=
  mkWorld (app w) (clock w) (timers w ++ [(clock w + delay, callback)])
          (randomCalls w).

(** Statements in sequence: [w |> f |> g] runs [f], then [g]. *)
Notation "w |> f" := (f w) (at level 45, left associativity, only parsing).

Definition cardsNeeded : nat := 6.

Definition quote : string := String "034"%char EmptyString.

Definition initialState : AppState :=
  mkState 0 0 [] [] pre_deal ""
          ("Press " +:+ quote +:+ "DRAW NEW CARDS" +:+ quote +:+ " to start the game!")
          None [] 0 false false.

(** The final-game message, computed the same way in both places of
    [handleDeal] (there from [player1Score], [player2Score], here from
    [p1FinalScore], [p2FinalScore]). *)
Definition finalResultMessage (p1 p2 : Z) : string :=
  if p2 <? p1 then
    "Player 1 Wins the Game! Final Score: " +:+ Js.toString p1 +:+ " - " +:+ Js.toString p2
  else if p1 <? p2 then
    "Player 2 Wins the Game! Final Score: " +:+ Js.toString p2 +:+ " - " +:+ Js.toString p1
  else
    "It's a Tie Game! Final Score: " +:+ Js.toString p1 +:+ " - " +:+ Js.toString p2.

Section Component.
(** [random k]: what [Math.random()] returns at its [k]-th call. *)
Variable random : nat -> Q.

(** [let newDeck = createDeck(); shuffle(newDeck);] *)
Definition freshDeck (w : World) : list Card.t * World :=
  let newDeck := createDeck in
  (shuffle random (randomCalls w) newDeck,
   mkWorld (app w) (clock w) (timers w) (randomCalls w + shuffle_calls newDeck)).

Definition handleReshuffle (w : World) : World :=
  w |> setGameState reshuffling
    |> setShowReshuffleModal false
    |> setWinnerMessage "Deck is empty. RESHUFFLING..."
    |> setResultMessage ""
    |> setPlayer1Score (fun _ => 0)
    |> setPlayer2Score (fun _ => 0)
    |> setPlayer1Hand []
    |> setPlayer2Hand []
    |> setWinningPlayer None
    |> setIsHandsRevealed false
    |> setTimeout FinishReshuffle 500.

(** The effect that sets the deck up; its guard is the one of the
    source. *)
Definition initialDeckEffect (w : World) : World :=
  if (length (currentDeck (app w)) =? 0)%nat && (shuffleCount (app w) =? 0) then
    let '(newDeck, w) := freshDeck w in
    w |> setCurrentDeck newDeck
      |> setShuffleCount (fun _ => 1)
      |> setGameState pre_deal
  else w.

(** [handleDeal] up to the first [setTimeout]. The closure sees
    [currentDeck], [player1Score] and [player2Score] of the render it
    was created in, which are its [useCallback] dependencies. *)
Definition handleDeal (w : World) : World :=
  let currentDeck := currentDeck (app w) in
  let player1Score := player1Score (app w) in
  let player2Score := player2Score (app w) in
  if (length currentDeck <? cardsNeeded)%nat then
    w |> setGameState showdown
      |> setResultMessage (finalResultMessage player1Score player2Score)
      |> setShowReshuffleModal true
  else
    let deckToUse := currentDeck in
    w |> setGameState hands_out
      |> setWinningPlayer None
      |> setIsHandsRevealed false
      |> setWinnerMessage "...Dealing cards..."
      |> setResultMessage ""
      |> setPlayer1Hand []
      |> setPlayer2Hand []
      |> setTimeout (DealCards deckToUse player1Score player2Score) 300.

(** The bodies of the timer callbacks. *)
Definition runCallback (callback : Callback) (w : World) : World :=
  match callback with
  | DealCards deckToUse player1Score player2Score =>
      let p1Hand := Js.slice 0 3 deckToUse in
      let p2Hand := Js.slice 3 6 deckToUse in
      let remainingDeck := Js.slice_from 6 deckToUse in
      w |> setCurrentDeck remainingDeck
        |> setPlayer1Hand p1Hand
        |> setPlayer2Hand p2Hand
        |> setTimeout FlipUp 50
        |> setTimeout (RevealWinner p1Hand p2Hand remainingDeck
                                    player1Score player2Score) 1200
  | FlipUp =>
      w |> setIsHandsRevealed true
  | RevealWinner p1Hand p2Hand remainingDeck player1Score player2Score =>
      let result1 := evaluateHand p1Hand in
      let result2 := evaluateHand p2Hand in
      let winnerId := compareHands result1 result2 in
      let w := w |> setGameState showdown |> setWinningPlayer (Some winnerId) in
      let w :=
        if winnerId =? 1 then
          w |> setPlayer1Score (fun s => s + 1)
            |> setWinnerMessage
                 ("Player 1 Wins! (" +:+ HandResult.type result1 +:+ " beats "
                    +:+ HandResult.type result2 +:+ ")")
        else if winnerId =? 2 then
          w |> setPlayer2Score (fun s => s + 1)
            |> setWinnerMessage
                 ("Player 2 Wins! (" +:+ HandResult.type result2 +:+ " beats "
                    +:+ HandResult.type result1 +:+ ")")
        else
          w |> setWinnerMessage "It's a Tie! No score change." in
      if (length remainingDeck <? cardsNeeded)%nat then
        let p1FinalScore := player1Score + (if winnerId =? 1 then 1 else 0) in
        let p2FinalScore := player2Score + (if winnerId =? 2 then 1 else 0) in
        w |> setTimeout (ShowModal (finalResultMessage p1FinalScore p2FinalScore)) 1500
      else w
  | ShowModal finalResultMessage =>
      w |> setResultMessage finalResultMessage
        |> setShowReshuffleModal true
  | FinishReshuffle =>
      let '(newDeck, w) := freshDeck w in
      w |> setCurrentDeck newDeck
        |> setShuffleCount (fun c => c + 1)
        |> setWinnerMessage "Shuffle complete. Ready to draw."
        |> setGameState pre_deal
  end.

(** The timer that fires next: the earliest due, and among equals the
    one set first. *)
Fixpoint popEarliest (ts : list (Z * Callback))
  : option ((Z * Callback) * list (Z * Callback)) :=
  match ts with
  | [] => None
  | t :: ts' =>
      match popEarliest ts' with
      | Some (t', rest) =>
          if fst t <=? fst t' then Some (t, ts') else Some (t', t :: rest)
      | None => Some (t, [])
      end
  end.

(** One turn of the event loop: the next timer fires, at its due time. *)
Definition fireNext (w : World) : World :=
  match popEarliest (timers w) with
  | Some ((due, callback), rest) =>
      runCallback callback
        (mkWorld (app w) (Z.max (clock w) due) rest (randomCalls w))
  | None => w
  end.

Fixpoint fire (n : nat) (w : World) : World :=
  match n with
  | O => w
  | S n' => fire n' (fireNext w)
  end.

(** An upper bound of the timers a callback leads to, itself counted. *)
Definition weight (callback : Callback) : nat :=
  match callback with
  | DealCards _ _ _ => 4
  | RevealWinner _ _ _ _ _ => 2
  | FlipUp | ShowModal _ | FinishReshuffle => 1
  end.

(** The event loop runs until no timer is pending. *)
Definition settle (w : World) : World :=
  fire (list_sum (map (fun t => weight (snd t)) (timers w))) w.

(** The presentation layer: the deal button is rendered unless the
    modal flag is set and carries the [disabled] attribute below; the
    modal, with its reshuffle button, is shown when the flag is set in
    state ['showdown']. A click on a control that is absent or disabled
    calls no handler. *)
Definition dealButtonRendered (w : World) : bool :=
  negb (showReshuffleModal (app w)).

Definition dealButtonDisabled (w : World) : bool :=
  (negb (bool_decide (gameState (app w) = showdown))
     && negb (bool_decide (gameState (app w) = pre_deal)))
  || (length (currentDeck (app w)) <? cardsNeeded)%nat.

Definition modalShown (w : World) : bool :=
  showReshuffleModal (app w) && bool_decide (gameState (app w) = showdown).

Definition clickDeal (w : World) : World :=
  if dealButtonRendered w && negb (dealButtonDisabled w) then handleDeal w else w.

Definition clickReshuffle (w : World) : World :=
  if modalShown w then handleReshuffle w else w.

(** The component once mounted: the first render and its effect. The
    effect runs again whenever [currentDeck.length] or [shuffleCount]
    changes; its guard is false from then on ([initialDeckEffect_idle]
    below), so the events leave it out. *)
Definition mounted : World :=
  initialDeckEffect (mkWorld initialState 0 [] 0).

(** Time passes with no timer coming due. *)
Definition elapse (d : Z) (w : World) : World :=
  if (0 <=? d) && forallb (fun t => clock w + d <=? fst t) (timers w)
  then mkWorld (app w) (clock w + d) (timers w) (randomCalls w)
  else w.

(** What can happen to the mounted component. *)
Inductive Event := UserDeal | UserReshuffle | TimerDue | TimePasses (d : Z).

Definition step (w : World) (e : Event) : World :=
  match e with
  | UserDeal => clickDeal w
  | UserReshuffle => clickReshuffle w
  | TimerDue => fireNext w
  | TimePasses d => elapse d w
  end.

Definition run (es : list Event) (w : World) : World := fold_left step es w.

Inductive reachable : World -> Prop :=
| reachable_mounted : reachable mounted
| reachable_step w e : reachable w -> reachable (step w e).
End Component.

(* ------------------------------------------------------------------- *)
(** *** What [App] renders *)

(** [useMemo(() => hand.length === 3 ? evaluateHand(hand) : null, [hand])] *)
Definition handResult (hand : list Card.t) : option HandResult.t :=
  if (length hand =? 3)%nat then Some (evaluateHand hand) else None.

Definition player1Result (w : World) : option HandResult.t :=
  handResult (player1Hand (app w)).

Definition player2Result (w : World) : option HandResult.t :=
  handResult (player2Hand (app w)).

(** [isWinner={winningPlayer === 1}], [isWinner={winningPlayer === 2}] *)
Definition isWinner (player : Z) (w : World) : bool :=
  bool_decide (winningPlayer (app w) = Some player).

(** [ResultModal]: [null] ([None]) unless [show]; otherwise the values it
    computes and places in its markup. *)
Record ResultModalView := mkResultModalView {
  isTie : bool;
  modalTitle : string;
  resultBoxClass : string;
  modalMessage : string;
  modalScores : Z * Z
}.

Definition ResultModal (show : bool) (message : string)
    (player1Score player2Score : Z) : option ResultModalView :=
  if negb show then None
  else
    let isTie := Js.includes message "Tie" in
    let modalTitle :=
      if isTie then "DECK EMPTY - TIE GAME" else "DECK EMPTY - ROUND OVER" in
    let resultBoxClass :=
      if isTie then "modal-result-box modal-result-tie"
      else "modal-result-box modal-result-win" in
    Some (mkResultModalView isTie modalTitle resultBoxClass message
            (player1Score, player2Score)).

(** The modal as [App] renders it. *)
Definition resultModal (w : World) : option ResultModalView :=
  ResultModal (modalShown w) (resultMessage (app w))
              (player1Score (app w)) (player2Score (app w)).

Definition SUIT_SYMBOLS : Js.object string :=
  [("H", "♥"); ("D", "♦"); ("C", "♣"); ("S", "♠")].

(** [Card]: the values it computes and places in its markup. The symbol
    is [undefined] ([None]) for a suit [SUIT_SYMBOLS] does not hold. *)
Record CardView := mkCardView {
  cardRank : string;
  colorClass : string;
  symbol : option string;
  transitionDelay : string;
  flipperClass : string
}.

Definition Card (rank suit : string) (isFaceUp : bool) (index : Z) : CardView :=
  let isRed := String.eqb suit "H" || String.eqb suit "D" in
  let colorClass := if isRed then "card-color-red" else "card-color-black" in
  let symbol := Js.get SUIT_SYMBOLS suit in
  mkCardView rank colorClass symbol
    (Js.toString (index * 150) +:+ "ms")
    ("card-flipper " +:+ (if isFaceUp then "flip" else "")).

(** [PlayerArea]: three cards when the hand has exactly three, three
    placeholders otherwise. *)
Inductive HandView :=
| CardsShown (cards : list CardView)
| Placeholders (labels : list string).

Record PlayerAreaView := mkPlayerAreaView {
  areaName : string;
  winnerClass : string;
  scoreClass : string;
  resultPillClass : string;
  resultText : string;
  shownScore : Z;
  handView : HandView
}.

Definition PlayerArea (name : string) (score : Z) (hand : list Card.t)
    (handResult : option HandResult.t) (isWinner isFaceUp : bool)
  : PlayerAreaView :=
  let winnerClass := if isWinner then "player-area-winner" else "player-area-base" in
  let scoreClass := if isWinner then "score-text-winner" else "score-text-default" in
  let resultPillClass := if isWinner then "result-pill-winner" else "result-pill-loser" in
  let resultText :=
    match handResult with
    | Some result => HandResult.type result
    | None => "Waiting..."
    end in
  mkPlayerAreaView name winnerClass scoreClass resultPillClass resultText score
    (if (length hand =? 3)%nat then
       CardsShown (imap (fun index card =>
                           Card (Card.rank card) (Card.suit card) isFaceUp
                                (Z.of_nat index)) hand)
     else
       Placeholders (map (fun i => "Card " +:+ Js.toString i) [1; 2; 3])).

(** The two player areas as [App] renders them. *)
Definition playerArea1 (w : World) : PlayerAreaView :=
  PlayerArea "Player 1" (player1Score (app w)) (player1Hand (app w)) (player1Result w)
             (isWinner 1 w) (isHandsRevealed (app w)).

Definition playerArea2 (w : World) : PlayerAreaView :=
  PlayerArea "Player 2" (player2Score (app w)) (player2Hand (app w)) (player2Result w)
             (isWinner 2 w) (isHandsRevealed (app w)).

End App.

(* ===================================================================== *)
(** ** The sibling variant: game logic *)
(* ===================================================================== *)

Module Part000.

Definition RANKS : list string :=
  ["2"; "3"; "4"; "5"; "6"; "7"; "8"; "9"; "10"; "J"; "Q"; "K"; "A"].
Definition SUITS : list string := ["H"; "D"; "C"; "S"].

Definition createDeck : list Card.t :=
  fold_left (fun deck suit =>
    fold_left (fun deck '(index, rank) =>
                 deck ++ [Card.mk rank suit (index + 2)])
              (array_entries RANKS) deck)
    SUITS [].

Fixpoint shuffle_loop {A : Type} (pick : nat -> nat -> nat)
    (i k : nat) (array : list A) : list A :=
  match i with
  | O => array
  | S i' => let j := pick k i in shuffle_loop pick i' (S k) (Js.swap i j array)
  end.

Definition shuffle {A : Type} (random : nat -> Q) (k0 : nat)
    (array : list A) : list A :=
  shuffle_loop (fun k i => Js.floor_mul (random k) (i + 1))
               (length array - 1) k0 array.

Definition rankMap : Js.object Z :=
  [("2", 2); ("3", 3); ("4", 4); ("5", 5); ("6", 6); ("7", 7); ("8", 8);
   ("9", 9); ("10", 10); ("J", 11); ("Q", 12); ("K", 13); ("A", 14)].

Definition getRankValue (rank : string) : Z :=
  Js.or_else (Js.get rankMap rank) 0.

Definition evaluateHand (hand : list Card.t) : HandResult.t :=
  let sortedValues :=
    Js.sort (fun a b => b - a) (map (fun c => getRankValue (Card.rank c)) hand) in
  let ranks := map Card.rank hand in
  let rankCounts :=
    fold_left (fun acc rank => Js.set acc rank (Js.or_else (Js.get acc rank) 0 + 1))
              ranks [] in
  let pairs := List.filter (fun '(_, count) => 2 <=? count) (Js.entries rankCounts) in
  let threeOfAKind :=
    match pairs with
    | (pairRank, count) :: _ =>
        let pairValue := getRankValue pairRank in
        if count =? 3
        then Some (HandResult.mk "Three of a Kind" 3 (Some pairValue) None)
        else None
    | [] => None
    end in
  match threeOfAKind with
  | Some result => result
  | None =>
      match pairs with
      | (pairRank, _) :: _ =>
          let pairValue := getRankValue pairRank in
          let kicker := Js.find (fun v => negb (v =? pairValue)) sortedValues in
          HandResult.mk "Pair" 2 (Some pairValue) (Some [kicker])
      | [] =>
          HandResult.mk "High Card" 1 None (Some (map Some sortedValues))
      end
  end.

Fixpoint compareKickers (kicker1 kicker2 : list Js.num) (n i : nat) : Z :=
  match n with
  | O => 0
  | S n' =>
      let a := mjoin (kicker1 !! i) in
      let b := mjoin (kicker2 !! i) in
      if Js.gt a b then 1
      else if Js.gt b a then 2
      else compareKickers kicker1 kicker2 n' (S i)
  end.

Definition compareHands (hand1 hand2 : HandResult.t) : Z :=
  if HandResult.rank hand2 <? HandResult.rank hand1 then 1
  else if HandResult.rank hand1 <? HandResult.rank hand2 then 2
  else if HandResult.rank hand1 =? HandResult.rank hand2 then
    let byPrimary :=
      match HandResult.primaryValue hand1, HandResult.primaryValue hand2 with
      | Some p1, Some p2 =>
          if p2 <? p1 then Some 1 else if p1 <? p2 then Some 2 else None
      | _, _ => None
      end in
    match byPrimary with
    | Some winner => winner
    | None =>
        match HandResult.kicker hand1, HandResult.kicker hand2 with
        | Some kicker1, Some kicker2 =>
            compareKickers kicker1 kicker2 (length kicker1) 0
        | _, _ => 0
        end
    end
  else 0.

(* ------------------------------------------------------------------- *)
(** *** The [App] component of the variant

    The twelve state cells, their setters, the timers, the deal button
    and the condition of the modal are those of [App.jsx], word for word
    ([App.World] and what goes with it); the handlers are the variant's
    own, and differ in the texts they set. *)

#[local] Notation "w |> f" := (f w) (at level 45, left associativity, only parsing).

Definition cardsNeeded : nat := 6.

(** The final message of the low-deck branch of [handleDeal]. *)
Definition finalResultMessage (player1Score player2Score : Z) : string :=
  if player2Score <? player1Score then
    "Player 1 Wins the Game! Final Score: " +:+ Js.toString player1Score
      +:+ " - " +:+ Js.toString player2Score
  else if player1Score <? player2Score then
    "Player 2 Wins the Game! Final Score: " +:+ Js.toString player2Score
      +:+ " - " +:+ Js.toString player1Score
  else
    "It's a Tie Game! Final Score: " +:+ Js.toString player1Score
      +:+ " - " +:+ Js.toString player2Score.

(** The final message of the reveal callback. *)
Definition finalVerdict (p1FinalScore p2FinalScore : Z) : string :=
  if p2FinalScore <? p1FinalScore then "Player 1 Wins the Game!"
  else if p1FinalScore <? p2FinalScore then "Player 2 Wins the Game!"
  else "It's a Tie!".

Section Component.
Variable random : nat -> Q.

Definition freshDeck (w : App.World) : list Card.t * App.World :=
  let newDeck := createDeck in
  (shuffle random (App.randomCalls w) newDeck,
   App.mkWorld (App.app w) (App.clock w) (App.timers w)
               (App.randomCalls w + (length newDeck - 1))).

Definition handleReshuffle (w : App.World) : App.World :=
  w |> App.setGameState App.reshuffling
    |> App.setShowReshuffleModal false
    |> App.setWinnerMessage "Deck is empty. RESHUFFLING..."
    |> App.setResultMessage ""
    |> App.setPlayer1Score (fun _ => 0)
    |> App.setPlayer2Score (fun _ => 0)
    |> App.setPlayer1Hand []
    |> App.setPlayer2Hand []
    |> App.setWinningPlayer None
    |> App.setIsHandsRevealed false
    |> App.setTimeout App.FinishReshuffle 500.

Definition initialDeckEffect (w : App.World) : App.World :=
  if (length (App.currentDeck (App.app w)) =? 0)%nat
     && (App.shuffleCount (App.app w) =? 0) then
    let '(newDeck, w) := freshDeck w in
    w |> App.setCurrentDeck newDeck
      |> App.setShuffleCount (fun _ => 1)
      |> App.setGameState App.pre_deal
  else w.

Definition handleDeal (w : App.World) : App.World :=
  let currentDeck := App.currentDeck (App.app w) in
  let player1Score := App.player1Score (App.app w) in
  let player2Score := App.player2Score (App.app w) in
  if (length currentDeck <? cardsNeeded)%nat then
    w |> App.setGameState App.showdown
      |> App.setResultMessage (finalResultMessage player1Score player2Score)
      |> App.setShowReshuffleModal true
  else
    let deckToUse := currentDeck in
    w |> App.setGameState App.hands_out
      |> App.setWinningPlayer None
      |> App.setIsHandsRevealed false
      |> App.setWinnerMessage "...Dealing cards..."
      |> App.setResultMessage ""
      |> App.setPlayer1Hand []
      |> App.setPlayer2Hand []
      |> App.setTimeout (App.DealCards deckToUse player1Score player2Score) 300.

Definition runCallback (callback : App.Callback) (w : App.World) : App.World :=
  match callback with
  | App.DealCards deckToUse player1Score player2Score =>
      let p1Hand := Js.slice 0 3 deckToUse in
      let p2Hand := Js.slice 3 6 deckToUse in
      let remainingDeck := Js.slice_from 6 deckToUse in
      w |> App.setCurrentDeck remainingDeck
        |> App.setPlayer1Hand p1Hand
        |> App.setPlayer2Hand p2Hand
        |> App.setTimeout App.FlipUp 50
        |> App.setTimeout (App.RevealWinner p1Hand p2Hand remainingDeck
                                            player1Score player2Score) 1200
  | App.FlipUp =>
      w |> App.setIsHandsRevealed true
  | App.RevealWinner p1Hand p2Hand remainingDeck player1Score player2Score =>
      let result1 := evaluateHand p1Hand in
      let result2 := evaluateHand p2Hand in
      let winnerId := compareHands result1 result2 in
      let w := w |> App.setGameState App.showdown
                 |> App.setWinningPlayer (Some winnerId) in
      let w :=
        if winnerId =? 1 then
          w |> App.setPlayer1Score (fun s => s + 1)
            |> App.setWinnerMessage "Player 1 wins the round!"
        else if winnerId =? 2 then
          w |> App.setPlayer2Score (fun s => s + 1)
            |> App.setWinnerMessage "Player 2 wins the round!"
        else
          w |> App.setWinnerMessage "It's a Tie! No score change." in
      if (length remainingDeck <? cardsNeeded)%nat then
        let p1FinalScore := player1Score + (if winnerId =? 1 then 1 else 0) in
        let p2FinalScore := player2Score + (if winnerId =? 2 then 1 else 0) in
        w |> App.setTimeout (App.ShowModal (finalVerdict p1FinalScore p2FinalScore)) 1500
      else w
  | App.ShowModal finalResultMessage =>
      w |> App.setResultMessage finalResultMessage
        |> App.setShowReshuffleModal true
  | App.FinishReshuffle =>
      let '(newDeck, w) := freshDeck w in
      w |> App.setCurrentDeck newDeck
        |> App.setShuffleCount (fun c => c + 1)
        |> App.setWinnerMessage "Shuffle complete. Ready to draw."
        |> App.setGameState App.pre_deal
  end.

Definition fireNext (w : App.World) : App.World :=
  match App.popEarliest (App.timers w) with
  | Some ((due, callback), rest) =>
      runCallback callback
        (App.mkWorld (App.app w) (Z.max (App.clock w) due) rest (App.randomCalls w))
  | None => w
  end.

Definition clickDeal (w : App.World) : App.World :=
  if App.dealButtonRendered w && negb (App.dealButtonDisabled w)
  then handleDeal w else w.

Definition clickReshuffle (w : App.World) : App.World :=
  if App.modalShown w then handleReshuffle w else w.

Definition mounted : App.World :=
  initialDeckEffect (App.mkWorld App.initialState 0 [] 0).

Definition step (w : App.World) (e : App.Event) : App.World :=
  match e with
  | App.UserDeal => clickDeal w
  | App.UserReshuffle => clickReshuffle w
  | App.TimerDue => fireNext w
  | App.TimePasses d => App.elapse d w
  end.

Definition run (es : list App.Event) (w : App.World) : App.World :=
  fold_left step es w.
End Component.

(** [ResultModal] of the variant: one title for all. *)
Definition ResultModal (show : bool) (message : string)
    (player1Score player2Score : Z) : option App.ResultModalView :=
  if negb show then None
  else
    let isTie := Js.includes message "Tie" in
    let modalTitle := "DECK EMPTY" in
    let resultBoxClass :=
      if isTie then "modal-result-box modal-result-tie"
      else "modal-result-box modal-result-win" in
    Some (App.mkResultModalView isTie modalTitle resultBoxClass message
            (player1Score, player2Score)).

Definition resultModal (w : App.World) : option App.ResultModalView :=
  ResultModal (App.modalShown w) (App.resultMessage (App.app w))
              (App.player1Score (App.app w)) (App.player2Score (App.app w)).

End Part000.

(* ===================================================================== *)
(** ** The vocabulary of the properties *)
(* ===================================================================== *)

(** *** Deck and hands *)

(** The comparator [(a, b) => b - a] of [evaluateHand]. *)
Definition descending (a b : Z) : Z := b - a.

(** The pair a card is identified by. *)
Definition face (c : Card.t) : string * string := (Card.rank c, Card.suit c).

(** The deck as the nested enumeration it is: for each suit in turn, every
    rank in the order of [RANKS], with its position plus two as value. *)
Definition suit_major_enumeration : list Card.t :=
  suit ← App.SUITS; '(index, rank) ← array_entries App.RANKS;
  [Card.mk rank suit (index + 2)].

#[global] Instance HandResult_eq_dec : EqDecision HandResult.t.
Proof. solve_decision. Defined.

(** The cards of the game carry one of the thirteen rank symbols. *)
Definition valid_card (c : Card.t) : Prop := In (Card.rank c) App.RANKS.

(** How many cards of the hand carry the rank [r]. *)
Definition occurrences (r : string) (hand : list Card.t) : nat :=
  length (List.filter (fun c => String.eqb (Card.rank c) r) hand).

Definition rankValues (hand : list Card.t) : list Z :=
  map (fun c => App.getRankValue (Card.rank c)) hand.

Definition threeOfAKind (value : Z) : HandResult.t :=
  HandResult.mk "Three of a Kind" 3 (Some value) None.
Definition pair (value kicker : Z) : HandResult.t :=
  HandResult.mk "Pair" 2 (Some value) (Some [Some kicker]).
Definition highCard (kickers : list Z) : HandResult.t :=
  HandResult.mk "High Card" 1 None (Some (map Some kickers)).

(** [evaluateHand] reads nothing of a card but its rank. *)
Definition bare (rank : string) : Card.t := Card.mk rank "" 0.

(** The result expected for three ranks, by comparing them. *)
Definition expected (r1 r2 r3 : string) : HandResult.t :=
  let v := App.getRankValue in
  if String.eqb r1 r2 && String.eqb r2 r3 then threeOfAKind (v r1)
  else if String.eqb r1 r2 then pair (v r1) (v r3)
  else if String.eqb r1 r3 then pair (v r1) (v r2)
  else if String.eqb r2 r3 then pair (v r2) (v r1)
  else highCard (Js.sort descending [v r1; v r2; v r3]).

(** The three shapes a result of [evaluateHand] on three cards has. *)
Inductive evaluated : HandResult.t -> Prop :=
| evaluated_three v : evaluated (threeOfAKind v)
| evaluated_pair v k : evaluated (pair v k)
| evaluated_high a b c : evaluated (highCard [a; b; c]).

(** The ordering of the specification, in its words: the kickers of a
    result, none when the result has no [kicker]. *)
Definition kickers (h : HandResult.t) : list Js.num :=
  default [] (HandResult.kicker h).

(** At the first index where the two lists differ, the first list holds
    the greater value. *)
Definition greater_at_first_difference (k1 k2 : list Js.num) : Prop :=
  exists (i : nat) (x y : Z),
    k1 !! i = Some (Some x) /\ k2 !! i = Some (Some y) /\ y < x
    /\ forall j, (j < i)%nat -> k1 !! j = k2 !! j.

(** [wins a b]: the higher rank; or, ranks being equal, both primary
    values present and the higher one; or, ranks and primary values being
    tied, the greater kicker at the first index where the kickers differ. *)
Definition wins (a b : HandResult.t) : Prop :=
  HandResult.rank b < HandResult.rank a
  \/ (HandResult.rank a = HandResult.rank b
      /\ exists pa pb, HandResult.primaryValue a = Some pa
                       /\ HandResult.primaryValue b = Some pb /\ pb < pa)
  \/ (HandResult.rank a = HandResult.rank b
      /\ HandResult.primaryValue a = HandResult.primaryValue b
      /\ greater_at_first_difference (kickers a) (kickers b)).

(** What [compareHands] answers once its two arguments are exchanged. *)
Definition mirrored (winnerId : Z) : Z :=
  if winnerId =? 1 then 2 else if winnerId =? 2 then 1 else 0.

(** The result for three rank values given in descending order. *)
Definition classify (sortedValues : list Z) : HandResult.t :=
  match sortedValues with
  | [x; y; z] =>
      if (x =? y) && (y =? z) then threeOfAKind x
      else if x =? y then pair x z
      else if y =? z then pair y x
      else highCard [x; y; z]
  | _ => highCard sortedValues
  end.

(** What a result is compared by, in the order [compareHands] looks at
    it: the rank, the primary value, the kickers. *)
Definition strength (h : HandResult.t) : list Z :=
  HandResult.rank h :: default 0 (HandResult.primaryValue h)
    :: map (default 0) (kickers h).

Fixpoint lexicographic (k1 k2 : list Z) : comparison :=
  match k1, k2 with
  | [], [] => Eq
  | [], _ :: _ => Lt
  | _ :: _, [] => Gt
  | x :: k1', y :: k2' =>
      match x ?= y with
      | Eq => lexicographic k1' k2'
      | c => c
      end
  end.

(** The character [c] occurs in [s]. *)
Fixpoint occurs (c : ascii) (s : string) : bool :=
  match s with
  | EmptyString => false
  | String c' s' => Ascii.eqb c c' || occurs c s'
  end.

(** The value of the random source that draws the index [j] at loop
    index [i]: the midpoint of the values that do. *)
Definition drawing (j i : nat) : Q :=
  (2 * Z.of_nat j + 1) # Pos.of_nat (2 * (i + 1)).

(** The three categories [evaluateHand] names. *)
Definition categories : list string := ["Three of a Kind"; "Pair"; "High Card"].

(** *** Rounds of the component *)

Section Vocabulary.
Import App.

Definition awarded (winnerId player : Z) : Z :=
  if winnerId =? player then 1 else 0.

Definition roundMessage (result1 result2 : HandResult.t) (winnerId : Z) : string :=
  if winnerId =? 1 then
    "Player 1 Wins! (" +:+ HandResult.type result1 +:+ " beats "
      +:+ HandResult.type result2 +:+ ")"
  else if winnerId =? 2 then
    "Player 2 Wins! (" +:+ HandResult.type result2 +:+ " beats "
      +:+ HandResult.type result1 +:+ ")"
  else "It's a Tie! No score change.".

(** The world a successful deal ends in, field by field. *)
Definition roundResult (w : World) : World :=
  let s := app w in
  let deck := currentDeck s in
  let p1Hand := Js.slice 0 3 deck in
  let p2Hand := Js.slice 3 6 deck in
  let remainingDeck := Js.slice_from 6 deck in
  let result1 := evaluateHand p1Hand in
  let result2 := evaluateHand p2Hand in
  let winnerId := compareHands result1 result2 in
  let low := (length remainingDeck <? cardsNeeded)%nat in
  let p1Final := player1Score s + awarded winnerId 1 in
  let p2Final := player2Score s + awarded winnerId 2 in
  mkWorld
    (mkState p1Final p2Final p1Hand p2Hand showdown
       (if low then finalResultMessage p1Final p2Final else "")
       (roundMessage result1 result2 winnerId) (Some winnerId)
       remainingDeck (shuffleCount s) true
       (if low then true else showReshuffleModal s))
    (clock w + 1500 + (if low then 1500 else 0)) [] (randomCalls w).

(** [deals n w w']: [n] deals in a row, each arriving with at least six
    cards in the deck and running to its end, lead from [w] to [w']. *)
Inductive deals (random : nat -> Q) : nat -> World -> World -> Prop :=
| deals_none w : deals random 0 w w
| deals_more n w w' :
    deals random n w w' ->
    (cardsNeeded <= length (currentDeck (app w')))%nat ->
    deals random (S n) w (settle random (handleDeal w')).

(** A deal command that deals nothing: no timer is set, the deck and the
    hands stay as they are. *)
Definition refused (w : World) : Prop :=
  timers (handleDeal w) = timers w
  /\ currentDeck (app (handleDeal w)) = currentDeck (app w)
  /\ player1Hand (app (handleDeal w)) = player1Hand (app w)
  /\ player2Hand (app (handleDeal w)) = player2Hand (app w).

(** The winner of the round dealt from the deck of [w]. *)
Definition roundWinner (w : World) : Z :=
  let deck := currentDeck (app w) in
  compareHands (evaluateHand (take 3 deck)) (evaluateHand (take 3 (drop 3 deck))).

(** The phases of the mounted component, by its pending timers. In every
    phase but the idle one both controls are out of reach. *)
Inductive phase : World -> Prop :=
| phase_idle s c rc :
    phase (mkWorld s c [] rc)
| phase_dealing s c rc t :
    gameState s = hands_out -> showReshuffleModal s = false ->
    (cardsNeeded <= length (currentDeck s))%nat ->
    phase (mkWorld s c [(t, DealCards (currentDeck s) (player1Score s) (player2Score s))] rc)
| phase_dealt s c rc t1 t2 :
    gameState s = hands_out -> showReshuffleModal s = false -> t1 <= t2 ->
    phase (mkWorld s c
             [(t1, FlipUp);
              (t2, RevealWinner (player1Hand s) (player2Hand s) (currentDeck s)
                     (player1Score s) (player2Score s))] rc)
| phase_flipped s c rc t :
    gameState s = hands_out -> showReshuffleModal s = false ->
    phase (mkWorld s c
             [(t, RevealWinner (player1Hand s) (player2Hand s) (currentDeck s)
                    (player1Score s) (player2Score s))] rc)
| phase_exhausted s c rc t :
    gameState s = showdown -> showReshuffleModal s = false ->
    (length (currentDeck s) < cardsNeeded)%nat ->
    phase (mkWorld s c
             [(t, ShowModal (finalResultMessage (player1Score s) (player2Score s)))] rc)
| phase_reshuffling s c rc t :
    gameState s = reshuffling -> showReshuffleModal s = false ->
    phase (mkWorld s c [(t, FinishReshuffle)] rc).

(** The measure of the event loop: the weights of the pending timers. *)
Definition timersWeight (ts : list (Z * Callback)) : nat :=
  list_sum (map (fun t => weight (snd t)) ts).

Definition pendingWeight (w : World) : nat := timersWeight (timers w).

(** The gate of the draw: a pending deal is over six cards at least. *)
Definition callback_gated (callback : Callback) : Prop :=
  match callback with
  | DealCards deckToUse _ _ => (cardsNeeded <= length deckToUse)%nat
  | FlipUp | RevealWinner _ _ _ _ _ | ShowModal _ | FinishReshuffle => True
  end.

Definition gated (w : World) : Prop :=
  Forall (fun t => callback_gated (snd t)) (timers w).

(** What a pending callback holds when the cards are in order: a deck of
    game cards, six at least, to deal from; two hands of three game cards
    to evaluate. *)
Definition callback_sound (callback : Callback) : Prop :=
  match callback with
  | DealCards deckToUse _ _ =>
      Forall valid_card deckToUse /\ (cardsNeeded <= length deckToUse)%nat
  | RevealWinner p1Hand p2Hand _ _ _ =>
      (length p1Hand = 3%nat /\ Forall valid_card p1Hand)
      /\ (length p2Hand = 3%nat /\ Forall valid_card p2Hand)
  | FlipUp | ShowModal _ | FinishReshuffle => True
  end.

Definition cards_sound (w : World) : Prop :=
  Forall valid_card (currentDeck (app w))
  /\ Forall (fun t => callback_sound (snd t)) (timers w).

(** The cards in play: both hands, then the deck. *)
Definition inPlay (s : AppState) : list Card.t :=
  player1Hand s ++ player2Hand s ++ currentDeck s.

Definition handsEmpty (s : AppState) : Prop :=
  player1Hand s = [] /\ player2Hand s = [].

Definition handsDealt (s : AppState) : Prop :=
  length (player1Hand s) = 3%nat /\ length (player2Hand s) = 3%nat.

(** The books of the game: the cards in play are cards of the deck, each
    at most once; [dealt] rounds have left the deck since it was shuffled;
    the scores are those of [scored] rounds at most. *)
Definition accounts (s : AppState) (dealt scored : nat) : Prop :=
  inPlay s ⊆+ createDeck
  /\ (length (currentDeck s) + 6 * dealt = 52)%nat
  /\ 0 <= player1Score s /\ 0 <= player2Score s
  /\ player1Score s + player2Score s <= Z.of_nat scored.

(** The winner shown is the one of the hands shown. *)
Definition winnerShown (s : AppState) : Prop :=
  winningPlayer s
  = Some (compareHands (evaluateHand (player1Hand s)) (evaluateHand (player2Hand s))).

(** The stages of the mounted component, with what holds in each. *)
Inductive stage : World -> Prop :=
| stage_fresh s c rc :
    gameState s = pre_deal -> showReshuffleModal s = false ->
    accounts s 0 0 -> handsEmpty s -> winningPlayer s = None ->
    isHandsRevealed s = false ->
    stage (mkWorld s c [] rc)
| stage_showdown s c rc k :
    gameState s = showdown -> showReshuffleModal s = false ->
    accounts s k k -> handsDealt s -> winnerShown s ->
    isHandsRevealed s = true ->
    (cardsNeeded <= length (currentDeck s))%nat ->
    stage (mkWorld s c [] rc)
| stage_over s c rc k :
    gameState s = showdown -> showReshuffleModal s = true ->
    accounts s k k -> handsDealt s -> winnerShown s ->
    isHandsRevealed s = true ->
    (length (currentDeck s) < cardsNeeded)%nat ->
    resultMessage s = finalResultMessage (player1Score s) (player2Score s) ->
    stage (mkWorld s c [] rc)
| stage_dealing s c rc k t :
    gameState s = hands_out -> showReshuffleModal s = false ->
    accounts s k k -> handsEmpty s -> winningPlayer s = None ->
    isHandsRevealed s = false ->
    (cardsNeeded <= length (currentDeck s))%nat ->
    stage (mkWorld s c
             [(t, DealCards (currentDeck s) (player1Score s) (player2Score s))] rc)
| stage_dealt s c rc k t1 t2 :
    gameState s = hands_out -> showReshuffleModal s = false ->
    accounts s (S k) k -> handsDealt s -> winningPlayer s = None ->
    isHandsRevealed s = false -> t1 <= t2 ->
    stage (mkWorld s c
             [(t1, FlipUp);
              (t2, RevealWinner (player1Hand s) (player2Hand s) (currentDeck s)
                     (player1Score s) (player2Score s))] rc)
| stage_flipped s c rc k t :
    gameState s = hands_out -> showReshuffleModal s = false ->
    accounts s (S k) k -> handsDealt s -> winningPlayer s = None ->
    isHandsRevealed s = true ->
    stage (mkWorld s c
             [(t, RevealWinner (player1Hand s) (player2Hand s) (currentDeck s)
                    (player1Score s) (player2Score s))] rc)
| stage_exhausted s c rc k t :
    gameState s = showdown -> showReshuffleModal s = false ->
    accounts s k k -> handsDealt s -> winnerShown s ->
    isHandsRevealed s = true ->
    (length (currentDeck s) < cardsNeeded)%nat ->
    stage (mkWorld s c
             [(t, ShowModal (finalResultMessage (player1Score s) (player2Score s)))] rc)
| stage_reshuffling s c rc k t :
    gameState s = reshuffling -> showReshuffleModal s = false ->
    accounts s k 0 -> handsEmpty s -> winningPlayer s = None ->
    isHandsRevealed s = false ->
    stage (mkWorld s c [(t, FinishReshuffle)] rc).

End Vocabulary.

(** One round as the user plays it: a click on the deal button, then the
    timers it leads to. *)
Definition playRound (random : nat -> Q) (w : App.World) : App.World :=
  App.settle random (App.clickDeal w).

(** *** The two variants side by side *)

(** Two final messages that say the same: the same text, or the short
    text of the variant beside the long one of [App.jsx], for the same
    scores. *)
Inductive sameVerdict : string -> string -> Prop :=
| sameVerdict_text m : sameVerdict m m
| sameVerdict_scores p1 p2 :
    sameVerdict (Part000.finalVerdict p1 p2) (App.finalResultMessage p1 p2).

(** A state without its two texts. *)
Definition cells (s : App.AppState)
  : Z * Z * list Card.t * list Card.t * App.GameState * option Z * list Card.t
    * Z * bool * bool :=
  (App.player1Score s, App.player2Score s, App.player1Hand s, App.player2Hand s,
   App.gameState s, App.winningPlayer s, App.currentDeck s, App.shuffleCount s,
   App.isHandsRevealed s, App.showReshuffleModal s).

Definition alikeCallback (callback1 callback2 : App.Callback) : Prop :=
  match callback1, callback2 with
  | App.ShowModal m1, App.ShowModal m2 => sameVerdict m1 m2
  | _, _ => callback1 = callback2
  end.

Definition alikeTimer (t1 t2 : Z * App.Callback) : Prop :=
  fst t1 = fst t2 /\ alikeCallback (snd t1) (snd t2).

(** [alike w1 w2]: a world of the variant and a world of [App.jsx] that
    differ in nothing but their texts. *)
Definition alike (w1 w2 : App.World) : Prop :=
  cells (App.app w1) = cells (App.app w2)
  /\ sameVerdict (App.resultMessage (App.app w1)) (App.resultMessage (App.app w2))
  /\ App.clock w1 = App.clock w2
  /\ App.randomCalls w1 = App.randomCalls w2
  /\ Forall2 alikeTimer (App.timers w1) (App.timers w2).

(** *** Concrete runs *)

(** A random source for the examples: 0.3, 0.0, 0.7, 0.4, ... *)
Definition sampleRandom : nat -> Q :=
  fun k => (Z.of_nat (7 * k + 3) mod 10) # 10.

(** The mounted component, and what eight deals and their timers make of
    it: 4 cards are left and the modal is up. *)
Definition sampleStart : App.World := App.mounted sampleRandom.

Definition sampleRound (w : App.World) : App.World :=
  App.settle sampleRandom (App.handleDeal w).

Definition sampleEnd : App.World := Nat.iter 8 sampleRound sampleStart.

(** One deal under way: the cards are out, the winner is not revealed. *)
Definition sampleBusy : App.World :=
  App.fireNext sampleRandom (App.handleDeal sampleStart).

(** Seven deals leave 10 cards: the eighth is the last one. *)
Definition sampleLastDeal : App.World := Nat.iter 7 sampleRound sampleStart.

(** The same eight deals as the user makes them: a click on the deal
    button, then the three timers of a deal; a fourth timer shows the modal
    after the last one. *)
Definition sampleScript : list App.Event :=
  concat (replicate 8 [App.UserDeal; App.TimerDue; App.TimerDue; App.TimerDue])
    ++ [App.TimerDue].

(** *** Proof steps *)

(** Setters and callbacks on a world given field by field. *)
Ltac explicit :=
  cbv [App.runCallback App.freshDeck App.setTimeout App.update
       App.setPlayer1Score App.setPlayer2Score App.setPlayer1Hand
       App.setPlayer2Hand App.setGameState App.setResultMessage
       App.setWinnerMessage App.setWinningPlayer App.setCurrentDeck
       App.setShuffleCount App.setIsHandsRevealed App.setShowReshuffleModal
       App.app App.clock App.timers App.randomCalls
       App.player1Score App.player2Score App.player1Hand App.player2Hand
       App.gameState App.resultMessage App.winnerMessage App.winningPlayer
       App.currentDeck App.shuffleCount App.isHandsRevealed
       App.showReshuffleModal Datatypes.app].

(** Setters and callbacks on a world whose timers are not known. *)
Ltac setters :=
  cbv [App.runCallback App.freshDeck App.setTimeout App.update
       App.setPlayer1Score App.setPlayer2Score App.setPlayer1Hand
       App.setPlayer2Hand App.setGameState App.setResultMessage
       App.setWinnerMessage App.setWinningPlayer App.setCurrentDeck
       App.setShuffleCount App.setIsHandsRevealed App.setShowReshuffleModal
       App.app App.clock App.timers App.randomCalls
       App.player1Score App.player2Score App.player1Hand App.player2Hand
       App.gameState App.resultMessage App.winnerMessage App.winningPlayer
       App.currentDeck App.shuffleCount App.isHandsRevealed
       App.showReshuffleModal].

(** Two worlds side by side, field by field. *)
Ltac worlds :=
  repeat match goal with
  | w : App.World |- _ => destruct w as [[] ? ? ?]
  end;
  unfold alike, cells in *;
  cbn [App.app App.clock App.timers App.randomCalls
       App.player1Score App.player2Score App.player1Hand App.player2Hand
       App.gameState App.resultMessage App.winnerMessage App.winningPlayer
       App.currentDeck App.shuffleCount App.isHandsRevealed
       App.showReshuffleModal] in *.

(** The books of a state given field by field. *)
Ltac books :=
  unfold accounts, inPlay, handsEmpty, handsDealt, winnerShown in *;
  cbn [App.player1Score App.player2Score App.player1Hand App.player2Hand
       App.gameState App.resultMessage App.winnerMessage App.winningPlayer
       App.currentDeck App.shuffleCount App.isHandsRevealed
       App.showReshuffleModal] in *.

(* ===================================================================== *)
(** ** Facts about the runtime fragments *)
(* ===================================================================== *)

Section JsFacts.
Context {A : Type}.
Implicit Types (l : list A) (i j : nat).

Lemma insert_head_perm l j x a :
  l !! j = Some x -> x :: <[j := a]> l ≡ₚ a :: l.
Proof.
  revert j. induction l as [|y l IH]; intros [|j] H; simplify_eq/=.
  - apply perm_swap.
  - etrans; [apply perm_swap|]. etrans; [|apply perm_swap].
    apply perm_skip. by apply IH.
Qed.

(** Exchanging two cells of an array reorders it. *)
Lemma swap_cells_perm l i j ai aj :
  l !! i = Some ai -> l !! j = Some aj ->
  <[j := ai]> (<[i := aj]> l) ≡ₚ l.
Proof.
  revert i j. induction l as [|y l IH]; intros [|i] [|j] Hi Hj; simplify_eq/=.
  - reflexivity.
  - by apply insert_head_perm.
  - rewrite (insert_head_perm l i ai aj) by done. reflexivity.
  - f_equiv. by apply IH.
Qed.

Lemma swap_in_range l i j :
  (i < length l)%nat -> (j < length l)%nat ->
  exists ai aj, l !! i = Some ai /\ l !! j = Some aj
                /\ Js.swap i j l = <[j := ai]> (<[i := aj]> l).
Proof.
  intros Hi Hj.
  destruct (lookup_lt_is_Some_2 l i Hi) as [ai Hai].
  destruct (lookup_lt_is_Some_2 l j Hj) as [aj Haj].
  exists ai, aj. unfold Js.swap. by rewrite Hai, Haj.
Qed.

Lemma swap_length l i j : length (Js.swap i j l) = length l.
Proof.
  unfold Js.swap. destruct (l !! j), (l !! i); try done.
  by rewrite !length_insert.
Qed.

Lemma swap_perm l i j :
  (i < length l)%nat -> (j < length l)%nat -> Js.swap i j l ≡ₚ l.
Proof.
  intros Hi Hj. destruct (swap_in_range l i j Hi Hj) as (ai & aj & Hai & Haj & ->).
  by apply swap_cells_perm.
Qed.
End JsFacts.

(** The index [Math.floor(Math.random() * n)] is below [n]. *)
Lemma floor_mul_range (r : Q) (n : nat) :
  (0 <= r)%Q -> (r < 1)%Q -> (0 < n)%nat -> (Js.floor_mul r n < n)%nat.
Proof.
  intros H0 H1 Hn. unfold Js.floor_mul.
  assert (Hlt : (r * inject_Z (Z.of_nat n) < inject_Z (Z.of_nat n))%Q).
  { rewrite <- (Qmult_1_l (inject_Z (Z.of_nat n))) at 2.
    apply Qmult_lt_compat_r; [|done].
    change 0%Q with (inject_Z 0). rewrite <- Zlt_Qlt. lia. }
  assert (Hge : (0 <= r * inject_Z (Z.of_nat n))%Q).
  { apply Qmult_le_0_compat; [done|].
    change 0%Q with (inject_Z 0). rewrite <- Zle_Qle. lia. }
  assert (Hfl : Qfloor (r * inject_Z (Z.of_nat n)) < Z.of_nat n).
  { apply Z.nle_gt. intros Hle. apply (Qlt_not_le _ _ Hlt).
    eapply Qle_trans; [|apply Qfloor_le]. by rewrite <- Zle_Qle. }
  assert (0 <= Qfloor (r * inject_Z (Z.of_nat n))).
  { change 0 with (Qfloor (inject_Z 0)). by apply Qfloor_resp_le. }
  lia.
Qed.

(** *** [sort] with the comparator [(a, b) => b - a] *)

Lemma sort_insert_perm (x : Z) (l : list Z) :
  Js.sort_insert descending x l ≡ₚ x :: l.
Proof.
  induction l as [|y l IH]; simpl; [done|].
  destruct (descending x y <=? 0); [done|].
  rewrite IH. apply Permutation_swap.
Qed.

Lemma sort_perm (l : list Z) : Js.sort descending l ≡ₚ l.
Proof.
  induction l as [|x l IH]; simpl; [done|].
  by rewrite sort_insert_perm, IH.
Qed.

Lemma sort_insert_sorted (x : Z) (l : list Z) :
  StronglySorted Z.ge l -> StronglySorted Z.ge (Js.sort_insert descending x l).
Proof.
  induction 1 as [|y l Hs IH Hy]; simpl.
  - repeat constructor.
  - unfold descending at 1. destruct (Z.leb_spec (y - x) 0).
    + constructor; [by constructor|].
      constructor; [lia|]. eapply Forall_impl; [exact Hy|]. simpl. lia.
    + constructor; [done|].
      rewrite (sort_insert_perm x l). constructor; [lia|done].
Qed.

Lemma sort_sorted (l : list Z) : StronglySorted Z.ge (Js.sort descending l).
Proof.
  induction l as [|x l IH]; simpl; [constructor|by apply sort_insert_sorted].
Qed.

(* ===================================================================== *)
(** ** The deck: [createDeck] and [shuffle] *)
(* ===================================================================== *)

(** C8. A freshly built deck has exactly 52 cards; no (rank, suit) pair
    occurs twice; the cards are enumerated suit by suit and, within a suit,
    rank by rank in the order 2..A (the card of the [s]-th suit and [r]-th
    rank stands at index [13 s + r]); and the [value] of every card is its
    rank's position in that order plus two, an integer from 2 to 14, so that
    values increase strictly with the rank's position: it is the value
    [getRankValue] gives the rank, and the ranks of the first thirteen
    cards with their values are 2->2, ..., 10->10, J->11, Q->12, K->13,
    A->14. *)
Theorem createDeck_full_deck :
  length App.createDeck = 52%nat
  /\ NoDup (map face App.createDeck)
  /\ App.createDeck = suit_major_enumeration
  /\ (forall (s r : nat) (suit rank : string),
        App.SUITS !! s = Some suit -> App.RANKS !! r = Some rank ->
        App.createDeck !! (13 * s + r)%nat
        = Some (Card.mk rank suit (Z.of_nat r + 2)))
  /\ Forall (fun c => exists i : nat,
               App.RANKS !! i = Some (Card.rank c)
               /\ Card.value c = Z.of_nat i + 2
               /\ 2 <= Card.value c <= 14
               /\ Card.value c = App.getRankValue (Card.rank c)) App.createDeck
  /\ NoDup App.RANKS
  /\ map (fun c => (Card.rank c, Card.value c)) (take 13 App.createDeck)
     = [("2", 2); ("3", 3); ("4", 4); ("5", 5); ("6", 6); ("7", 7); ("8", 8);
        ("9", 9); ("10", 10); ("J", 11); ("Q", 12); ("K", 13); ("A", 14)].
Proof.
  split; [reflexivity|].
  split.
  { assert (H : bool_decide (NoDup (map face App.createDeck)) = true)
      by (vm_compute; reflexivity).
    by apply bool_decide_eq_true in H. }
  split; [reflexivity|].
  split.
  { intros s r suit rank Hs Hr.
    destruct s as [|[|[|[|s]]]]; try discriminate Hs; injection Hs as <-.
    all: destruct r as [|[|[|[|[|[|[|[|[|[|[|[|[|r]]]]]]]]]]]]];
      try discriminate Hr; injection Hr as <-; reflexivity. }
  split.
  - apply Forall_forall. intros c Hc.
    assert (Hall : forallb (fun c =>
              bool_decide (App.RANKS !! Z.to_nat (Card.value c - 2) = Some (Card.rank c))
              && (2 <=? Card.value c) && (Card.value c <=? 14)
              && (Card.value c =? App.getRankValue (Card.rank c)))
              App.createDeck = true)
      by (vm_compute; reflexivity).
    rewrite forallb_forall in Hall. apply list_elem_of_In in Hc.
    specialize (Hall c Hc).
    apply andb_prop in Hall as [Hall Hv]. apply andb_prop in Hall as [Hall H14].
    apply andb_prop in Hall as [Hr H2].
    apply bool_decide_eq_true in Hr.
    exists (Z.to_nat (Card.value c - 2)). split; [done|]. lia.
  - split; [|reflexivity].
    assert (H : bool_decide (NoDup App.RANKS) = true) by (vm_compute; reflexivity).
    by apply bool_decide_eq_true in H.
Qed.

Lemma createDeck_full_deck_witness :
  App.SUITS !! 2%nat = Some "C"
  /\ App.RANKS !! 9%nat = Some "J"
  /\ App.createDeck !! (13 * 2 + 9)%nat = Some (Card.mk "J" "C" (Z.of_nat 9 + 2)).
Proof.
  split; [reflexivity|]. split; [reflexivity|].
  exact (proj1 (proj2 (proj2 (proj2 createDeck_full_deck)))
           2%nat 9%nat "C" "J" eq_refl eq_refl).
Defined.

Section Shuffle.
Context {A : Type}.

(** The loop of [shuffle] reorders the array, whatever indices are drawn,
    as long as each is at most the loop index. *)
Lemma shuffle_loop_perm (pick : nat -> nat -> nat) (i k : nat) (array : list A) :
  (forall k' i', (pick k' i' <= i')%nat) ->
  (i < length array \/ i = 0)%nat ->
  App.shuffle_loop pick i k array ≡ₚ array.
Proof.
  intros Hpick. revert k array.
  induction i as [|i IH]; intros k array Hi; simpl; [done|].
  assert (S i < length array)%nat by lia.
  pose proof (Hpick k (S i)).
  rewrite IH by (rewrite swap_length; lia).
  apply swap_perm; lia.
Qed.
End Shuffle.

Lemma shuffle_reorders (A : Type) (random : nat -> Q) (k0 : nat) (array : list A) :
  (forall k, (0 <= random k)%Q /\ (random k < 1)%Q) ->
  App.shuffle random k0 array ≡ₚ array.
Proof.
  intros Hrange. unfold App.shuffle. apply shuffle_loop_perm; [|lia].
  intros k i. destruct (Hrange k) as [H0 H1].
  pose proof (floor_mul_range (random k) (i + 1) H0 H1). lia.
Qed.

(** C9. For every array and every sequence of values of the random source
    (values of [Math.random()], at least 0 and below 1), the array after
    [shuffle] is a permutation of the array before: the same elements, each
    as many times, in some order; so a shuffled full deck holds the same 52
    cards. *)
Theorem shuffle_permutation (A : Type) (random : nat -> Q) (k0 : nat)
    (array : list A) :
  (forall k, (0 <= random k)%Q /\ (random k < 1)%Q) ->
  App.shuffle random k0 array ≡ₚ array
  /\ length (App.shuffle random k0 array) = length array
  /\ App.shuffle random k0 App.createDeck ≡ₚ App.createDeck.
Proof.
  intros Hrange.
  split; [by apply shuffle_reorders|]. split; [|by apply shuffle_reorders].
  by apply Permutation_length, shuffle_reorders.
Qed.

Lemma shuffle_permutation_witness :
  (forall k : nat, (0 <= (fun _ => 1 # 2) k)%Q /\ ((fun _ => 1 # 2) k < 1)%Q)
  /\ App.shuffle (fun _ => 1 # 2) 0 [1; 2; 3; 4; 5] ≡ₚ [1; 2; 3; 4; 5].
Proof.
  assert (H : forall k : nat, (0 <= (fun _ => 1 # 2) k)%Q /\ ((fun _ => 1 # 2) k < 1)%Q)
    by (intros k; split; [discriminate|reflexivity]).
  split; [exact H|].
  exact (proj1 (shuffle_permutation Z (fun _ => 1 # 2) 0 [1; 2; 3; 4; 5] H)).
Defined.

(* ===================================================================== *)
(** ** The two variants of the game logic *)
(* ===================================================================== *)

(** C10. The game-logic functions of the two source files are
    extensionally equal: [createDeck], [shuffle] (for the same values of
    the random source), [getRankValue], [evaluateHand] and [compareHands]
    of [App.jsx] return, on every input, what their counterparts of the
    sibling variant return. *)
Theorem variants_agree :
  App.createDeck = Part000.createDeck
  /\ (forall (A : Type) (random : nat -> Q) (k0 : nat) (array : list A),
        App.shuffle random k0 array = Part000.shuffle random k0 array)
  /\ (forall rank, App.getRankValue rank = Part000.getRankValue rank)
  /\ (forall hand, App.evaluateHand hand = Part000.evaluateHand hand)
  /\ (forall hand1 hand2,
        App.compareHands hand1 hand2 = Part000.compareHands hand1 hand2).
Proof.
  split; [reflexivity|].
  split.
  - intros A random k0 array. unfold App.shuffle, Part000.shuffle.
    generalize (length array - 1)%nat as i. intros i. revert k0 array.
    induction i as [|i IH]; intros k0 array; simpl; [reflexivity|apply IH].
  - split; [reflexivity|]. split; [reflexivity|].
    intros hand1 hand2. unfold App.compareHands, Part000.compareHands.
    assert (Hk : forall k1 k2 n i,
               App.compareKickers k1 k2 n i = Part000.compareKickers k1 k2 n i).
    { intros k1 k2 n. induction n as [|n IH]; intros i; simpl; [reflexivity|].
      by rewrite IH. }
    repeat case_match; try reflexivity; apply Hk.
Qed.

(* ===================================================================== *)
(** ** Hand evaluation *)
(* ===================================================================== *)

Lemma evaluateHand_ranks_only (hand : list Card.t) :
  App.evaluateHand hand = App.evaluateHand (map (fun c => bare (Card.rank c)) hand).
Proof. unfold App.evaluateHand. by rewrite !map_map. Qed.

(** All 13 x 13 x 13 triples of ranks, evaluated. *)
Lemma evaluateHand_all_triples :
  forallb (fun r1 => forallb (fun r2 => forallb (fun r3 =>
    bool_decide (App.evaluateHand [bare r1; bare r2; bare r3] = expected r1 r2 r3))
    App.RANKS) App.RANKS) App.RANKS = true.
Proof. vm_compute. reflexivity. Qed.

Lemma evaluateHand_three (c1 c2 c3 : Card.t) :
  valid_card c1 -> valid_card c2 -> valid_card c3 ->
  App.evaluateHand [c1; c2; c3]
  = expected (Card.rank c1) (Card.rank c2) (Card.rank c3).
Proof.
  intros H1 H2 H3. rewrite evaluateHand_ranks_only. simpl.
  pose proof evaluateHand_all_triples as Hall.
  rewrite forallb_forall in Hall. specialize (Hall _ H1).
  rewrite forallb_forall in Hall. specialize (Hall _ H2).
  rewrite forallb_forall in Hall. specialize (Hall _ H3).
  by apply bool_decide_eq_true in Hall.
Qed.

(** Distinct ranks have distinct values. *)
Lemma getRankValue_inj (r1 r2 : string) :
  In r1 App.RANKS -> In r2 App.RANKS ->
  App.getRankValue r1 = App.getRankValue r2 -> r1 = r2.
Proof.
  intros H1 H2.
  assert (Hall : forallb (fun r1 => forallb (fun r2 =>
            implb (App.getRankValue r1 =? App.getRankValue r2) (String.eqb r1 r2))
            App.RANKS) App.RANKS = true) by (vm_compute; reflexivity).
  rewrite forallb_forall in Hall. specialize (Hall _ H1).
  rewrite forallb_forall in Hall. specialize (Hall _ H2).
  intros Hv. apply Z.eqb_eq in Hv. rewrite Hv in Hall. simpl in Hall.
  by apply String.eqb_eq.
Qed.

(** C1. For every hand of exactly 3 cards: if some rank occurs 3 times,
    [evaluateHand] returns the category Three of a Kind, with rank 3, the
    value of that rank as [primaryValue] and no kickers; else if some rank
    occurs exactly 2 times, the category Pair, with rank 2, the value of the
    paired rank as [primaryValue] and, as only kicker, the value of the
    remaining card; else the category High Card, with rank 1, no
    [primaryValue], and as kickers the three rank values sorted in
    descending order. *)
Theorem evaluateHand_classifies (hand : list Card.t) :
  length hand = 3%nat ->
  Forall valid_card hand ->
  (forall r, occurrences r hand = 3%nat ->
     App.evaluateHand hand
     = HandResult.mk "Three of a Kind" 3 (Some (App.getRankValue r)) None)
  /\ (forall r, occurrences r hand = 2%nat ->
        exists c', In c' hand /\ Card.rank c' <> r
          /\ App.evaluateHand hand
             = HandResult.mk "Pair" 2 (Some (App.getRankValue r))
                 (Some [Some (App.getRankValue (Card.rank c'))]))
  /\ ((forall r, (occurrences r hand < 2)%nat) ->
        exists sortedValues,
          sortedValues ≡ₚ rankValues hand
          /\ StronglySorted Z.ge sortedValues
          /\ App.evaluateHand hand
             = HandResult.mk "High Card" 1 None (Some (map Some sortedValues))).
Proof.
  intros Hlen Hvalid.
  destruct hand as [|c1 [|c2 [|c3 [|]]]]; try discriminate Hlen.
  apply Forall_cons in Hvalid as [H1 Hvalid].
  apply Forall_cons in Hvalid as [H2 Hvalid].
  apply Forall_cons in Hvalid as [H3 _].
  rewrite (evaluateHand_three c1 c2 c3 H1 H2 H3).
  unfold expected, occurrences. simpl.
  split; [|split].
  - intros r.
    destruct (String.eqb_spec (Card.rank c1) r) as [E1|N1],
      (String.eqb_spec (Card.rank c2) r) as [E2|N2],
      (String.eqb_spec (Card.rank c3) r) as [E3|N3]; simpl; try discriminate.
    intros _. by rewrite E1, E2, E3, !String.eqb_refl.
  - intros r.
    destruct (String.eqb_spec (Card.rank c1) r) as [E1|N1],
      (String.eqb_spec (Card.rank c2) r) as [E2|N2],
      (String.eqb_spec (Card.rank c3) r) as [E3|N3]; simpl; try discriminate; intros _.
    + exists c3. rewrite E1, E2, String.eqb_refl. simpl.
      destruct (String.eqb_spec r (Card.rank c3)); [congruence|]. auto 6.
    + exists c2. rewrite E1, E3, String.eqb_refl.
      destruct (String.eqb_spec r (Card.rank c2)); [congruence|]. simpl. auto 6.
    + exists c1. rewrite E2, E3, String.eqb_refl.
      destruct (String.eqb_spec (Card.rank c1) r); [congruence|]. simpl. auto 6.
  - intros Hno. exists (Js.sort descending (rankValues [c1; c2; c3])).
    split; [apply sort_perm|]. split; [apply sort_sorted|].
    destruct (String.eqb_spec (Card.rank c1) (Card.rank c2)) as [E|_].
    { specialize (Hno (Card.rank c1)). rewrite String.eqb_refl, <- E, String.eqb_refl in Hno.
      simpl in Hno. destruct (_ =? _)%string in Hno; simpl in Hno; lia. }
    destruct (String.eqb_spec (Card.rank c1) (Card.rank c3)) as [E|_].
    { specialize (Hno (Card.rank c1)). rewrite String.eqb_refl, <- E, String.eqb_refl in Hno.
      simpl in Hno. destruct (_ =? _)%string in Hno; simpl in Hno; lia. }
    destruct (String.eqb_spec (Card.rank c2) (Card.rank c3)) as [E|_].
    { specialize (Hno (Card.rank c2)). rewrite String.eqb_refl, <- E, String.eqb_refl in Hno.
      simpl in Hno. destruct (_ =? _)%string in Hno; simpl in Hno; lia. }
    reflexivity.
Qed.

Lemma evaluateHand_classifies_witness :
  let hand := [Card.mk "K" "H" 13; Card.mk "K" "D" 13; Card.mk "5" "C" 5] in
  length hand = 3%nat
  /\ Forall valid_card hand
  /\ (forall r, occurrences r hand = 2%nat ->
        exists c', In c' hand /\ Card.rank c' <> r
          /\ App.evaluateHand hand
             = HandResult.mk "Pair" 2 (Some (App.getRankValue r))
                 (Some [Some (App.getRankValue (Card.rank c'))])).
Proof.
  assert (Hv : Forall valid_card
                 [Card.mk "K" "H" 13; Card.mk "K" "D" 13; Card.mk "5" "C" 5])
    by (repeat constructor; unfold valid_card; simpl; tauto).
  split; [reflexivity|]. split; [exact Hv|].
  exact (proj1 (proj2 (evaluateHand_classifies
           [Card.mk "K" "H" 13; Card.mk "K" "D" 13; Card.mk "5" "C" 5]
           eq_refl Hv))).
Defined.

Lemma evaluateHand_evaluated (hand : list Card.t) :
  length hand = 3%nat -> Forall valid_card hand -> evaluated (App.evaluateHand hand).
Proof.
  intros Hlen Hvalid.
  destruct hand as [|c1 [|c2 [|c3 [|]]]]; try discriminate Hlen.
  apply Forall_cons in Hvalid as [H1 Hvalid].
  apply Forall_cons in Hvalid as [H2 Hvalid].
  apply Forall_cons in Hvalid as [H3 _].
  rewrite (evaluateHand_three c1 c2 c3 H1 H2 H3). unfold expected.
  repeat case_match; try constructor.
  pose proof (Permutation_length
    (sort_perm [App.getRankValue (Card.rank c1); App.getRankValue (Card.rank c2);
                App.getRankValue (Card.rank c3)])) as Hl.
  destruct (Js.sort descending _) as [|a [|b [|c [|]]]]; try discriminate Hl.
  constructor.
Qed.

(* ===================================================================== *)
(** ** Hand comparison *)
(* ===================================================================== *)

Lemma compareKickers_shift (a b : Js.num) (k1 k2 : list Js.num) (n i : nat) :
  App.compareKickers (a :: k1) (b :: k2) n (S i) = App.compareKickers k1 k2 n i.
Proof. revert i. induction n as [|n IH]; intros i; simpl; [done|]. by rewrite IH. Qed.

Lemma greater_at_first_difference_head (x y : Z) (k1 k2 : list Js.num) :
  greater_at_first_difference (Some x :: k1) (Some y :: k2)
  <-> y < x \/ (x = y /\ greater_at_first_difference k1 k2).
Proof.
  split.
  - intros ([|i] & x' & y' & H1 & H2 & Hlt & Hbefore); simplify_eq/=; [by left|].
    right. specialize (Hbefore 0%nat ltac:(lia)) as H0. simplify_eq/=.
    split; [done|]. exists i, x', y'. repeat split; try done.
    intros j Hj. apply (Hbefore (S j)). lia.
  - intros [Hlt|[-> (i & x' & y' & H1 & H2 & Hlt & Hbefore)]].
    + exists 0%nat, x, y. repeat split; try done. intros j Hj. lia.
    + exists (S i), x', y'. repeat split; try done.
      intros [|j] Hj; simpl; [done|]. apply Hbefore. lia.
Qed.

(** The loop over the kickers, on two lists of numbers of one length. *)
Lemma compareKickers_decides (k1 k2 : list Z) :
  length k1 = length k2 ->
  let result :=
    App.compareKickers (map Some k1) (map Some k2) (length (map Some k1)) 0 in
  (result = 1 <-> greater_at_first_difference (map Some k1) (map Some k2))
  /\ (result = 2 <-> greater_at_first_difference (map Some k2) (map Some k1))
  /\ (result = 0 \/ result = 1 \/ result = 2).
Proof.
  revert k2. induction k1 as [|x k1 IH]; intros [|y k2] Hlen; try discriminate Hlen.
  - simpl. repeat split; try discriminate; try (by left);
      intros (i & ? & ? & H & _); by destruct i.
  - injection Hlen as Hlen. specialize (IH k2 Hlen). simpl in IH |- *.
    rewrite !greater_at_first_difference_head, compareKickers_shift.
    destruct (Z.ltb_spec y x); [|destruct (Z.ltb_spec x y)].
    + repeat split; try discriminate; try tauto; intros; lia.
    + repeat split; try discriminate; try tauto; intros; lia.
    + assert (x = y) by lia. subst y.
      destruct IH as (IH1 & IH2 & IH3). repeat split; try tauto.
      * intros [?|[_ ?]]; [lia|tauto].
      * intros [?|[_ ?]]; [lia|tauto].
Qed.

Lemma no_difference_in_empty (k : list Js.num) :
  ~ greater_at_first_difference [] k /\ ~ greater_at_first_difference k [].
Proof. split; intros (i & x & y & H1 & H2 & _); by destruct i. Qed.

Lemma both_primary (v1 v2 : Z) :
  (exists pa pb : Z, Some v1 = Some pa /\ Some v2 = Some pb /\ pb < pa) <-> v2 < v1.
Proof.
  split; [intros (pa & pb & ? & ? & ?); simplify_eq; done|].
  intros H. by exists v1, v2.
Qed.

Lemma no_primary_l (o : Js.num) :
  (exists pa pb : Z, None = Some pa /\ o = Some pb /\ pb < pa) <-> False.
Proof. split; [intros (pa & pb & ? & _); discriminate|tauto]. Qed.

Lemma no_primary_r (o : Js.num) :
  (exists pa pb : Z, o = Some pa /\ None = Some pb /\ pb < pa) <-> False.
Proof. split; [intros (pa & pb & _ & ? & _); discriminate|tauto]. Qed.

Lemma same_primary (v1 v2 : Z) : Some v1 = Some v2 <-> v1 = v2.
Proof. split; congruence. Qed.

(** C2. For every two results [a], [b] of [evaluateHand]:
    [compareHands a b] returns 1 (first wins) exactly when [a] has the
    higher rank, or the ranks are equal, both primary values exist and the
    one of [a] is greater, or ranks and primary values are tied and the
    kickers of [a], in their stored descending order, hold the greater
    value at the first index where they differ; it returns 2 (second wins)
    exactly when the same holds with [a] and [b] exchanged; and it returns 0
    (tie) exactly when neither holds, as when all kickers are equal or there
    are none. *)
Theorem compareHands_decides (hand1 hand2 : list Card.t) :
  length hand1 = 3%nat -> Forall valid_card hand1 ->
  length hand2 = 3%nat -> Forall valid_card hand2 ->
  let a := App.evaluateHand hand1 in
  let b := App.evaluateHand hand2 in
  (App.compareHands a b = 1 <-> wins a b)
  /\ (App.compareHands a b = 2 <-> wins b a)
  /\ (App.compareHands a b = 0 <-> ~ wins a b /\ ~ wins b a).
Proof.
  intros Hl1 Hv1 Hl2 Hv2 a b.
  pose proof (evaluateHand_evaluated hand1 Hl1 Hv1) as Ha.
  pose proof (evaluateHand_evaluated hand2 Hl2 Hv2) as Hb.
  fold a in Ha. fold b in Hb. clearbody a b.
  destruct Ha as [v1|v1 k1|a1 b1 c1], Hb as [v2|v2 k2|a2 b2 c2];
    unfold wins, App.compareHands; cbn [HandResult.rank HandResult.primaryValue
      HandResult.kicker threeOfAKind pair highCard kickers default id];
    rewrite ?both_primary, ?no_primary_l, ?no_primary_r, ?same_primary.
  - (* two threes of a kind *)
    destruct (no_difference_in_empty []) as [Hnone _].
    change (3 <? 3) with false. change (3 =? 3) with true. cbv iota.
    destruct (Z.ltb_spec v2 v1); [|destruct (Z.ltb_spec v1 v2)]; intuition lia.
  - cbn. intuition lia.
  - cbn. intuition lia.
  - cbn. intuition lia.
  - (* two pairs *)
    destruct (compareKickers_decides [k1] [k2] eq_refl) as (K1 & K2 & K3).
    cbn [map length] in K1, K2, K3 |- *.
    change (2 <? 2) with false. change (2 =? 2) with true. cbv iota.
    unfold id.
    set (r := App.compareKickers [Some k1] [Some k2] 1 0) in *.
    set (P := greater_at_first_difference [Some k1] [Some k2]) in *.
    set (Q := greater_at_first_difference [Some k2] [Some k1]) in *.
    clearbody r P Q.
    destruct (Z.ltb_spec v2 v1); [|destruct (Z.ltb_spec v1 v2)];
      [intuition lia..|].
    assert (v1 = v2) as -> by lia.
    destruct K3 as [-> | [-> | ->]]; intuition lia.
  - cbn. intuition lia.
  - cbn. intuition lia.
  - cbn. intuition lia.
  - (* two high cards *)
    destruct (compareKickers_decides [a1; b1; c1] [a2; b2; c2] eq_refl)
      as (K1 & K2 & K3).
    cbn [map length] in K1, K2, K3 |- *.
    change (1 <? 1) with false. change (1 =? 1) with true. cbv iota.
    unfold id.
    set (r := App.compareKickers _ _ _ _) in *.
    set (P := greater_at_first_difference [Some a1; Some b1; Some c1] _) in *.
    set (Q := greater_at_first_difference [Some a2; Some b2; Some c2] _) in *.
    clearbody r P Q. destruct K3 as [-> | [-> | ->]]; intuition lia.
Qed.

Lemma compareHands_decides_witness :
  let hand1 := [Card.mk "K" "H" 13; Card.mk "K" "D" 13; Card.mk "5" "C" 5] in
  let hand2 := [Card.mk "K" "C" 13; Card.mk "K" "S" 13; Card.mk "9" "H" 9] in
  (length hand1 = 3%nat /\ Forall valid_card hand1
   /\ length hand2 = 3%nat /\ Forall valid_card hand2)
  /\ (App.compareHands (App.evaluateHand hand1) (App.evaluateHand hand2) = 2
      <-> wins (App.evaluateHand hand2) (App.evaluateHand hand1)).
Proof.
  assert (Hv1 : Forall valid_card
                  [Card.mk "K" "H" 13; Card.mk "K" "D" 13; Card.mk "5" "C" 5])
    by (repeat constructor; unfold valid_card; simpl; tauto).
  assert (Hv2 : Forall valid_card
                  [Card.mk "K" "C" 13; Card.mk "K" "S" 13; Card.mk "9" "H" 9])
    by (repeat constructor; unfold valid_card; simpl; tauto).
  split; [by repeat split|].
  exact (proj1 (proj2 (compareHands_decides
           [Card.mk "K" "H" 13; Card.mk "K" "D" 13; Card.mk "5" "C" 5]
           [Card.mk "K" "C" 13; Card.mk "K" "S" 13; Card.mk "9" "H" 9]
           eq_refl Hv1 eq_refl Hv2))).
Defined.

(* ===================================================================== *)
(** ** More on comparison and evaluation *)
(* ===================================================================== *)

Lemma compareKickers_nil_l (k : list Js.num) (n i : nat) :
  App.compareKickers [] k n i = 0.
Proof.
  revert i. induction n as [|n IH]; intros i; cbn [App.compareKickers]; [done|].
  rewrite lookup_nil. destruct (mjoin (k !! i)); cbn; apply IH.
Qed.

Lemma compareKickers_nil_r (k : list Js.num) (n i : nat) :
  App.compareKickers k [] n i = 0.
Proof.
  revert i. induction n as [|n IH]; intros i; cbn [App.compareKickers]; [done|].
  rewrite lookup_nil. destruct (mjoin (k !! i)); cbn; apply IH.
Qed.

(** The loop over the kickers answers the other way round when the two
    lists are exchanged, whatever their lengths and cells. *)
Lemma compareKickers_mirror (k1 k2 : list Js.num) :
  App.compareKickers k2 k1 (length k2) 0
  = mirrored (App.compareKickers k1 k2 (length k1) 0).
Proof.
  revert k2. induction k1 as [|a k1 IH]; intros [|b k2].
  - reflexivity.
  - rewrite compareKickers_nil_r, compareKickers_nil_l. reflexivity.
  - rewrite compareKickers_nil_r, compareKickers_nil_l. reflexivity.
  - cbn [length App.compareKickers lookup list_lookup mjoin option_join].
    rewrite !compareKickers_shift, IH.
    destruct a as [x|], b as [y|]; cbn [Js.gt]; try reflexivity.
    destruct (Z.ltb_spec y x), (Z.ltb_spec x y); try reflexivity; lia.
Qed.

Lemma compareHands_mirror (hand1 hand2 : HandResult.t) :
  App.compareHands hand2 hand1 = mirrored (App.compareHands hand1 hand2).
Proof.
  destruct hand1 as [t1 r1 p1 k1], hand2 as [t2 r2 p2 k2].
  unfold App.compareHands.
  cbn [HandResult.rank HandResult.primaryValue HandResult.kicker].
  destruct (Z.ltb_spec r2 r1), (Z.ltb_spec r1 r2); try reflexivity; try lia.
  assert (r1 = r2) as -> by lia. rewrite Z.eqb_refl.
  destruct p1 as [v1|], p2 as [v2|].
  1: destruct (Z.ltb_spec v2 v1), (Z.ltb_spec v1 v2); try reflexivity; try lia.
  all: destruct k1 as [k1|], k2 as [k2|]; try reflexivity.
  all: apply compareKickers_mirror.
Qed.

(** X1. [compareHands] is fair to the order of its arguments, on every
    pair of results: exchanging the two hands exchanges the answers 1 and
    2 and keeps the answer 0; a hand ties with itself; and the answer is
    always 0, 1 or 2. *)
Theorem compareHands_antisymmetric (hand1 hand2 : HandResult.t) :
  App.compareHands hand2 hand1 = mirrored (App.compareHands hand1 hand2)
  /\ (App.compareHands hand1 hand2 = 1 <-> App.compareHands hand2 hand1 = 2)
  /\ (App.compareHands hand1 hand2 = 0 <-> App.compareHands hand2 hand1 = 0)
  /\ App.compareHands hand1 hand1 = 0
  /\ (App.compareHands hand1 hand2 = 0 \/ App.compareHands hand1 hand2 = 1
      \/ App.compareHands hand1 hand2 = 2).
Proof.
  pose proof (compareHands_mirror hand1 hand2) as H12.
  pose proof (compareHands_mirror hand2 hand1) as H21.
  pose proof (compareHands_mirror hand1 hand1) as H11.
  revert H12 H21 H11. unfold mirrored.
  generalize (App.compareHands hand1 hand2) as x.
  generalize (App.compareHands hand2 hand1) as y.
  generalize (App.compareHands hand1 hand1) as z.
  intros z y x.
  destruct (Z.eqb_spec x 1), (Z.eqb_spec x 2), (Z.eqb_spec y 1), (Z.eqb_spec y 2),
    (Z.eqb_spec z 1), (Z.eqb_spec z 2); intros; lia.
Qed.

Lemma compareHands_same (hand : HandResult.t) : App.compareHands hand hand = 0.
Proof.
  pose proof (compareHands_mirror hand hand) as H. revert H. unfold mirrored.
  generalize (App.compareHands hand hand) as x. intros x.
  destruct (Z.eqb_spec x 1), (Z.eqb_spec x 2); intros; lia.
Qed.

(** *** The ranking [compareHands] induces *)

Lemma lexicographic_eq (k1 k2 : list Z) : lexicographic k1 k2 = Eq -> k1 = k2.
Proof.
  revert k2. induction k1 as [|x k1 IH]; intros [|y k2]; simpl; try done.
  destruct (Z.compare_spec x y) as [E| |]; try done.
  intros Hk. f_equal; [exact E|by apply IH].
Qed.

Lemma lexicographic_same (k : list Z) : lexicographic k k = Eq.
Proof. induction k as [|x k IH]; simpl; [done|]. by rewrite Z.compare_refl. Qed.

Lemma lexicographic_trans (k1 k2 k3 : list Z) :
  lexicographic k1 k2 = Gt -> lexicographic k2 k3 = Gt -> lexicographic k1 k3 = Gt.
Proof.
  revert k2 k3. induction k1 as [|x k1 IH]; intros [|y k2] [|z k3]; simpl; try done.
  destruct (Z.compare_spec x y), (Z.compare_spec y z), (Z.compare_spec x z);
    try done; try lia.
  apply IH.
Qed.

(** On the results of [evaluateHand], [compareHands] is the lexicographic
    comparison of rank, primary value and kickers. *)
Lemma compareHands_lexicographic (a b : HandResult.t) :
  evaluated a -> evaluated b ->
  App.compareHands a b
  = match lexicographic (strength a) (strength b) with
    | Gt => 1
    | Lt => 2
    | Eq => 0
    end.
Proof.
  intros [v1|v1 k1|a1 b1 c1] [v2|v2 k2|a2 b2 c2]; try reflexivity.
  - cbn. destruct (Z.compare_spec v1 v2), (Z.ltb_spec v2 v1), (Z.ltb_spec v1 v2);
      try reflexivity; lia.
  - cbn. destruct (Z.compare_spec v1 v2), (Z.ltb_spec v2 v1), (Z.ltb_spec v1 v2);
      try reflexivity; try lia.
    destruct (Z.compare_spec k1 k2), (Z.ltb_spec k2 k1), (Z.ltb_spec k1 k2);
      try reflexivity; lia.
  - cbn.
    destruct (Z.compare_spec a1 a2), (Z.ltb_spec a2 a1), (Z.ltb_spec a1 a2);
      try reflexivity; try lia.
    destruct (Z.compare_spec b1 b2), (Z.ltb_spec b2 b1), (Z.ltb_spec b1 b2);
      try reflexivity; try lia.
    destruct (Z.compare_spec c1 c2), (Z.ltb_spec c2 c1), (Z.ltb_spec c1 c2);
      try reflexivity; lia.
Qed.

(** X2. On the results of [evaluateHand] for hands of three game cards,
    [compareHands] is a consistent ranking: if the first hand beats or
    ties the second and the second beats or ties the third, the first
    beats or ties the third, and it beats it as soon as one of the two
    comparisons is a win; ties are transitive. *)
Theorem compareHands_transitive (hand1 hand2 hand3 : list Card.t) :
  length hand1 = 3%nat -> Forall valid_card hand1 ->
  length hand2 = 3%nat -> Forall valid_card hand2 ->
  length hand3 = 3%nat -> Forall valid_card hand3 ->
  let a := App.evaluateHand hand1 in
  let b := App.evaluateHand hand2 in
  let c := App.evaluateHand hand3 in
  (App.compareHands a b <> 2 -> App.compareHands b c <> 2 ->
   App.compareHands a c <> 2)
  /\ (App.compareHands a b = 1 -> App.compareHands b c <> 2 ->
      App.compareHands a c = 1)
  /\ (App.compareHands a b <> 2 -> App.compareHands b c = 1 ->
      App.compareHands a c = 1)
  /\ (App.compareHands a b = 0 -> App.compareHands b c = 0 ->
      App.compareHands a c = 0).
Proof.
  intros Hl1 Hv1 Hl2 Hv2 Hl3 Hv3 a b c.
  pose proof (evaluateHand_evaluated hand1 Hl1 Hv1) as Ha.
  pose proof (evaluateHand_evaluated hand2 Hl2 Hv2) as Hb.
  pose proof (evaluateHand_evaluated hand3 Hl3 Hv3) as Hc.
  fold a in Ha. fold b in Hb. fold c in Hc. clearbody a b c.
  rewrite (compareHands_lexicographic a b Ha Hb),
    (compareHands_lexicographic b c Hb Hc), (compareHands_lexicographic a c Ha Hc).
  pose proof (lexicographic_eq (strength a) (strength b)) as Eab.
  pose proof (lexicographic_eq (strength b) (strength c)) as Ebc.
  pose proof (lexicographic_trans (strength a) (strength b) (strength c)) as T.
  pose proof (lexicographic_same (strength c)) as Sc.
  destruct (lexicographic (strength a) (strength b)) eqn:Hab;
    destruct (lexicographic (strength b) (strength c)) eqn:Hbc.
  all: try (specialize (Eab eq_refl); rewrite Eab in *).
  all: try (specialize (Ebc eq_refl); rewrite Ebc in *).
  all: rewrite ?Sc, ?Hab, ?Hbc, ?T by reflexivity.
  all: repeat split; intros; try done.
Qed.

Lemma compareHands_transitive_witness :
  let hand1 := [Card.mk "K" "H" 13; Card.mk "K" "D" 13; Card.mk "5" "C" 5] in
  let hand2 := [Card.mk "Q" "C" 12; Card.mk "Q" "S" 12; Card.mk "9" "H" 9] in
  let hand3 := [Card.mk "A" "C" 14; Card.mk "7" "S" 7; Card.mk "3" "H" 3] in
  (Forall valid_card hand1 /\ Forall valid_card hand2 /\ Forall valid_card hand3)
  /\ (App.compareHands (App.evaluateHand hand1) (App.evaluateHand hand2) = 1 ->
      App.compareHands (App.evaluateHand hand2) (App.evaluateHand hand3) <> 2 ->
      App.compareHands (App.evaluateHand hand1) (App.evaluateHand hand3) = 1).
Proof.
  assert (Hv1 : Forall valid_card
                  [Card.mk "K" "H" 13; Card.mk "K" "D" 13; Card.mk "5" "C" 5])
    by (repeat constructor; unfold valid_card; simpl; tauto).
  assert (Hv2 : Forall valid_card
                  [Card.mk "Q" "C" 12; Card.mk "Q" "S" 12; Card.mk "9" "H" 9])
    by (repeat constructor; unfold valid_card; simpl; tauto).
  assert (Hv3 : Forall valid_card
                  [Card.mk "A" "C" 14; Card.mk "7" "S" 7; Card.mk "3" "H" 3])
    by (repeat constructor; unfold valid_card; simpl; tauto).
  split; [by repeat split|].
  exact (proj1 (proj2 (compareHands_transitive
           [Card.mk "K" "H" 13; Card.mk "K" "D" 13; Card.mk "5" "C" 5]
           [Card.mk "Q" "C" 12; Card.mk "Q" "S" 12; Card.mk "9" "H" 9]
           [Card.mk "A" "C" 14; Card.mk "7" "S" 7; Card.mk "3" "H" 3]
           eq_refl Hv1 eq_refl Hv2 eq_refl Hv3))).
Defined.

(** *** What [evaluateHand] looks at *)

(** All 13 x 13 x 13 triples of ranks: the result is the one read off the
    three values in descending order. *)
Lemma expected_all_triples :
  forallb (fun r1 => forallb (fun r2 => forallb (fun r3 =>
    bool_decide (expected r1 r2 r3
                 = classify (Js.sort descending
                     [App.getRankValue r1; App.getRankValue r2; App.getRankValue r3])))
    App.RANKS) App.RANKS) App.RANKS = true.
Proof. vm_compute. reflexivity. Qed.

Lemma evaluateHand_by_values (hand : list Card.t) :
  length hand = 3%nat -> Forall valid_card hand ->
  App.evaluateHand hand = classify (Js.sort descending (rankValues hand)).
Proof.
  intros Hlen Hvalid.
  destruct hand as [|c1 [|c2 [|c3 [|]]]]; try discriminate Hlen.
  apply Forall_cons in Hvalid as [H1 Hvalid].
  apply Forall_cons in Hvalid as [H2 Hvalid].
  apply Forall_cons in Hvalid as [H3 _].
  rewrite (evaluateHand_three c1 c2 c3 H1 H2 H3).
  pose proof expected_all_triples as Hall.
  rewrite forallb_forall in Hall. specialize (Hall _ H1).
  rewrite forallb_forall in Hall. specialize (Hall _ H2).
  rewrite forallb_forall in Hall. specialize (Hall _ H3).
  by apply bool_decide_eq_true in Hall.
Qed.

(** Sorting forgets the order the values came in. *)
Lemma sort_of_permutation (l1 l2 : list Z) :
  l1 ≡ₚ l2 -> Js.sort descending l1 = Js.sort descending l2.
Proof.
  intros Hp. apply (StronglySorted_unique_strong Z.ge).
  - intros x1 x2 _ _. lia.
  - apply sort_sorted.
  - apply sort_sorted.
  - by rewrite !sort_perm.
Qed.

(** X3. [evaluateHand] is blind to the order of the cards and to their
    suits: two hands of three game cards with the same rank values, in
    whatever order and suits, get the same result. *)
Theorem evaluateHand_order_and_suit_blind (hand1 hand2 : list Card.t) :
  length hand1 = 3%nat -> Forall valid_card hand1 -> Forall valid_card hand2 ->
  rankValues hand1 ≡ₚ rankValues hand2 ->
  App.evaluateHand hand1 = App.evaluateHand hand2.
Proof.
  intros Hl1 Hv1 Hv2 Hp.
  assert (Hl2 : length hand2 = 3%nat).
  { apply Permutation_length in Hp. unfold rankValues in Hp.
    rewrite !length_map in Hp. congruence. }
  rewrite (evaluateHand_by_values hand1 Hl1 Hv1),
    (evaluateHand_by_values hand2 Hl2 Hv2).
  by rewrite (sort_of_permutation _ _ Hp).
Qed.

Lemma evaluateHand_order_and_suit_blind_witness :
  let hand1 := [Card.mk "K" "H" 13; Card.mk "5" "C" 5; Card.mk "K" "D" 13] in
  let hand2 := [Card.mk "5" "S" 5; Card.mk "K" "C" 13; Card.mk "K" "S" 13] in
  (Forall valid_card hand1 /\ Forall valid_card hand2
   /\ rankValues hand1 ≡ₚ rankValues hand2)
  /\ App.evaluateHand hand1 = App.evaluateHand hand2.
Proof.
  assert (Hv1 : Forall valid_card
                  [Card.mk "K" "H" 13; Card.mk "5" "C" 5; Card.mk "K" "D" 13])
    by (repeat constructor; unfold valid_card; simpl; tauto).
  assert (Hv2 : Forall valid_card
                  [Card.mk "5" "S" 5; Card.mk "K" "C" 13; Card.mk "K" "S" 13])
    by (repeat constructor; unfold valid_card; simpl; tauto).
  assert (Hp : rankValues [Card.mk "K" "H" 13; Card.mk "5" "C" 5; Card.mk "K" "D" 13]
               ≡ₚ rankValues [Card.mk "5" "S" 5; Card.mk "K" "C" 13; Card.mk "K" "S" 13])
    by (apply perm_swap).
  split; [by repeat split|].
  exact (evaluateHand_order_and_suit_blind
           [Card.mk "K" "H" 13; Card.mk "5" "C" 5; Card.mk "K" "D" 13]
           [Card.mk "5" "S" 5; Card.mk "K" "C" 13; Card.mk "K" "S" 13]
           eq_refl Hv1 Hv2 Hp).
Defined.

(** Two triples in descending order that [compareHands] cannot tell apart
    once classified are the same triple. *)
Lemma classify_tie (x1 y1 z1 x2 y2 z2 : Z) :
  x1 >= y1 -> y1 >= z1 -> x2 >= y2 -> y2 >= z2 ->
  App.compareHands (classify [x1; y1; z1]) (classify [x2; y2; z2]) = 0 ->
  [x1; y1; z1] = [x2; y2; z2].
Proof.
  intros G1 G2 G3 G4. unfold classify.
  destruct (Z.eqb_spec x1 y1), (Z.eqb_spec y1 z1), (Z.eqb_spec x2 y2),
    (Z.eqb_spec y2 z2); cbn [andb]; cbn.
  all: repeat match goal with
       | |- context [?a <? ?b] => destruct (Z.ltb_spec a b)
       end; try discriminate; intros _; try lia; repeat f_equal; lia.
Qed.

(** X4. A round is a tie exactly when the two hands hold the same rank
    values: for two hands of three game cards, [compareHands] answers 0
    on their results if and only if the rank values of one hand are a
    reordering of those of the other. *)
Theorem tie_iff_same_values (hand1 hand2 : list Card.t) :
  length hand1 = 3%nat -> Forall valid_card hand1 ->
  length hand2 = 3%nat -> Forall valid_card hand2 ->
  App.compareHands (App.evaluateHand hand1) (App.evaluateHand hand2) = 0
  <-> rankValues hand1 ≡ₚ rankValues hand2.
Proof.
  intros Hl1 Hv1 Hl2 Hv2.
  rewrite (evaluateHand_by_values hand1 Hl1 Hv1),
    (evaluateHand_by_values hand2 Hl2 Hv2).
  split.
  - intros Htie.
    pose proof (sort_sorted (rankValues hand1)) as S1.
    pose proof (sort_sorted (rankValues hand2)) as S2.
    pose proof (sort_perm (rankValues hand1)) as P1.
    pose proof (sort_perm (rankValues hand2)) as P2.
    assert (L1 : length (Js.sort descending (rankValues hand1)) = 3%nat).
    { rewrite (Permutation_length P1). unfold rankValues. by rewrite length_map. }
    assert (L2 : length (Js.sort descending (rankValues hand2)) = 3%nat).
    { rewrite (Permutation_length P2). unfold rankValues. by rewrite length_map. }
    rewrite <- P1, <- P2.
    destruct (Js.sort descending (rankValues hand1)) as [|x1 [|y1 [|z1 [|]]]];
      try discriminate L1.
    destruct (Js.sort descending (rankValues hand2)) as [|x2 [|y2 [|z2 [|]]]];
      try discriminate L2.
    apply StronglySorted_inv in S1 as [S1 F1].
    apply StronglySorted_inv in S1 as [_ F1'].
    apply StronglySorted_inv in S2 as [S2 F2].
    apply StronglySorted_inv in S2 as [_ F2'].
    apply Forall_cons in F1 as [? _]. apply Forall_cons in F1' as [? _].
    apply Forall_cons in F2 as [? _]. apply Forall_cons in F2' as [? _].
    by rewrite (classify_tie x1 y1 z1 x2 y2 z2).
  - intros Hp. rewrite (sort_of_permutation _ _ Hp). apply compareHands_same.
Qed.

Lemma tie_iff_same_values_witness :
  let hand1 := [Card.mk "K" "H" 13; Card.mk "5" "C" 5; Card.mk "K" "D" 13] in
  let hand2 := [Card.mk "5" "S" 5; Card.mk "K" "C" 13; Card.mk "K" "S" 13] in
  (Forall valid_card hand1 /\ Forall valid_card hand2)
  /\ (App.compareHands (App.evaluateHand hand1) (App.evaluateHand hand2) = 0
      <-> rankValues hand1 ≡ₚ rankValues hand2).
Proof.
  assert (Hv1 : Forall valid_card
                  [Card.mk "K" "H" 13; Card.mk "5" "C" 5; Card.mk "K" "D" 13])
    by (repeat constructor; unfold valid_card; simpl; tauto).
  assert (Hv2 : Forall valid_card
                  [Card.mk "5" "S" 5; Card.mk "K" "C" 13; Card.mk "K" "S" 13])
    by (repeat constructor; unfold valid_card; simpl; tauto).
  split; [by split|].
  exact (tie_iff_same_values
           [Card.mk "K" "H" 13; Card.mk "5" "C" 5; Card.mk "K" "D" 13]
           [Card.mk "5" "S" 5; Card.mk "K" "C" 13; Card.mk "K" "S" 13]
           eq_refl Hv1 eq_refl Hv2).
Defined.

(** *** The value of a rank *)

Lemma getRankValue_cases (rank : string) :
  (In rank App.RANKS /\ 2 <= App.getRankValue rank <= 14
   /\ App.RANKS !! Z.to_nat (App.getRankValue rank - 2) = Some rank)
  \/ (~ In rank App.RANKS /\ App.getRankValue rank = 0).
Proof.
  unfold App.getRankValue, App.rankMap. cbn [Js.get].
  repeat match goal with
  | |- context [String.eqb ?k rank] =>
      destruct (String.eqb_spec k rank) as [<-|?];
        [left; split; [cbn; tauto|split; [vm_compute; split; discriminate|reflexivity]]|]
  end.
  right. split; [|reflexivity]. cbn. intuition congruence.
Qed.

(** X5. [getRankValue] answers 0 for a rank it does not know and for no
    other: for every string that names no property inherited from
    [Object.prototype], the value is 0 exactly when the string is none of
    the thirteen rank symbols; for a rank symbol it is the position of
    the symbol in [RANKS] plus two, between 2 and 14. *)
Theorem getRankValue_unknown_rank (rank : string) :
  ~ In rank Js.inherited ->
  (App.getRankValue rank = 0 <-> ~ In rank App.RANKS)
  /\ (In rank App.RANKS ->
      exists i : nat, App.RANKS !! i = Some rank
                      /\ App.getRankValue rank = Z.of_nat i + 2
                      /\ 2 <= App.getRankValue rank <= 14).
Proof.
  intros _. destruct (getRankValue_cases rank) as [(Hin & Hv & Hi)|[Hout Hv]].
  - split; [split; [lia|tauto]|]. intros _.
    exists (Z.to_nat (App.getRankValue rank - 2)). split; [exact Hi|]. lia.
  - split; [tauto|]. tauto.
Qed.

Lemma getRankValue_unknown_rank_witness :
  ~ In "1" Js.inherited
  /\ (App.getRankValue "1" = 0 <-> ~ In "1" App.RANKS).
Proof.
  assert (H : ~ In "1" Js.inherited) by (cbn; intuition discriminate).
  split; [exact H|]. exact (proj1 (getRankValue_unknown_rank "1" H)).
Defined.

(* ===================================================================== *)
(** ** The orders a shuffle can produce *)
(* ===================================================================== *)

Section Orders.
Context {A : Type}.
Implicit Types (array target : list A) (i j k : nat).

(** The loop looks at its indices from where it starts down to 1, one
    call of the random source after the other. *)
Lemma shuffle_loop_ext (pick1 pick2 : nat -> nat -> nat) i k array :
  (forall i', (0 < i' <= i)%nat ->
     pick1 (k + (i - i'))%nat i' = pick2 (k + (i - i'))%nat i') ->
  App.shuffle_loop pick1 i k array = App.shuffle_loop pick2 i k array.
Proof.
  revert k array. induction i as [|i IH]; intros k array H; simpl; [done|].
  pose proof (H (S i)) as HS. rewrite Nat.sub_diag, Nat.add_0_r in HS.
  rewrite HS by lia. apply IH. intros i' Hi.
  specialize (H i'). replace (k + (S i - i'))%nat with (S k + (i - i'))%nat in H by lia.
  apply H. lia.
Qed.

Lemma swap_lookup i j array x :
  (j <= i)%nat -> (i < length array)%nat -> array !! j = Some x ->
  Js.swap i j array !! i = Some x.
Proof.
  intros Hj Hi Hx.
  destruct (swap_in_range array i j) as (ai & aj & Hai & Haj & ->); [lia..|].
  simplify_eq. destruct (decide (i = j)) as [->|Hne].
  - simplify_eq. apply list_lookup_insert_eq. by rewrite length_insert.
  - rewrite list_lookup_insert_ne by done. by apply list_lookup_insert_eq.
Qed.

Lemma swap_drop i j array :
  (j <= i)%nat -> (i < length array)%nat ->
  drop (S i) (Js.swap i j array) = drop (S i) array.
Proof.
  intros Hj Hi.
  destruct (swap_in_range array i j) as (ai & aj & Hai & Haj & ->); [lia..|].
  by rewrite !drop_insert_lt by lia.
Qed.

Lemma swap_take_perm i j array :
  (j <= i)%nat -> (i < length array)%nat ->
  take (S i) (Js.swap i j array) ≡ₚ take (S i) array.
Proof.
  intros Hj Hi.
  destruct (swap_in_range array i j) as (ai & aj & Hai & Haj & ->); [lia..|].
  rewrite !take_insert_lt by lia.
  apply swap_cells_perm; by rewrite lookup_take_lt by lia.
Qed.

(** Whatever order of the first [i + 1] cells is wanted, some choice of
    indices, each at most the loop index, makes the loop produce it. *)
Lemma shuffle_loop_reaches i array target :
  (i < length array)%nat ->
  drop (S i) array = drop (S i) target ->
  take (S i) array ≡ₚ take (S i) target ->
  exists choice : nat -> nat,
    (forall i', (choice i' <= i')%nat)
    /\ forall k, App.shuffle_loop (fun _ i' => choice i') i k array = target.
Proof.
  revert array. induction i as [|i IH]; intros array Hi Hdrop Htake.
  - exists (fun _ => 0%nat). split; [intros; lia|]. intros k. simpl.
    destruct array as [|a array]; [simpl in Hi; lia|].
    destruct target as [|b target].
    { apply Permutation_length in Htake. discriminate Htake. }
    simpl in Hdrop, Htake. rewrite !take_0 in Htake.
    apply Permutation_singleton_inj in Htake. rewrite !drop_0 in Hdrop. by subst.
  - assert (Hlen : length array = length target).
    { apply Permutation_length in Htake. rewrite !length_take in Htake.
      apply (f_equal length) in Hdrop. rewrite !length_drop in Hdrop. lia. }
    destruct (lookup_lt_is_Some_2 target (S i)) as [x Hx]; [lia|].
    assert (Hin : x ∈ take (S (S i)) array).
    { rewrite Htake. apply elem_of_take. exists (S i). split; [done|lia]. }
    apply elem_of_take in Hin as (j & Hj & Hji).
    set (array' := Js.swap (S i) j array).
    assert (Hi' : array' !! S i = Some x) by (apply swap_lookup; [lia|done..]).
    assert (Hl' : length array' = length array) by apply swap_length.
    destruct (IH array') as (choice & Hchoice & Hloop).
    + lia.
    + rewrite (drop_S _ _ _ Hi'), (drop_S _ _ _ Hx). f_equal.
      unfold array'. rewrite swap_drop by lia. exact Hdrop.
    + apply (Permutation_app_inv_r [x]).
      rewrite <- (take_S_r _ _ _ Hi'), <- (take_S_r _ _ _ Hx).
      unfold array'. rewrite swap_take_perm by lia. exact Htake.
    + exists (fun i' => if (i' =? S i)%nat then j else choice i'). split.
      * intros i'. destruct (Nat.eqb_spec i' (S i)); [lia|apply Hchoice].
      * intros k. cbn [App.shuffle_loop]. rewrite Nat.eqb_refl. fold array'.
        rewrite <- (Hloop (S k)). apply shuffle_loop_ext.
        intros i' Hi''. destruct (Nat.eqb_spec i' (S i)); [lia|done].
Qed.
End Orders.

Lemma drawing_range (j i : nat) :
  (j <= i)%nat -> (0 <= drawing j i)%Q /\ (drawing j i < 1)%Q.
Proof.
  intros Hj. unfold drawing, Qle, Qlt. cbn [Qnum Qden].
  rewrite !Z.mul_1_r. split; [lia|].
  rewrite Z.mul_1_l. 
  assert (Z.pos (Pos.of_nat (2 * (i + 1))) = Z.of_nat (2 * (i + 1))) as ->.
  { rewrite <- (Nat2Pos.id (2 * (i + 1))) at 2 by lia. by rewrite positive_nat_Z. }
  lia.
Qed.

Lemma drawing_draws (j i : nat) : Js.floor_mul (drawing j i) (i + 1) = j.
Proof.
  unfold Js.floor_mul, drawing, Qfloor, Qmult, inject_Z. cbn [Qnum Qden].
  rewrite Pos.mul_1_r.
  assert (Z.pos (Pos.of_nat (2 * (i + 1))) = 2 * Z.of_nat (i + 1)) as ->.
  { rewrite <- positive_nat_Z, Nat2Pos.id by lia. lia. }
  assert ((2 * Z.of_nat j + 1) * Z.of_nat (i + 1) / (2 * Z.of_nat (i + 1))
          = Z.of_nat j) as ->; [|lia].
  symmetry. apply (Z.div_unique _ _ _ (Z.of_nat (i + 1))); lia.
Qed.

(** X21. The shuffle can produce every order. For every array and
    every reordering of it there are values of the random source, all at
    least 0 and below 1, for which [shuffle] turns the array into this
    reordering (the product [Math.random() * (i + 1)] taken exactly, as
    [Js.floor_mul] does): no order of the deck is out of reach, the order
    it had before included. *)
Theorem shuffle_reaches_every_order (A : Type) (k0 : nat) (array target : list A) :
  target ≡ₚ array ->
  exists random : nat -> Q,
    (forall k, (0 <= random k)%Q /\ (random k < 1)%Q)
    /\ App.shuffle random k0 array = target.
Proof.
  intros Hperm. destruct array as [|a array].
  { apply Permutation_nil_r in Hperm. subst target.
    exists (fun _ => 0%Q). split; [|reflexivity]. intros _. by split. }
  set (full := a :: array) in *. set (i := (length full - 1)%nat).
  assert (Hn : length full = S i) by (unfold i, full; simpl; lia).
  assert (Hlen : length target = S i) by (by rewrite (Permutation_length Hperm)).
  destruct (shuffle_loop_reaches i full target) as (choice & Hchoice & Hloop).
  - lia.
  - by rewrite !drop_ge by lia.
  - by rewrite !take_ge by lia.
  - set (index := fun k => (i + k0 - k)%nat).
    exists (fun k => drawing (choice (index k)) (index k)). split.
    + intros k. apply drawing_range, Hchoice.
    + unfold App.shuffle. fold i. rewrite <- (Hloop k0). apply shuffle_loop_ext.
      intros i' Hi'. cbv beta.
      replace (index (k0 + (i - i'))%nat) with i' by (unfold index; lia).
      apply drawing_draws.
Qed.

Lemma shuffle_reaches_every_order_witness :
  [3; 1; 2] ≡ₚ [1; 2; 3]
  /\ exists random : nat -> Q,
       (forall k, (0 <= random k)%Q /\ (random k < 1)%Q)
       /\ App.shuffle random 0 [1; 2; 3] = [3; 1; 2].
Proof.
  assert (Hp : [3; 1; 2] ≡ₚ [1; 2; 3]).
  { etrans; [apply perm_swap|]. apply perm_skip, perm_swap. }
  split; [exact Hp|].
  exact (shuffle_reaches_every_order Z 0 [1; 2; 3] [3; 1; 2] Hp).
Defined.

(* ===================================================================== *)
(** ** Rounds: a deal, a reshuffle, and the timers they set *)
(* ===================================================================== *)

#[local] Arguments App.evaluateHand : simpl never.
#[local] Arguments App.compareHands : simpl never.
#[local] Arguments App.finalResultMessage : simpl never.
#[local] Arguments App.createDeck : simpl never.
#[local] Arguments App.shuffle : simpl never.
#[local] Arguments Js.slice : simpl never.
#[local] Arguments Js.slice_from : simpl never.
#[local] Arguments String.append : simpl never.
#[local] Arguments Z.add : simpl never.
#[local] Arguments Z.max : simpl never.
#[local] Arguments Z.leb : simpl never.
#[local] Arguments Z.eqb : simpl never.

Section Rounds.
Variable random : nat -> Q.

Import App.

(** *** The handlers, case by case *)

Lemma handleDeal_refuses (w : World) :
  (length (currentDeck (app w)) < cardsNeeded)%nat ->
  handleDeal w
  = (w |> setGameState showdown
       |> setResultMessage
            (finalResultMessage (player1Score (app w)) (player2Score (app w)))
       |> setShowReshuffleModal true).
Proof.
  intros Hlow. unfold handleDeal.
  by destruct (Nat.ltb_spec (length (currentDeck (app w))) cardsNeeded); [|lia].
Qed.

Lemma handleDeal_deals (w : World) :
  (cardsNeeded <= length (currentDeck (app w)))%nat ->
  handleDeal w
  = (w |> setGameState hands_out
       |> setWinningPlayer None
       |> setIsHandsRevealed false
       |> setWinnerMessage "...Dealing cards..."
       |> setResultMessage ""
       |> setPlayer1Hand []
       |> setPlayer2Hand []
       |> setTimeout (DealCards (currentDeck (app w)) (player1Score (app w))
                                (player2Score (app w))) 300).
Proof.
  intros Hlen. unfold handleDeal.
  by destruct (Nat.ltb_spec (length (currentDeck (app w))) cardsNeeded); [lia|].
Qed.

(** *** The event loop on one and on two pending timers *)

Lemma fireNext_single s c t callback rc :
  fireNext random (mkWorld s c [(t, callback)] rc)
  = runCallback random callback (mkWorld s (Z.max c t) [] rc).
Proof. reflexivity. Qed.

Lemma fireNext_first s c t1 callback1 t2 callback2 rc :
  t1 <= t2 ->
  fireNext random (mkWorld s c [(t1, callback1); (t2, callback2)] rc)
  = runCallback random callback1 (mkWorld s (Z.max c t1) [(t2, callback2)] rc).
Proof.
  intros Hle. unfold fireNext. cbn [timers popEarliest fst].
  by destruct (Z.leb_spec t1 t2); [|lia].
Qed.

Lemma fireNext_idle s c rc :
  fireNext random (mkWorld s c [] rc) = mkWorld s c [] rc.
Proof. reflexivity. Qed.

Lemma popEarliest_Forall (P : Z * Callback -> Prop) ts t rest :
  popEarliest ts = Some (t, rest) -> Forall P ts -> P t /\ Forall P rest.
Proof.
  revert t rest. induction ts as [|t0 ts IH]; intros t rest Hpop Hall; [done|].
  apply Forall_cons in Hall as [H0 Hall]. cbn [popEarliest] in Hpop.
  destruct (popEarliest ts) as [[t' rest']|].
  - destruct (IH t' rest' eq_refl Hall) as [Ht' Hrest'].
    destruct (fst t0 <=? fst t'); simplify_eq; auto.
  - simplify_eq. auto.
Qed.

(** *** The event loop comes to rest *)

Lemma timersWeight_cons t ts :
  timersWeight (t :: ts) = (weight (snd t) + timersWeight ts)%nat.
Proof. reflexivity. Qed.

Lemma timersWeight_app ts1 ts2 :
  timersWeight (ts1 ++ ts2) = (timersWeight ts1 + timersWeight ts2)%nat.
Proof. unfold timersWeight. by rewrite map_app, list_sum_app. Qed.

Lemma weight_positive callback : (1 <= weight callback)%nat.
Proof. destruct callback; cbn; lia. Qed.

Lemma popEarliest_weight ts t rest :
  popEarliest ts = Some (t, rest) ->
  timersWeight ts = (weight (snd t) + timersWeight rest)%nat.
Proof.
  revert t rest. induction ts as [|t0 ts IH]; intros t rest Hpop; [done|].
  cbn [popEarliest] in Hpop. rewrite timersWeight_cons.
  destruct (popEarliest ts) as [[t' rest']|] eqn:Hts.
  - pose proof (IH t' rest' eq_refl) as E.
    destruct (fst t0 <=? fst t'); simplify_eq; rewrite ?timersWeight_cons; lia.
  - simplify_eq. destruct ts as [|t1 ts]; [done|].
    cbn [popEarliest] in Hts. destruct (popEarliest ts) as [[t' rest']|]; [|done].
    by destruct (fst t1 <=? fst t').
Qed.

Lemma popEarliest_None ts : popEarliest ts = None -> ts = [].
Proof.
  destruct ts as [|t ts]; [done|]. cbn [popEarliest].
  destruct (popEarliest ts) as [[t' rest]|]; [|done].
  by destruct (fst t <=? fst t').
Qed.

(** A callback sets fewer timers than its weight allows. *)
Lemma runCallback_weight callback w :
  (pendingWeight (runCallback random callback w) + 1
   <= pendingWeight w + weight callback)%nat.
Proof.
  unfold pendingWeight.
  destruct callback; unfold runCallback; cbv zeta;
    repeat (destruct (_ =? _)); try destruct (_ <? _)%nat;
    cbn [timers setTimeout update setCurrentDeck setPlayer1Hand setPlayer2Hand
         setIsHandsRevealed setGameState setWinningPlayer setPlayer1Score
         setPlayer2Score setWinnerMessage setResultMessage setShowReshuffleModal
         setShuffleCount freshDeck weight];
    rewrite ?timersWeight_app, ?timersWeight_cons; cbn [timersWeight map list_sum
      fold_right weight snd]; lia.
Qed.

Lemma fireNext_weight w :
  timers w <> [] -> (pendingWeight (fireNext random w) < pendingWeight w)%nat.
Proof.
  intros Hne. unfold fireNext.
  destruct (popEarliest (timers w)) as [[[due callback] rest]|] eqn:Hpop.
  - pose proof (popEarliest_weight _ _ _ Hpop) as Hw. cbn [snd] in Hw.
    pose proof (runCallback_weight callback
                  (mkWorld (app w) (Z.max (clock w) due) rest (randomCalls w))) as Hc.
    unfold pendingWeight in Hc |- *. cbn [timers] in Hc. lia.
  - by apply popEarliest_None in Hpop.
Qed.

Lemma fire_rests n w : (pendingWeight w <= n)%nat -> timers (fire random n w) = [].
Proof.
  revert w. induction n as [|n IH]; intros w Hn; cbn [fire].
  - unfold pendingWeight in Hn. destruct (timers w) as [|[due callback] ts]; [done|].
    rewrite timersWeight_cons in Hn. pose proof (weight_positive callback).
    cbn [snd] in Hn. lia.
  - destruct (timers w) as [|t ts] eqn:Hts.
    + assert (Hw : fireNext random w = w) by (unfold fireNext; by rewrite Hts).
      rewrite Hw. apply IH. unfold pendingWeight. rewrite Hts. cbn. lia.
    + apply IH. assert (Hne : timers w <> []) by (by rewrite Hts).
      pose proof (fireNext_weight w Hne). lia.
Qed.

(** Whatever is pending, [settle] runs the event loop until no timer is
    left: its count of turns is enough. *)
Lemma settle_rests w : timers (settle random w) = [].
Proof. unfold settle. by apply fire_rests. Qed.

(** *** A whole round: [handleDeal] and the timers it leads to *)

Lemma settle_handleDeal (w : World) :
  timers w = [] ->
  (cardsNeeded <= length (currentDeck (app w)))%nat ->
  settle random (handleDeal w) = roundResult w.
Proof.
  intros Hq Hlen. rewrite (handleDeal_deals w Hlen).
  destruct w as [[] c ts rc]. cbn in Hq, Hlen. subst ts.
  unfold settle. explicit. cbn [map weight snd list_sum foldr Nat.add fire].
  rewrite fireNext_single. explicit.
  rewrite fireNext_first by lia. explicit.
  rewrite fireNext_single.
  unfold roundResult, awarded, roundMessage. explicit.
  destruct (compareHands _ _ =? 1) eqn:E1;
    [|destruct (compareHands _ _ =? 2) eqn:E2];
    (destruct (length _ <? cardsNeeded)%nat eqn:Elow;
     [rewrite fireNext_single|rewrite fireNext_idle]);
    explicit; rewrite ?E1, ?E2; f_equal; try lia; f_equal; try lia.
  all: apply Z.eqb_eq in E1; rewrite E1; change (1 =? 2) with false; cbv iota; lia.
Qed.

Lemma settle_handleReshuffle (w : World) :
  timers w = [] ->
  settle random (handleReshuffle w)
  = mkWorld
      (mkState 0 0 [] [] pre_deal "" "Shuffle complete. Ready to draw." None
         (shuffle random (randomCalls w) createDeck)
         (shuffleCount (app w) + 1) false false)
      (clock w + 500) [] (randomCalls w + shuffle_calls createDeck).
Proof.
  intros Hq. destruct w as [[] c ts rc]. cbn in Hq. subst ts.
  unfold settle, handleReshuffle. explicit.
  cbn [map weight snd list_sum foldr Nat.add fire].
  rewrite fireNext_single. explicit. f_equal. lia.
Qed.

(** *** Successful deals in sequence *)

Lemma low_deck_refused (w : World) :
  (length (currentDeck (app w)) < cardsNeeded)%nat -> refused w.
Proof. intros Hlow. unfold refused. by rewrite (handleDeal_refuses w Hlow). Qed.

Lemma deals_quiescent n w w' : deals random n w w' -> timers w = [] -> timers w' = [].
Proof.
  induction 1 as [|n w w' _ IH Hlen]; [done|]. intros Hq.
  by rewrite (settle_handleDeal w' (IH Hq) Hlen).
Qed.

Lemma deals_deck_size n w w' :
  deals random n w w' -> timers w = [] ->
  (length (currentDeck (app w')) + 6 * n = length (currentDeck (app w)))%nat.
Proof.
  induction 1 as [|n w w' Hd IH Hlen]; intros Hq; [lia|].
  rewrite (settle_handleDeal w' (deals_quiescent _ _ _ Hd Hq) Hlen).
  specialize (IH Hq). cbn. unfold Js.slice_from. rewrite length_drop.
  unfold cardsNeeded in Hlen. lia.
Qed.

(** C4. For every successful deal (at least 6 cards in the deck
    beforehand, and no timer pending, as for every deal the button lets
    through: [commands_arrive_idle]), once the deal has run: player 1 holds
    the first 3 cards of the former deck, player 2 the next 3, the deck is
    the former deck from index 6 on, and its size is the size before
    minus 6. Consequently, after N successful deals in a row from a 52-card
    deck the size is 52 - 6N, which is never negative, and once
    52 - 6N < 6 the next deal command is refused. *)
Theorem deal_consumes_six (w : World) :
  timers w = [] ->
  (let deck := currentDeck (app w) in
   let w' := settle random (handleDeal w) in
   (cardsNeeded <= length deck)%nat ->
   player1Hand (app w') = take 3 deck
   /\ player2Hand (app w') = take 3 (drop 3 deck)
   /\ currentDeck (app w') = drop 6 deck
   /\ length (currentDeck (app w')) = (length deck - 6)%nat
   /\ timers w' = [])
  /\ (forall (N : nat) (wN : World),
        length (currentDeck (app w)) = 52%nat ->
        deals random N w wN ->
        Z.of_nat (length (currentDeck (app wN))) = 52 - 6 * Z.of_nat N
        /\ 0 <= 52 - 6 * Z.of_nat N
        /\ (52 - 6 * Z.of_nat N < 6 -> refused wN)).
Proof.
  intros Hq. split.
  - intros deck w' Hlen. unfold w'. rewrite (settle_handleDeal w Hq Hlen).
    cbn. unfold Js.slice_from. rewrite length_drop. done.
  - intros N wN H52 Hdeals.
    pose proof (deals_deck_size N w wN Hdeals Hq) as Hsize.
    rewrite H52 in Hsize. split; [lia|]. split; [lia|].
    intros Hlow. apply low_deck_refused. unfold cardsNeeded. lia.
Qed.

(** The message of the end of the game compares the two scores: the
    higher one wins the game, equal scores tie. *)
Lemma finalResultMessage_verdict (p1 p2 : Z) :
  (p2 < p1 ->
   finalResultMessage p1 p2
   = "Player 1 Wins the Game! Final Score: "
       +:+ Js.toString p1 +:+ " - " +:+ Js.toString p2)
  /\ (p1 < p2 ->
      finalResultMessage p1 p2
      = "Player 2 Wins the Game! Final Score: "
          +:+ Js.toString p2 +:+ " - " +:+ Js.toString p1)
  /\ (p1 = p2 ->
      finalResultMessage p1 p2
      = "It's a Tie Game! Final Score: "
          +:+ Js.toString p1 +:+ " - " +:+ Js.toString p2).
Proof.
  unfold finalResultMessage.
  destruct (Z.ltb_spec p2 p1); [|destruct (Z.ltb_spec p1 p2)];
    repeat split; intros; try lia; reflexivity.
Qed.

(** With the modal flag set the deal button is not rendered. *)
Lemma modal_hides_deal_button (w : World) :
  showReshuffleModal (app w) = true -> clickDeal w = w.
Proof. intros Hf. unfold clickDeal, dealButtonRendered. by rewrite Hf. Qed.

(** C3. Whenever the deck cannot supply 6 cards, no further deal occurs
    and the deck-exhausted signal is raised instead. (1) A deal command
    arriving with fewer than 6 cards deals nothing: no timer is set, deck,
    hands and scores stay as they are, the modal flag is set in state
    showdown, and the final message compares the scores: the higher score
    wins the game, equal scores tie. (2) A deal that leaves fewer than 6
    cards (begun with no timer pending) ends with the modal flag set in
    state showdown and the final message computed from the scores with the
    point of this round added; the next deal command is then refused as
    in (1). In both cases the modal is shown and the deal button is gone
    with the flag set. *)
Theorem deck_exhaustion_raises_signal (w : World) :
  ((length (currentDeck (app w)) < cardsNeeded)%nat ->
   let w' := handleDeal w in
   refused w
   /\ player1Score (app w') = player1Score (app w)
   /\ player2Score (app w') = player2Score (app w)
   /\ showReshuffleModal (app w') = true
   /\ gameState (app w') = showdown
   /\ resultMessage (app w')
      = finalResultMessage (player1Score (app w)) (player2Score (app w))
   /\ modalShown w' = true
   /\ clickDeal w' = w')
  /\ (timers w = [] ->
      (cardsNeeded <= length (currentDeck (app w)))%nat ->
      (length (currentDeck (app w)) - 6 < cardsNeeded)%nat ->
      let w' := settle random (handleDeal w) in
      timers w' = []
      /\ player1Score (app w') = player1Score (app w) + awarded (roundWinner w) 1
      /\ player2Score (app w') = player2Score (app w) + awarded (roundWinner w) 2
      /\ showReshuffleModal (app w') = true
      /\ gameState (app w') = showdown
      /\ resultMessage (app w')
         = finalResultMessage (player1Score (app w')) (player2Score (app w'))
      /\ modalShown w' = true
      /\ refused w'
      /\ clickDeal w' = w')
  /\ (forall p1 p2 : Z,
        (p2 < p1 ->
         finalResultMessage p1 p2
         = "Player 1 Wins the Game! Final Score: "
             +:+ Js.toString p1 +:+ " - " +:+ Js.toString p2)
        /\ (p1 < p2 ->
            finalResultMessage p1 p2
            = "Player 2 Wins the Game! Final Score: "
                +:+ Js.toString p2 +:+ " - " +:+ Js.toString p1)
        /\ (p1 = p2 ->
            finalResultMessage p1 p2
            = "It's a Tie Game! Final Score: "
                +:+ Js.toString p1 +:+ " - " +:+ Js.toString p2)).
Proof.
  split; [|split; [|apply finalResultMessage_verdict]].
  - intros Hlow w'. split; [by apply low_deck_refused|].
    assert (Hw' : w' = handleDeal w) by reflexivity.
    rewrite (handleDeal_refuses w Hlow) in Hw'.
    repeat (split; [by rewrite Hw'|]).
    apply modal_hides_deal_button. by rewrite Hw'.
  - intros Hq Hlen Hleft w'.
    assert (Hlow : (length (Js.slice_from 6 (currentDeck (app w))) <? cardsNeeded)%nat
                   = true).
    { apply Nat.ltb_lt. unfold Js.slice_from. rewrite length_drop. lia. }
    assert (Hw' : w' = roundResult w) by apply (settle_handleDeal w Hq Hlen).
    rewrite Hw'.
    repeat (split; [unfold roundResult; rewrite Hlow; reflexivity|]).
    split.
    + apply low_deck_refused. cbn. by apply Nat.ltb_lt.
    + apply modal_hides_deal_button. unfold roundResult. by rewrite Hlow.
Qed.

(** C5. After every reshuffle command has run to its end (the command
    arriving with no timer pending, as whenever the modal is shown:
    [commands_arrive_idle]), the deck is a fresh full deck (the 52 cards of
    [createDeck], in some order), the shuffle count has grown by exactly 1,
    both scores are 0, both hands are empty, the winner indicator is
    cleared ([null]), the modal flag is cleared, and the state is pre-deal
    again. *)
Theorem reshuffle_restores (w : World) :
  (forall k, (0 <= random k)%Q /\ (random k < 1)%Q) ->
  timers w = [] ->
  let w' := settle random (handleReshuffle w) in
  currentDeck (app w') ≡ₚ createDeck
  /\ length (currentDeck (app w')) = 52%nat
  /\ shuffleCount (app w') = shuffleCount (app w) + 1
  /\ player1Score (app w') = 0
  /\ player2Score (app w') = 0
  /\ player1Hand (app w') = []
  /\ player2Hand (app w') = []
  /\ winningPlayer (app w') = None
  /\ showReshuffleModal (app w') = false
  /\ gameState (app w') = pre_deal
  /\ timers w' = [].
Proof.
  intros Hrange Hq w'. unfold w'. rewrite (settle_handleReshuffle w Hq). cbn.
  pose proof (shuffle_reorders Card.t random (randomCalls w) createDeck Hrange)
    as Hperm.
  split; [exact Hperm|]. split; [by rewrite (Permutation_length Hperm)|]. done.
Qed.

(** C6, as the code has it. In the states hands-out and reshuffling the
    deal button is disabled, and a click on it calls no handler: deck,
    hands, scores and game state, and the whole world with them, stay as
    they are. The protection is the button's: [handleDeal] itself does not
    look at the game state. *)
Theorem deal_button_ignored_while_busy (w : World) :
  gameState (app w) = hands_out \/ gameState (app w) = reshuffling ->
  dealButtonDisabled w = true /\ clickDeal w = w.
Proof.
  intros Hbusy.
  assert (Hd : dealButtonDisabled w = true).
  { unfold dealButtonDisabled. by destruct Hbusy as [-> | ->]. }
  split; [exact Hd|]. unfold clickDeal. rewrite Hd.
  by rewrite andb_false_r.
Qed.

(** The gate holds whatever runs: [handleDeal] alone sets a deal going,
    and only over six cards or more. *)
Lemma handlers_keep_gate (w : World) :
  gated w ->
  gated (handleDeal w) /\ gated (handleReshuffle w) /\ gated (fireNext random w).
Proof.
  intros Hg. unfold gated in *. split; [|split].
  - unfold handleDeal.
    destruct (Nat.ltb_spec (length (currentDeck (app w))) cardsNeeded) as [Hl|Hl];
      cbn; [done|].
    apply Forall_app. by repeat constructor.
  - cbn. apply Forall_app. by repeat constructor.
  - unfold fireNext.
    destruct (popEarliest (timers w)) as [[[due callback] rest]|] eqn:Hpop; [|done].
    destruct (popEarliest_Forall _ _ _ _ Hpop Hg) as [_ Hrest].
    destruct callback; unfold runCallback; cbv zeta;
      repeat (destruct (_ =? _)); try destruct (_ <? _)%nat; cbn;
      rewrite <- ?app_assoc; try apply Forall_app; try done;
      by repeat constructor.
Qed.

(** C7, as the code has it. The draw is gated, not guarded: with fewer
    than 6 cards [handleDeal] sets no timer, so nothing is drawn; with 6
    cards or more the draw it schedules is over the current deck and takes
    exactly 3 and 3 cards, leaving the others; and whichever handler or
    timer runs, every pending draw stays over 6 cards or more. *)
Theorem draw_only_behind_gate (w : World) :
  let deck := currentDeck (app w) in
  ((length deck < cardsNeeded)%nat -> timers (handleDeal w) = timers w)
  /\ ((cardsNeeded <= length deck)%nat ->
      timers (handleDeal w)
      = timers w ++ [(clock w + 300,
                      DealCards deck (player1Score (app w)) (player2Score (app w)))]
      /\ length (Js.slice 0 3 deck) = 3%nat
      /\ length (Js.slice 3 6 deck) = 3%nat
      /\ length (Js.slice_from 6 deck) = (length deck - 6)%nat
      /\ deck = Js.slice 0 3 deck ++ Js.slice 3 6 deck ++ Js.slice_from 6 deck)
  /\ (gated w ->
      gated (handleDeal w) /\ gated (handleReshuffle w)
      /\ gated (fireNext random w)).
Proof.
  intros deck. split; [|split; [|apply handlers_keep_gate]].
  - intros Hlow. by rewrite (handleDeal_refuses w Hlow).
  - intros Hlen. rewrite (handleDeal_deals w Hlen). unfold cardsNeeded in Hlen.
    split; [reflexivity|].
    unfold Js.slice, Js.slice_from. cbn [Nat.sub drop].
    rewrite !length_take, !length_drop.
    repeat split; try lia.
    rewrite <- (take_drop 3 deck) at 1. f_equal.
    rewrite <- (take_drop 3 (drop 3 deck)) at 1. f_equal.
    by rewrite drop_drop.
Qed.

End Rounds.

(* ===================================================================== *)
(** ** Concrete runs *)
(* ===================================================================== *)

Lemma sampleRandom_range (k : nat) :
  (0 <= sampleRandom k)%Q /\ (sampleRandom k < 1)%Q.
Proof.
  unfold sampleRandom, Qle, Qlt. cbn [Qnum Qden].
  pose proof (Z.mod_pos_bound (Z.of_nat (7 * k + 3)) 10). lia.
Qed.

(** The hands and comparisons the specification lists as tests. *)
Example evaluate_three_twos :
  App.evaluateHand [Card.mk "2" "H" 2; Card.mk "2" "D" 2; Card.mk "2" "C" 2]
  = HandResult.mk "Three of a Kind" 3 (Some 2) None.
Proof. reflexivity. Qed.

Example evaluate_pair_of_kings :
  App.evaluateHand [Card.mk "K" "H" 13; Card.mk "K" "D" 13; Card.mk "5" "C" 5]
  = HandResult.mk "Pair" 2 (Some 13) (Some [Some 5]).
Proof. reflexivity. Qed.

Example evaluate_ace_high :
  App.evaluateHand [Card.mk "A" "S" 14; Card.mk "7" "D" 7; Card.mk "3" "C" 3]
  = HandResult.mk "High Card" 1 None (Some [Some 14; Some 7; Some 3]).
Proof. reflexivity. Qed.

Example compare_kings_with_queens : App.compareHands (pair 13 5) (pair 12 9) = 1.
Proof. reflexivity. Qed.

Example compare_kickers_of_kings : App.compareHands (pair 13 5) (pair 13 9) = 2.
Proof. reflexivity. Qed.

Example compare_identical_hands :
  App.compareHands (highCard [14; 7; 3]) (highCard [14; 7; 3]) = 0.
Proof. reflexivity. Qed.

(** The order of [Object.entries] shows on four cards (which the game
    never evaluates): the pair of jacks is counted first, and the key "10",
    an array index, is listed before it. *)
Example entries_list_index_keys_first :
  App.evaluateHand [Card.mk "J" "H" 11; Card.mk "J" "D" 11;
                    Card.mk "10" "C" 10; Card.mk "10" "S" 10]
  = HandResult.mk "Pair" 2 (Some 10) (Some [Some 11]).
Proof. reflexivity. Qed.

(** Eight deals from the mounted component: 4 cards are left, the modal is
    shown, and the message names the player ahead. *)
Example sampleEnd_state :
  length (App.currentDeck (App.app sampleEnd)) = 4%nat
  /\ App.modalShown sampleEnd = true
  /\ App.player1Score (App.app sampleEnd) = 6
  /\ App.player2Score (App.app sampleEnd) = 2
  /\ App.resultMessage (App.app sampleEnd)
     = "Player 1 Wins the Game! Final Score: 6 - 2".
Proof. repeat split; vm_compute; reflexivity. Qed.

Lemma sampleEnd_deals : deals sampleRandom 8 sampleStart sampleEnd.
Proof.
  unfold sampleEnd. cbn [Nat.iter nat_rect].
  repeat (unfold sampleRound at 1;
          apply deals_more; [|apply Nat.leb_le; vm_compute; reflexivity]).
  apply deals_none.
Qed.

Lemma deal_consumes_six_witness :
  App.timers sampleStart = []
  /\ length (App.currentDeck (App.app sampleStart)) = 52%nat
  /\ deals sampleRandom 8 sampleStart sampleEnd
  /\ (Z.of_nat (length (App.currentDeck (App.app sampleEnd))) = 52 - 6 * Z.of_nat 8
      /\ 0 <= 52 - 6 * Z.of_nat 8
      /\ (52 - 6 * Z.of_nat 8 < 6 -> refused sampleEnd)).
Proof.
  assert (Hq : App.timers sampleStart = []) by (vm_compute; reflexivity).
  assert (H52 : length (App.currentDeck (App.app sampleStart)) = 52%nat)
    by (vm_compute; reflexivity).
  split; [exact Hq|]. split; [exact H52|]. split; [exact sampleEnd_deals|].
  exact (proj2 (deal_consumes_six sampleRandom sampleStart Hq)
           8%nat sampleEnd H52 sampleEnd_deals).
Defined.

Lemma deck_exhaustion_raises_signal_witness :
  ((length (App.currentDeck (App.app sampleEnd)) < App.cardsNeeded)%nat
   /\ refused sampleEnd)
  /\ (App.timers sampleLastDeal = []
      /\ (App.cardsNeeded <= length (App.currentDeck (App.app sampleLastDeal)))%nat
      /\ (length (App.currentDeck (App.app sampleLastDeal)) - 6 < App.cardsNeeded)%nat
      /\ App.timers (App.settle sampleRandom (App.handleDeal sampleLastDeal)) = []).
Proof.
  assert (Hlow : (length (App.currentDeck (App.app sampleEnd)) < App.cardsNeeded)%nat)
    by (apply Nat.ltb_lt; vm_compute; reflexivity).
  assert (Hq : App.timers sampleLastDeal = []) by (vm_compute; reflexivity).
  assert (Hlen : (App.cardsNeeded <= length (App.currentDeck (App.app sampleLastDeal)))%nat)
    by (apply Nat.leb_le; vm_compute; reflexivity).
  assert (Hleft : (length (App.currentDeck (App.app sampleLastDeal)) - 6
                   < App.cardsNeeded)%nat)
    by (apply Nat.ltb_lt; vm_compute; reflexivity).
  split.
  - split; [exact Hlow|].
    exact (proj1 (proj1 (deck_exhaustion_raises_signal sampleRandom sampleEnd) Hlow)).
  - split; [exact Hq|]. split; [exact Hlen|]. split; [exact Hleft|].
    exact (proj1 (proj1 (proj2 (deck_exhaustion_raises_signal sampleRandom
                                  sampleLastDeal)) Hq Hlen Hleft)).
Defined.

Lemma reshuffle_restores_witness :
  (forall k, (0 <= sampleRandom k)%Q /\ (sampleRandom k < 1)%Q)
  /\ App.timers sampleEnd = []
  /\ App.currentDeck (App.app (App.settle sampleRandom (App.handleReshuffle sampleEnd)))
     ≡ₚ App.createDeck
  /\ App.shuffleCount (App.app (App.settle sampleRandom (App.handleReshuffle sampleEnd)))
     = App.shuffleCount (App.app sampleEnd) + 1.
Proof.
  assert (Hq : App.timers sampleEnd = []) by (vm_compute; reflexivity).
  pose proof (reshuffle_restores sampleRandom sampleEnd sampleRandom_range Hq) as H.
  split; [exact sampleRandom_range|]. split; [exact Hq|].
  split; [exact (proj1 H)|exact (proj1 (proj2 (proj2 H)))].
Defined.

Lemma deal_button_ignored_while_busy_witness :
  (App.gameState (App.app sampleBusy) = App.hands_out
   \/ App.gameState (App.app sampleBusy) = App.reshuffling)
  /\ App.clickDeal sampleBusy = sampleBusy.
Proof.
  assert (H : App.gameState (App.app sampleBusy) = App.hands_out
              \/ App.gameState (App.app sampleBusy) = App.reshuffling)
    by (left; vm_compute; reflexivity).
  split; [exact H|].
  exact (proj2 (deal_button_ignored_while_busy sampleBusy H)).
Defined.

Lemma draw_only_behind_gate_witness :
  (App.cardsNeeded <= length (App.currentDeck (App.app sampleStart)))%nat
  /\ length (Js.slice 0 3 (App.currentDeck (App.app sampleStart))) = 3%nat
  /\ length (Js.slice 3 6 (App.currentDeck (App.app sampleStart))) = 3%nat
  /\ (length (App.currentDeck (App.app sampleEnd)) < App.cardsNeeded)%nat
  /\ App.timers (App.handleDeal sampleEnd) = App.timers sampleEnd
  /\ gated sampleBusy
  /\ gated (App.handleDeal sampleBusy).
Proof.
  assert (Hlen : (App.cardsNeeded <= length (App.currentDeck (App.app sampleStart)))%nat)
    by (apply Nat.leb_le; vm_compute; reflexivity).
  assert (Hlow : (length (App.currentDeck (App.app sampleEnd)) < App.cardsNeeded)%nat)
    by (apply Nat.ltb_lt; vm_compute; reflexivity).
  assert (Hg : gated sampleBusy) by (vm_compute; repeat constructor).
  pose proof (proj1 (proj2 (draw_only_behind_gate sampleRandom sampleStart)) Hlen) as H.
  split; [exact Hlen|]. split; [exact (proj1 (proj2 H))|].
  split; [exact (proj1 (proj2 (proj2 H)))|]. split; [exact Hlow|].
  split; [exact (proj1 (draw_only_behind_gate sampleRandom sampleEnd) Hlow)|].
  split; [exact Hg|].
  exact (proj1 (proj2 (proj2 (draw_only_behind_gate sampleRandom sampleBusy)) Hg)).
Defined.

(** C6, as stated, fails. [handleDeal] has no look at the game state. In
    state hands-out, with the cards of a deal on the table, a second deal
    command clears both hands and sets a second deal going, which takes six
    more cards; in state reshuffling, with 4 cards left, a deal command
    moves the state to showdown and raises the modal flag. *)
Lemma handleDeal_while_busy_counterexample :
  (App.gameState (App.app sampleBusy) = App.hands_out
   /\ App.player1Hand (App.app (App.handleDeal sampleBusy))
      <> App.player1Hand (App.app sampleBusy)
   /\ App.timers (App.handleDeal sampleBusy) <> App.timers sampleBusy
   /\ length (App.currentDeck (App.app (App.settle sampleRandom sampleBusy))) = 46%nat
   /\ length (App.currentDeck
                (App.app (App.settle sampleRandom (App.handleDeal sampleBusy)))) = 40%nat)
  /\ (App.gameState (App.app (App.handleReshuffle sampleEnd)) = App.reshuffling
      /\ App.gameState (App.app (App.handleDeal (App.handleReshuffle sampleEnd)))
         = App.showdown
      /\ App.showReshuffleModal
           (App.app (App.handleDeal (App.handleReshuffle sampleEnd))) = true).
Proof.
  split.
  - split; [vm_compute; reflexivity|].
    split; [vm_compute; discriminate|].
    split; [vm_compute; discriminate|].
    split; vm_compute; reflexivity.
  - repeat split; vm_compute; reflexivity.
Qed.

(** C7, as stated, fails. The draw is the three [slice] calls of the deal
    callback, and [slice] never fails: run on a deck of 4 cards, fewer than
    the 6 requested, the callback hands out 3 cards and 1 card and leaves
    an empty deck. *)
Lemma draw_truncates_counterexample :
  let deck := take 4 App.createDeck in
  let w := App.runCallback sampleRandom (App.DealCards deck 0 0)
             (App.mkWorld App.initialState 0 [] 0) in
  (length deck < App.cardsNeeded)%nat
  /\ length (App.player1Hand (App.app w)) = 3%nat
  /\ length (App.player2Hand (App.app w)) = 1%nat
  /\ App.currentDeck (App.app w) = []
  /\ (length (App.player1Hand (App.app w)) + length (App.player2Hand (App.app w))
      < App.cardsNeeded)%nat.
Proof.
  cbv zeta. split; [apply Nat.ltb_lt; vm_compute; reflexivity|].
  split; [vm_compute; reflexivity|]. split; [vm_compute; reflexivity|].
  split; [vm_compute; reflexivity|]. apply Nat.ltb_lt. vm_compute. reflexivity.
Qed.

(* ===================================================================== *)
(** ** What the buttons let through *)
(* ===================================================================== *)

Section Reachability.
Variable random : nat -> Q.

Import App.

Lemma clickDeal_phase w : phase w -> phase (clickDeal w).
Proof.
  intros Hp. unfold clickDeal, dealButtonRendered, dealButtonDisabled.
  destruct Hp as [s c rc|s c rc t Hg Hf Hl|s c rc t1 t2 Hg Hf Ht|s c rc t Hg Hf
                 |s c rc t Hg Hf Hl|s c rc t Hg Hf]; cbn [app].
  all: try (rewrite Hg; cbn; rewrite ?andb_false_r; by constructor).
  - destruct (showReshuffleModal s) eqn:Hf; [constructor|].
    destruct (Nat.ltb_spec (length (currentDeck s)) cardsNeeded) as [Hl|Hl];
      [rewrite orb_true_r; constructor|].
    destruct (_ && _); [|constructor].
    rewrite handleDeal_deals by exact Hl. destruct s. cbn in Hf, Hl. subst.
    explicit.
    match goal with
    | |- phase (mkWorld ?s' _ _ _) => by apply (phase_dealing s')
    end.
  - apply Nat.ltb_lt in Hl as Hb. rewrite Hb, orb_true_r, andb_false_r.
    by constructor.
Qed.

Lemma clickReshuffle_phase w : phase w -> phase (clickReshuffle w).
Proof.
  intros Hp. unfold clickReshuffle, modalShown.
  destruct Hp as [s c rc|s c rc t Hg Hf Hl|s c rc t1 t2 Hg Hf Ht|s c rc t Hg Hf
                 |s c rc t Hg Hf Hl|s c rc t Hg Hf]; cbn [app].
  all: try (rewrite Hf; by constructor).
  destruct (_ && _); [|constructor].
  unfold handleReshuffle. explicit.
  match goal with
  | |- phase (mkWorld ?s' _ _ _) => by apply (phase_reshuffling s')
  end.
Qed.

Lemma fireNext_phase w : phase w -> phase (fireNext random w).
Proof.
  intros Hp.
  destruct Hp as [s c rc|s c rc t Hg Hf Hl|s c rc t1 t2 Hg Hf Ht|s c rc t Hg Hf
                 |s c rc t Hg Hf Hl|s c rc t Hg Hf].
  - rewrite fireNext_idle. constructor.
  - rewrite fireNext_single. destruct s. cbn in Hg, Hf, Hl. explicit.
    match goal with
    | |- phase (mkWorld ?s' _ _ _) => apply (phase_dealt s'); [done..|lia]
    end.
  - rewrite fireNext_first by exact Ht. destruct s. cbn in Hg, Hf. explicit.
    match goal with
    | |- phase (mkWorld ?s' _ _ _) => by apply (phase_flipped s')
    end.
  - rewrite fireNext_single. destruct s. cbn in Hg, Hf. subst. explicit.
    destruct (compareHands _ _ =? 1) eqn:E1;
      [|destruct (compareHands _ _ =? 2) eqn:E2];
      destruct (Nat.ltb_spec (length currentDeck0) cardsNeeded) as [Hl|Hl];
      explicit; try constructor.
    all: rewrite ?Z.add_0_r.
    all: try (apply Z.eqb_eq in E1; rewrite E1; change (1 =? 2) with false;
              cbv iota; rewrite Z.add_0_r).
    all: match goal with
         | |- phase (mkWorld ?s' _ _ _) => by apply (phase_exhausted s')
         end.
  - rewrite fireNext_single. explicit. constructor.
  - rewrite fireNext_single. explicit. constructor.
Qed.

Lemma elapse_phase d w : phase w -> phase (elapse d w).
Proof.
  intros Hp. unfold elapse. destruct (_ && _); [|exact Hp].
  destruct Hp; cbn [app clock timers randomCalls]; by constructor.
Qed.

Lemma mounted_explicit :
  mounted random
  = mkWorld
      (mkState 0 0 [] [] pre_deal ""
         ("Press " +:+ quote +:+ "DRAW NEW CARDS" +:+ quote +:+ " to start the game!")
         None (shuffle random 0 createDeck) 1 false false)
      0 [] (0 + shuffle_calls createDeck).
Proof. reflexivity. Qed.

(** Every world the buttons and the timers lead to is in one of the
    phases. *)
Lemma reachable_phase w : reachable random w -> phase w.
Proof.
  induction 1 as [|w e _ IH]; [rewrite mounted_explicit; constructor|].
  destruct e; cbn [step].
  - by apply clickDeal_phase.
  - by apply clickReshuffle_phase.
  - by apply fireNext_phase.
  - by apply elapse_phase.
Qed.

(** A handler is called only when no timer is pending: while a deal or a
    reshuffle is under way the deal button is disabled or absent and the
    modal is not shown. So every command the buttons let through arrives in
    a world with no pending timer, as the theorems on rounds assume. *)
Lemma commands_arrive_idle w :
  reachable random w ->
  dealButtonRendered w && negb (dealButtonDisabled w) = true \/ modalShown w = true ->
  timers w = [].
Proof.
  intros Hr Henabled. apply reachable_phase in Hr.
  unfold dealButtonRendered, dealButtonDisabled, modalShown in Henabled.
  destruct Hr as [s c rc|s c rc t Hg Hf Hl|s c rc t1 t2 Hg Hf Ht|s c rc t Hg Hf
                 |s c rc t Hg Hf Hl|s c rc t Hg Hf]; [reflexivity|exfalso..];
    cbn [app] in Henabled; rewrite Hf, ?Hg in Henabled; cbn in Henabled.
  all: try (destruct Henabled; discriminate).
  apply Nat.ltb_lt in Hl. unfold cardsNeeded in Hl. cbn in Hl. rewrite Hl in Henabled.
  destruct Henabled; discriminate.
Qed.

(** The effect that sets the deck up does nothing once the shuffle count
    is positive, and the count never falls back to zero. *)
Lemma initialDeckEffect_idle w :
  1 <= shuffleCount (app w) -> initialDeckEffect random w = w.
Proof.
  intros Hc. unfold initialDeckEffect.
  destruct (Z.eqb_spec (shuffleCount (app w)) 0) as [E|_]; [lia|].
  by rewrite andb_false_r.
Qed.

Lemma runCallback_shuffleCount callback w :
  1 <= shuffleCount (app w) -> 1 <= shuffleCount (app (runCallback random callback w)).
Proof.
  destruct w as [[] c ts rc]. cbn [app shuffleCount]. intros Hc.
  destruct callback; unfold runCallback; cbv zeta.
  - explicit. exact Hc.
  - explicit. exact Hc.
  - destruct (compareHands _ _ =? 1); [|destruct (compareHands _ _ =? 2)];
      destruct (_ <? _)%nat; explicit; exact Hc.
  - explicit. exact Hc.
  - explicit. lia.
Qed.

Lemma shuffleCount_positive w : reachable random w -> 1 <= shuffleCount (app w).
Proof.
  induction 1 as [|w e _ IH]; [rewrite mounted_explicit; cbn; lia|].
  destruct e as [| | |d]; cbn [step].
  - unfold clickDeal. destruct (_ && _); [|exact IH]. unfold handleDeal.
    by destruct (_ <? _)%nat.
  - unfold clickReshuffle. by destruct (modalShown w).
  - unfold fireNext. destruct (popEarliest (timers w)) as [[[due callback] rest]|];
      [|exact IH].
    by apply runCallback_shuffleCount.
  - unfold elapse. by destruct (_ && _).
Qed.

(** Every draw of the mounted component is over six cards at least. *)
Lemma reachable_gated w : reachable random w -> gated w.
Proof.
  induction 1 as [|w e _ IH]; [rewrite mounted_explicit; constructor|].
  destruct (handlers_keep_gate random w IH) as (Hd & Hr & Hf).
  destruct e as [| | |d]; cbn [step].
  - unfold clickDeal. by destruct (_ && _).
  - unfold clickReshuffle. by destruct (modalShown w).
  - exact Hf.
  - unfold elapse. by destruct (_ && _).
Qed.

Lemma run_reachable es w : reachable random w -> reachable random (run random es w).
Proof.
  revert w. induction es as [|e es IH]; intros w Hr; [exact Hr|].
  apply IH. by constructor.
Qed.

End Reachability.

(** The sample run is one of the component: the clicks and timers of
    [sampleScript] lead from the mounted component to [sampleEnd]. *)
Lemma sampleEnd_reachable : App.reachable sampleRandom sampleEnd.
Proof.
  assert (E : sampleEnd = App.run sampleRandom sampleScript sampleStart)
    by (vm_compute; reflexivity).
  rewrite E. apply run_reachable. constructor.
Qed.

(* ===================================================================== *)
(** ** The hands the component evaluates *)
(* ===================================================================== *)

Section Cards.
Variable random : nat -> Q.
Hypothesis random_range : forall k, (0 <= random k)%Q /\ (random k < 1)%Q.

Import App.

Lemma createDeck_valid : Forall valid_card createDeck.
Proof.
  assert (Hall : forallb (fun c => existsb (String.eqb (Card.rank c)) RANKS)
                   createDeck = true) by (vm_compute; reflexivity).
  rewrite forallb_forall in Hall. apply Forall_forall. intros c Hc.
  apply list_elem_of_In, Hall, existsb_exists in Hc as (r & Hr & E).
  apply String.eqb_eq in E. unfold valid_card. by rewrite E.
Qed.

Lemma handleDeal_sound w : cards_sound w -> cards_sound (handleDeal w).
Proof.
  intros [Hdeck Htimers]. unfold cards_sound, handleDeal.
  destruct (Nat.ltb_spec (length (currentDeck (app w))) cardsNeeded) as [Hl|Hl];
    cbn; [done|].
  split; [done|]. apply Forall_app. split; [done|].
  by repeat constructor.
Qed.

Lemma runCallback_sound callback w :
  callback_sound callback -> cards_sound w ->
  cards_sound (runCallback random callback w).
Proof.
  intros Hc [Hdeck Htimers]. unfold cards_sound.
  destruct callback as [d p1 p2| |h1 h2 r p1 p2|msg|]; unfold runCallback; cbv zeta.
  - destruct Hc as [Hd Hl]. unfold cardsNeeded in Hl. cbn. split.
    + by apply Forall_drop.
    + rewrite <- !app_assoc. apply Forall_app. split; [done|].
      constructor; [done|]. constructor; [|done]. cbn.
      unfold Js.slice. cbn [Nat.sub drop].
      rewrite !length_take, !length_drop.
      repeat split; try lia; auto using Forall_take, Forall_drop.
  - done.
  - destruct (compareHands _ _ =? 1); [|destruct (compareHands _ _ =? 2)];
      destruct (_ <? _)%nat; cbn; (split; [done|]);
      try done; apply Forall_app; by repeat constructor.
  - done.
  - cbn. split; [|done].
    rewrite (shuffle_reorders _ random _ createDeck random_range).
    apply createDeck_valid.
Qed.

Lemma step_sound w e : cards_sound w -> cards_sound (step random w e).
Proof.
  intros Hs. destruct e as [| | |d]; cbn [step].
  - unfold clickDeal. destruct (_ && _); [by apply handleDeal_sound|done].
  - unfold clickReshuffle. destruct (modalShown w); [|done].
    destruct Hs as [Hdeck Htimers]. unfold cards_sound. cbn. split; [done|].
    apply Forall_app. by repeat constructor.
  - unfold fireNext.
    destruct (popEarliest (timers w)) as [[[due callback] rest]|] eqn:Hpop; [|done].
    destruct Hs as [Hdeck Htimers].
    destruct (popEarliest_Forall _ _ _ _ Hpop Htimers) as [Hc Hrest].
    by apply runCallback_sound.
  - unfold elapse. by destruct (_ && _).
Qed.

Lemma reachable_sound w : reachable random w -> cards_sound w.
Proof.
  induction 1 as [|w e _ IH]; [|by apply step_sound].
  rewrite mounted_explicit. unfold cards_sound. cbn. split; [|done].
  rewrite (shuffle_reorders _ random _ createDeck random_range).
  apply createDeck_valid.
Qed.

(** Every pair of hands the component evaluates and compares is a pair
    of hands of three game cards, as the theorems on [evaluateHand] and
    [compareHands] assume. *)
Lemma evaluated_hands_sound w t p1Hand p2Hand remainingDeck p1 p2 :
  reachable random w ->
  In (t, RevealWinner p1Hand p2Hand remainingDeck p1 p2) (timers w) ->
  (length p1Hand = 3%nat /\ Forall valid_card p1Hand)
  /\ (length p2Hand = 3%nat /\ Forall valid_card p2Hand).
Proof.
  intros Hr Hin. destruct (reachable_sound w Hr) as [_ Htimers].
  rewrite Forall_forall in Htimers.
  apply list_elem_of_In in Hin. exact (Htimers _ Hin).
Qed.

End Cards.

(* ===================================================================== *)
(** ** The modal, the stages of the component and what they keep *)
(* ===================================================================== *)

(** *** The message of the modal and its title *)

Lemma occurs_append (c : ascii) (s1 s2 : string) :
  occurs c (s1 +:+ s2) = occurs c s1 || occurs c s2.
Proof.
  induction s1 as [|c' s1 IH]; [reflexivity|].
  change (String c' s1 +:+ s2) with (String c' (s1 +:+ s2)).
  cbn [occurs]. by rewrite IH, orb_assoc.
Qed.

(** A string without the first character of [sub] does not include
    [sub]. *)
Lemma includes_needs_first (c : ascii) (sub s : string) :
  occurs c s = false -> Js.includes s (String c sub) = false.
Proof.
  induction s as [|c' s IH]; [reflexivity|].
  cbn [occurs Js.includes String.prefix]. intros H.
  apply orb_false_elim in H as [Hc Hs]. rewrite (IH Hs), orb_false_r.
  destruct (ascii_dec c c') as [->|_]; [|reflexivity].
  by rewrite Ascii.eqb_refl in Hc.
Qed.

Lemma prefix_append (sub s1 s2 : string) :
  String.prefix sub s1 = true -> String.prefix sub (s1 +:+ s2) = true.
Proof.
  revert s1. induction sub as [|c sub IH]; intros s1; [by destruct (s1 +:+ s2)|].
  destruct s1 as [|c' s1]; [done|].
  change (String c' s1 +:+ s2) with (String c' (s1 +:+ s2)).
  cbn [String.prefix]. destruct (ascii_dec c c'); [apply IH|done].
Qed.

Lemma includes_append (sub s1 s2 : string) :
  Js.includes s1 sub = true -> Js.includes (s1 +:+ s2) sub = true.
Proof.
  induction s1 as [|c s1 IH].
  - cbn. rewrite orb_false_r. intros H. destruct sub; [|done].
    destruct s2; reflexivity.
  - change (String c s1 +:+ s2) with (String c (s1 +:+ s2)).
    cbn [Js.includes]. intros H.
    apply orb_true_iff in H as [H|H]; apply orb_true_iff.
    + left. by apply (prefix_append sub (String c s1) s2).
    + right. by apply IH.
Qed.

Lemma occurs_digits (c : ascii) (d : Decimal.uint) :
  (N_of_ascii c <? 48)%N || (57 <? N_of_ascii c)%N = true ->
  occurs c (NilEmpty.string_of_uint d) = false.
Proof.
  intros Hc. induction d; cbn [NilEmpty.string_of_uint occurs]; rewrite ?IHd;
    try reflexivity; rewrite orb_false_r.
  all: match goal with
       | |- Ascii.eqb ?x ?a = false =>
           destruct (Ascii.eqb_spec x a) as [->|]; [discriminate Hc|reflexivity]
       end.
Qed.

(** No letter occurs in the decimal form of an integer. *)
Lemma occurs_toString (n : Z) : occurs "T" (Js.toString n) = false.
Proof.
  unfold Js.toString, NilZero.string_of_int, NilZero.string_of_uint.
  destruct (Z.to_int n) as [d|d]; cbn [occurs]; destruct d; try reflexivity;
    by apply occurs_digits.
Qed.

(** The final message includes the word Tie exactly when the scores it
    reports are equal. *)
Lemma finalResultMessage_includes_Tie (p1 p2 : Z) :
  Js.includes (App.finalResultMessage p1 p2) "Tie" = (p1 =? p2).
Proof.
  unfold App.finalResultMessage.
  destruct (Z.ltb_spec p2 p1); [|destruct (Z.ltb_spec p1 p2)].
  - destruct (Z.eqb_spec p1 p2); [lia|]. apply includes_needs_first.
    by rewrite !occurs_append, !occurs_toString.
  - destruct (Z.eqb_spec p1 p2); [lia|]. apply includes_needs_first.
    by rewrite !occurs_append, !occurs_toString.
  - destruct (Z.eqb_spec p1 p2); [|lia]. by apply includes_append.
Qed.

(** *** The stages *)

Section Stages.
Variable random : nat -> Q.
Hypothesis random_range : forall k, (0 <= random k)%Q /\ (random k < 1)%Q.

Import App.

(** The three slices of a deal cut the deck in three. *)
Lemma deal_partition (deck : list Card.t) :
  Js.slice 0 3 deck ++ Js.slice 3 6 deck ++ Js.slice_from 6 deck = deck.
Proof.
  unfold Js.slice, Js.slice_from. cbn [Nat.sub drop].
  rewrite <- (take_drop 3 deck) at 4. f_equal.
  rewrite <- (take_drop 3 (drop 3 deck)) at 2. f_equal.
  by rewrite drop_drop.
Qed.

Lemma deal_sizes (deck : list Card.t) :
  (cardsNeeded <= length deck)%nat ->
  length (Js.slice 0 3 deck) = 3%nat /\ length (Js.slice 3 6 deck) = 3%nat
  /\ (length (Js.slice_from 6 deck) + 6 = length deck)%nat.
Proof.
  unfold cardsNeeded, Js.slice, Js.slice_from. cbn [Nat.sub drop]. intros Hl.
  rewrite !length_take, !length_drop. lia.
Qed.

Lemma freshDeck_accounts :
  forall rc, shuffle random rc createDeck ⊆+ createDeck
             /\ length (shuffle random rc createDeck) = 52%nat.
Proof.
  intros rc.
  pose proof (shuffle_reorders Card.t random rc createDeck random_range) as Hp.
  split; [by apply Permutation_submseteq|].
  by rewrite (Permutation_length Hp).
Qed.

Lemma mounted_stage : stage (mounted random).
Proof.
  rewrite mounted_explicit. destruct (freshDeck_accounts 0) as [Hs Hl].
  apply stage_fresh; books; try done.
  repeat split; try done. cbn [Datatypes.app]. lia.
Qed.

Lemma clickDeal_stage w : stage w -> stage (clickDeal w).
Proof.
  intros Hs. unfold clickDeal, dealButtonRendered, dealButtonDisabled.
  destruct Hs as [s c rc Hg Hf Ha Hh Hw Hr
                 |s c rc k Hg Hf Ha Hh Hw Hr Hl
                 |s c rc k Hg Hf Ha Hh Hw Hr Hl Hm
                 |s c rc k t Hg Hf Ha Hh Hw Hr Hl
                 |s c rc k t1 t2 Hg Hf Ha Hh Hw Hr Ht
                 |s c rc k t Hg Hf Ha Hh Hw Hr
                 |s c rc k t Hg Hf Ha Hh Hw Hr Hl
                 |s c rc k t Hg Hf Ha Hh Hw Hr]; cbn [app].
  - destruct (_ && _); [|by apply stage_fresh].
    assert (Hl : (cardsNeeded <= length (currentDeck s))%nat)
      by (unfold cardsNeeded; destruct Ha as (_ & Hl & _); lia).
    rewrite handleDeal_deals by exact Hl. destruct s. books. explicit.
    match goal with
    | |- stage (mkWorld ?s' _ _ _) => apply (stage_dealing s' _ _ 0%nat); books; try done
    end.
    destruct Hh as [-> ->]. exact Ha.
  - destruct (_ && _); [|by eapply stage_showdown].
    rewrite handleDeal_deals by exact Hl. destruct s. books. explicit.
    match goal with
    | |- stage (mkWorld ?s' _ _ _) => apply (stage_dealing s' _ _ k); books; try done
    end.
    destruct Ha as (Hsub & Ha). split; [|exact Ha].
    etrans; [|exact Hsub]. cbn [Datatypes.app]. by do 2 apply submseteq_inserts_l.
  - rewrite Hf. cbn. by eapply stage_over.
  - rewrite Hg. cbn. rewrite andb_false_r. by eapply stage_dealing.
  - rewrite Hg. cbn. rewrite andb_false_r. by eapply stage_dealt.
  - rewrite Hg. cbn. rewrite andb_false_r. by eapply stage_flipped.
  - apply Nat.ltb_lt in Hl as Hb. rewrite Hb, orb_true_r, andb_false_r.
    by eapply stage_exhausted.
  - rewrite Hg. cbn. rewrite andb_false_r. by eapply stage_reshuffling.
Qed.

Lemma clickReshuffle_stage w : stage w -> stage (clickReshuffle w).
Proof.
  intros Hs. unfold clickReshuffle, modalShown.
  destruct Hs as [s c rc Hg Hf Ha Hh Hw Hr
                 |s c rc k Hg Hf Ha Hh Hw Hr Hl
                 |s c rc k Hg Hf Ha Hh Hw Hr Hl Hm
                 |s c rc k t Hg Hf Ha Hh Hw Hr Hl
                 |s c rc k t1 t2 Hg Hf Ha Hh Hw Hr Ht
                 |s c rc k t Hg Hf Ha Hh Hw Hr
                 |s c rc k t Hg Hf Ha Hh Hw Hr Hl
                 |s c rc k t Hg Hf Ha Hh Hw Hr]; cbn [app].
  all: try (rewrite Hf; cbn [andb]; by econstructor).
  destruct (_ && _); [|by eapply stage_over].
  unfold handleReshuffle. destruct s. books. explicit.
  match goal with
  | |- stage (mkWorld ?s' _ _ _) => apply (stage_reshuffling s' _ _ k); books; try done
  end.
  destruct Ha as (Hsub & Hd & _). split; [|split; [exact Hd|lia]].
  etrans; [|exact Hsub]. cbn [Datatypes.app]. by do 2 apply submseteq_inserts_l.
Qed.

Lemma elapse_stage d w : stage w -> stage (elapse d w).
Proof.
  intros Hs. unfold elapse. destruct (_ && _); [|exact Hs].
  destruct Hs; cbn [app clock timers randomCalls]; by econstructor.
Qed.

Lemma fireNext_stage w : stage w -> stage (fireNext random w).
Proof.
  intros Hs.
  destruct Hs as [s c rc Hg Hf Ha Hh Hw Hr
                 |s c rc k Hg Hf Ha Hh Hw Hr Hl
                 |s c rc k Hg Hf Ha Hh Hw Hr Hl Hm
                 |s c rc k t Hg Hf Ha Hh Hw Hr Hl
                 |s c rc k t1 t2 Hg Hf Ha Hh Hw Hr Ht
                 |s c rc k t Hg Hf Ha Hh Hw Hr
                 |s c rc k t Hg Hf Ha Hh Hw Hr Hl
                 |s c rc k t Hg Hf Ha Hh Hw Hr].
  - rewrite fireNext_idle. by apply stage_fresh.
  - rewrite fireNext_idle. by eapply stage_showdown.
  - rewrite fireNext_idle. by eapply stage_over.
  - (* the cards are dealt *)
    rewrite fireNext_single. destruct s. books. explicit.
    destruct (deal_sizes currentDeck0 Hl) as (L1 & L2 & L3).
    match goal with
    | |- stage (mkWorld ?s' _ _ _) =>
        apply (stage_dealt s' _ _ k); books; try done; [|lia]
    end.
    destruct Hh as [-> ->]. destruct Ha as (Hsub & Hd & Hsc).
    rewrite deal_partition. repeat split; try tauto. lia.
  - (* the cards are flipped *)
    rewrite fireNext_first by exact Ht. destruct s. books. explicit.
    match goal with
    | |- stage (mkWorld ?s' _ _ _) => by apply (stage_flipped s' _ _ k)
    end.
  - (* the winner is revealed *)
    rewrite fireNext_single. destruct s. books. subst. explicit.
    destruct Ha as (Hsub & Hd & Hsc).
    destruct (compareHands _ _ =? 1) eqn:E1;
      [|destruct (compareHands _ _ =? 2) eqn:E2];
      destruct (Nat.ltb_spec (length currentDeck0) cardsNeeded) as [Hl|Hl];
      explicit.
    all: rewrite ?Z.add_0_r.
    all: try (apply Z.eqb_eq in E1 as E1'; rewrite E1'; change (1 =? 2) with false;
              cbv iota; rewrite Z.add_0_r).
    all: match goal with
         | |- stage (mkWorld ?s' _ [] _) =>
             apply (stage_showdown s' _ _ (S k)); books; try done
         | |- stage (mkWorld ?s' _ _ _) =>
             apply (stage_exhausted s' _ _ (S k)); books; try done
         end.
    all: repeat split; try tauto; try lia.
    all: by rewrite E1'.
  - (* the modal is raised *)
    rewrite fireNext_single. destruct s. books. explicit.
    match goal with
    | |- stage (mkWorld ?s' _ _ _) => by apply (stage_over s' _ _ k)
    end.
  - (* the fresh deck is in *)
    rewrite fireNext_single. destruct s. books. explicit.
    destruct (freshDeck_accounts rc) as [Hsub Hlen].
    match goal with
    | |- stage (mkWorld ?s' _ _ _) => apply (stage_fresh s'); books; try done
    end.
    destruct Hh as [-> ->]. cbn [Datatypes.app].
    repeat split; try done; lia.
Qed.

(** Every world the buttons and the timers lead to is in one of the
    stages. *)
Lemma reachable_stage w : reachable random w -> stage w.
Proof.
  induction 1 as [|w e _ IH]; [apply mounted_stage|].
  destruct e; cbn [step].
  - by apply clickDeal_stage.
  - by apply clickReshuffle_stage.
  - by apply fireNext_stage.
  - by apply elapse_stage.
Qed.

Lemma stage_accounts w :
  stage w -> exists dealt scored : nat,
    accounts (app w) dealt scored /\ (scored <= dealt)%nat.
Proof.
  intros Hs.
  destruct Hs as [s c rc Hg Hf Ha Hh Hw Hr
                 |s c rc k Hg Hf Ha Hh Hw Hr Hl
                 |s c rc k Hg Hf Ha Hh Hw Hr Hl Hm
                 |s c rc k t Hg Hf Ha Hh Hw Hr Hl
                 |s c rc k t1 t2 Hg Hf Ha Hh Hw Hr Ht
                 |s c rc k t Hg Hf Ha Hh Hw Hr
                 |s c rc k t Hg Hf Ha Hh Hw Hr Hl
                 |s c rc k t Hg Hf Ha Hh Hw Hr]; cbn [app];
    eexists _, _; (split; [exact Ha|lia]).
Qed.

Lemma createDeck_distinct : NoDup (map face createDeck).
Proof.
  assert (H : bool_decide (NoDup (map face createDeck)) = true)
    by (vm_compute; reflexivity).
  by apply bool_decide_eq_true in H.
Qed.

Lemma createDeck_values :
  Forall (fun c => valid_card c /\ Card.value c = getRankValue (Card.rank c))
         createDeck.
Proof.
  assert (Hall : forallb (fun c => existsb (String.eqb (Card.rank c)) RANKS
                                   && (Card.value c =? getRankValue (Card.rank c)))
                   createDeck = true) by (vm_compute; reflexivity).
  rewrite forallb_forall in Hall. apply Forall_forall. intros c Hc.
  apply list_elem_of_In, Hall, andb_prop in Hc as [Hr Hv].
  apply existsb_exists in Hr as (r & Hr & E). apply String.eqb_eq in E.
  apply Z.eqb_eq in Hv. unfold valid_card. split; [by rewrite E|exact Hv].
Qed.

Lemma submseteq_distinct {A : Type} (l k : list A) : l ⊆+ k -> NoDup k -> NoDup l.
Proof.
  intros Hsub Hk. apply submseteq_Permutation in Hsub as [k' Hp].
  rewrite Hp in Hk. apply NoDup_app in Hk as [Hl _]. exact Hl.
Qed.

(** X6. No card is ever in two places. In every state the buttons and
    the timers lead to, the two hands and the deck together hold cards of
    the 52-card deck, each at most once: no two of them share rank and
    suit, and each carries one of the thirteen rank symbols and, as
    [value], the value [getRankValue] gives its rank. *)
Theorem cards_in_play_distinct w :
  reachable random w ->
  inPlay (app w) ⊆+ createDeck
  /\ NoDup (map face (inPlay (app w)))
  /\ Forall (fun c => valid_card c /\ Card.value c = getRankValue (Card.rank c))
            (inPlay (app w)).
Proof.
  intros Hr. apply reachable_stage, stage_accounts in Hr as (dealt & scored & Ha & _).
  destruct Ha as (Hsub & _). split; [exact Hsub|]. split.
  - apply (submseteq_distinct _ (map face createDeck)); [|apply createDeck_distinct].
    by apply fmap_submseteq.
  - apply Forall_forall. intros c Hc.
    pose proof createDeck_values as Hall. rewrite Forall_forall in Hall.
    apply Hall. by apply (elem_of_submseteq _ _ _ Hc).
Qed.


(** X8. The scores count rounds won. In every reachable state both scores
    are non-negative and their sum is at most the number of rounds dealt
    since the last shuffle, hence at most 8. *)
Theorem scores_within_rounds w :
  reachable random w ->
  0 <= player1Score (app w) /\ 0 <= player2Score (app w)
  /\ (exists k : nat,
        (length (currentDeck (app w)) + 6 * k = 52)%nat
        /\ player1Score (app w) + player2Score (app w) <= Z.of_nat k)
  /\ player1Score (app w) + player2Score (app w) <= 8.
Proof.
  intros Hr. apply reachable_stage, stage_accounts in Hr as (dealt & scored & Ha & Hle).
  destruct Ha as (_ & Hd & H1 & H2 & Hsum).
  split; [exact H1|]. split; [exact H2|]. split; [|lia].
  exists dealt. split; [exact Hd|lia].
Qed.

(** X9. A hand is empty or complete, and both hands go together. In
    every reachable state either both hands are empty, both memoised
    results are [null] and the state is not showdown; or both hands hold
    exactly 3 cards, both results are those of [evaluateHand], and the
    state is hands-out or showdown. *)
Theorem hands_empty_or_complete w :
  reachable random w ->
  (player1Hand (app w) = [] /\ player2Hand (app w) = []
   /\ player1Result w = None /\ player2Result w = None
   /\ gameState (app w) <> showdown)
  \/ (length (player1Hand (app w)) = 3%nat /\ length (player2Hand (app w)) = 3%nat
      /\ player1Result w = Some (evaluateHand (player1Hand (app w)))
      /\ player2Result w = Some (evaluateHand (player2Hand (app w)))
      /\ (gameState (app w) = hands_out \/ gameState (app w) = showdown)).
Proof.
  intros Hr. apply reachable_stage in Hr.
  unfold player1Result, player2Result, handResult.
  destruct Hr as [s c rc Hg Hf Ha Hh Hw Hr
                 |s c rc k Hg Hf Ha Hh Hw Hr Hl
                 |s c rc k Hg Hf Ha Hh Hw Hr Hl Hm
                 |s c rc k t Hg Hf Ha Hh Hw Hr Hl
                 |s c rc k t1 t2 Hg Hf Ha Hh Hw Hr Ht
                 |s c rc k t Hg Hf Ha Hh Hw Hr
                 |s c rc k t Hg Hf Ha Hh Hw Hr Hl
                 |s c rc k t Hg Hf Ha Hh Hw Hr]; cbn [app];
    destruct Hh as [H1 H2]; rewrite H1, H2, Hg; [left|right|right|left|right|right|right|left];
    repeat split; auto; discriminate.
Qed.


(** X11. The winner shown is the winner of the hands shown. In every
    reachable state in showdown the cards are face up, both memoised
    results are present, and [winningPlayer] is what [compareHands]
    answers on them, so the player area marked as winner is the one whose
    hand wins and none is marked on a tie; outside showdown
    [winningPlayer] is [null] and no player area is marked. *)
Theorem winner_shown_is_winner w :
  reachable random w ->
  (gameState (app w) = showdown ->
   isHandsRevealed (app w) = true
   /\ exists result1 result2,
        player1Result w = Some result1 /\ player2Result w = Some result2
        /\ winningPlayer (app w) = Some (compareHands result1 result2)
        /\ (isWinner 1 w = true <-> compareHands result1 result2 = 1)
        /\ (isWinner 2 w = true <-> compareHands result1 result2 = 2))
  /\ (gameState (app w) <> showdown ->
      winningPlayer (app w) = None /\ isWinner 1 w = false /\ isWinner 2 w = false).
Proof.
  intros Hr. apply reachable_stage in Hr.
  unfold player1Result, player2Result, handResult, isWinner.
  destruct Hr as [s c rc Hg Hf Ha Hh Hw Hr
                 |s c rc k Hg Hf Ha Hh Hw Hr Hl
                 |s c rc k Hg Hf Ha Hh Hw Hr Hl Hm
                 |s c rc k t Hg Hf Ha Hh Hw Hr Hl
                 |s c rc k t1 t2 Hg Hf Ha Hh Hw Hr Ht
                 |s c rc k t Hg Hf Ha Hh Hw Hr
                 |s c rc k t Hg Hf Ha Hh Hw Hr Hl
                 |s c rc k t Hg Hf Ha Hh Hw Hr]; cbn [app]; rewrite Hg.
  all: split; [intros Hsd; try discriminate Hsd|intros Hsd; try done].
  all: try (rewrite Hw; by repeat split).
  all: destruct Hh as [H1 H2]; rewrite H1, H2.
  all: split; [exact Hr|]; eexists _, _; split; [reflexivity|]; split; [reflexivity|].
  all: rewrite Hw; split; [reflexivity|].
  all: rewrite !bool_decide_eq_true; split; split; congruence.
Qed.


(** X13. The modal tells the truth. In every reachable state in which
    the modal is shown, fewer than 6 cards are left, the message is the
    final message for the very scores shown beside it, and the modal takes
    its tie title and tie styling exactly when these scores are equal. *)
Theorem modal_agrees_with_scores w :
  reachable random w -> modalShown w = true ->
  (length (currentDeck (app w)) < cardsNeeded)%nat
  /\ exists view,
       resultModal w = Some view
       /\ modalMessage view
          = finalResultMessage (player1Score (app w)) (player2Score (app w))
       /\ modalScores view = (player1Score (app w), player2Score (app w))
       /\ (isTie view = true <-> player1Score (app w) = player2Score (app w))
       /\ (modalTitle view = "DECK EMPTY - TIE GAME"
           <-> player1Score (app w) = player2Score (app w))
       /\ (modalTitle view = "DECK EMPTY - ROUND OVER"
           <-> player1Score (app w) <> player2Score (app w)).
Proof.
  intros Hr Hshown. apply reachable_stage in Hr.
  unfold resultModal, ResultModal. rewrite Hshown. cbn [negb].
  unfold modalShown in Hshown. apply andb_prop in Hshown as [Hflag _].
  destruct Hr as [s c rc Hg Hf Ha Hh Hw Hr
                 |s c rc k Hg Hf Ha Hh Hw Hr Hl
                 |s c rc k Hg Hf Ha Hh Hw Hr Hl Hm
                 |s c rc k t Hg Hf Ha Hh Hw Hr Hl
                 |s c rc k t1 t2 Hg Hf Ha Hh Hw Hr Ht
                 |s c rc k t Hg Hf Ha Hh Hw Hr
                 |s c rc k t Hg Hf Ha Hh Hw Hr Hl
                 |s c rc k t Hg Hf Ha Hh Hw Hr]; cbn [app] in Hflag |- *;
    try congruence.
  split; [exact Hl|]. eexists. split; [reflexivity|].
  cbn [modalMessage modalScores isTie modalTitle].
  rewrite Hm, finalResultMessage_includes_Tie.
  split; [reflexivity|]. split; [reflexivity|].
  destruct (Z.eqb_spec (player1Score s) (player2Score s)); repeat split; try done.
Qed.

(** X14. The hands a round compares. In every reachable state, a pending
    reveal of the winner is over two hands of exactly 3 cards, six
    different cards of the deck, all with a rank symbol of the game; and
    what its closure captured (hands, remaining deck, scores) is what the
    state holds, so the scores it reports are not stale. *)
Theorem hands_compared_are_six_cards w t p1Hand p2Hand remainingDeck p1 p2 :
  reachable random w ->
  In (t, RevealWinner p1Hand p2Hand remainingDeck p1 p2) (timers w) ->
  (length p1Hand = 3%nat /\ length p2Hand = 3%nat)
  /\ NoDup (map face (p1Hand ++ p2Hand))
  /\ Forall valid_card (p1Hand ++ p2Hand)
  /\ (p1Hand = player1Hand (app w) /\ p2Hand = player2Hand (app w)
      /\ remainingDeck = currentDeck (app w)
      /\ p1 = player1Score (app w) /\ p2 = player2Score (app w)).
Proof.
  intros Hr Hin. apply reachable_stage in Hr.
  assert (Hsix : forall s dealt scored,
            accounts s dealt scored ->
            NoDup (map face (player1Hand s ++ player2Hand s))
            /\ Forall valid_card (player1Hand s ++ player2Hand s)).
  { intros s dealt scored (Hsub & _). unfold inPlay in Hsub.
    rewrite app_assoc in Hsub.
    assert (Hsub' : player1Hand s ++ player2Hand s ⊆+ createDeck).
    { etrans; [|exact Hsub]. by apply submseteq_inserts_r. }
    split.
    - apply (submseteq_distinct _ (map face createDeck)); [|apply createDeck_distinct].
      by apply fmap_submseteq.
    - apply Forall_forall. intros c Hc.
      pose proof createDeck_values as Hall. rewrite Forall_forall in Hall.
      by apply (Hall c), (elem_of_submseteq _ _ _ Hc). }
  destruct Hr as [s c rc Hg Hf Ha Hh Hw Hr
                 |s c rc k Hg Hf Ha Hh Hw Hr Hl
                 |s c rc k Hg Hf Ha Hh Hw Hr Hl Hm
                 |s c rc k t0 Hg Hf Ha Hh Hw Hr Hl
                 |s c rc k t1 t2 Hg Hf Ha Hh Hw Hr Ht
                 |s c rc k t0 Hg Hf Ha Hh Hw Hr
                 |s c rc k t0 Hg Hf Ha Hh Hw Hr Hl
                 |s c rc k t0 Hg Hf Ha Hh Hw Hr]; cbn [app timers In] in Hin |- *;
    repeat (destruct Hin as [Hin|Hin]; try discriminate Hin); try done.
  all: injection Hin as <- <- <- <- <- <-.
  all: destruct (Hsix s _ _ Ha) as [Hn Hv]; destruct Hh; by repeat split.
Qed.

End Stages.

(** X15. The deck is set up once. In every reachable state the guard of
    the effect that sets the deck up on mount is false, so the effect,
    whenever React runs it again, changes nothing: the deck in play is
    never replaced and the shuffle count never reset by it. *)
Theorem deck_set_up_once (random : nat -> Q) (w : App.World) :
  App.reachable random w ->
  (length (App.currentDeck (App.app w)) =? 0)%nat
    && (App.shuffleCount (App.app w) =? 0) = false
  /\ App.initialDeckEffect random w = w.
Proof.
  intros Hr. pose proof (shuffleCount_positive random w Hr) as Hc.
  split; [|by apply initialDeckEffect_idle].
  destruct (Z.eqb_spec (App.shuffleCount (App.app w)) 0) as [E|_]; [lia|].
  apply andb_false_r.
Qed.

(** *** The invariants on the sample run *)

Lemma sampleBusy_reachable : App.reachable sampleRandom sampleBusy.
Proof.
  assert (E : sampleBusy
              = App.run sampleRandom [App.UserDeal; App.TimerDue] sampleStart)
    by (vm_compute; reflexivity).
  rewrite E. apply run_reachable. constructor.
Qed.

Lemma cards_in_play_distinct_witness :
  (forall k, (0 <= sampleRandom k)%Q /\ (sampleRandom k < 1)%Q)
  /\ App.reachable sampleRandom sampleBusy
  /\ NoDup (map face (inPlay (App.app sampleBusy))).
Proof.
  split; [exact sampleRandom_range|]. split; [exact sampleBusy_reachable|].
  exact (proj1 (proj2 (cards_in_play_distinct sampleRandom sampleRandom_range
                         sampleBusy sampleBusy_reachable))).
Defined.


Lemma scores_within_rounds_witness :
  (forall k, (0 <= sampleRandom k)%Q /\ (sampleRandom k < 1)%Q)
  /\ App.reachable sampleRandom sampleEnd
  /\ App.player1Score (App.app sampleEnd) + App.player2Score (App.app sampleEnd) <= 8.
Proof.
  split; [exact sampleRandom_range|]. split; [exact sampleEnd_reachable|].
  exact (proj2 (proj2 (proj2 (scores_within_rounds sampleRandom sampleRandom_range
                                sampleEnd sampleEnd_reachable)))).
Defined.

Lemma hands_empty_or_complete_witness :
  (forall k, (0 <= sampleRandom k)%Q /\ (sampleRandom k < 1)%Q)
  /\ App.reachable sampleRandom sampleBusy
  /\ ((App.player1Hand (App.app sampleBusy) = []
       /\ App.player2Hand (App.app sampleBusy) = []
       /\ App.player1Result sampleBusy = None /\ App.player2Result sampleBusy = None
       /\ App.gameState (App.app sampleBusy) <> App.showdown)
      \/ (length (App.player1Hand (App.app sampleBusy)) = 3%nat
          /\ length (App.player2Hand (App.app sampleBusy)) = 3%nat
          /\ App.player1Result sampleBusy
             = Some (App.evaluateHand (App.player1Hand (App.app sampleBusy)))
          /\ App.player2Result sampleBusy
             = Some (App.evaluateHand (App.player2Hand (App.app sampleBusy)))
          /\ (App.gameState (App.app sampleBusy) = App.hands_out
              \/ App.gameState (App.app sampleBusy) = App.showdown))).
Proof.
  split; [exact sampleRandom_range|]. split; [exact sampleBusy_reachable|].
  exact (hands_empty_or_complete sampleRandom sampleRandom_range sampleBusy
           sampleBusy_reachable).
Defined.


Lemma winner_shown_is_winner_witness :
  (forall k, (0 <= sampleRandom k)%Q /\ (sampleRandom k < 1)%Q)
  /\ App.reachable sampleRandom sampleEnd
  /\ App.gameState (App.app sampleEnd) = App.showdown
  /\ App.isHandsRevealed (App.app sampleEnd) = true.
Proof.
  assert (Hg : App.gameState (App.app sampleEnd) = App.showdown)
    by (vm_compute; reflexivity).
  split; [exact sampleRandom_range|]. split; [exact sampleEnd_reachable|].
  split; [exact Hg|].
  exact (proj1 (proj1 (winner_shown_is_winner sampleRandom sampleRandom_range
                         sampleEnd sampleEnd_reachable) Hg)).
Defined.


Lemma modal_agrees_with_scores_witness :
  (forall k, (0 <= sampleRandom k)%Q /\ (sampleRandom k < 1)%Q)
  /\ App.reachable sampleRandom sampleEnd
  /\ App.modalShown sampleEnd = true
  /\ (length (App.currentDeck (App.app sampleEnd)) < App.cardsNeeded)%nat.
Proof.
  assert (Hm : App.modalShown sampleEnd = true) by (vm_compute; reflexivity).
  split; [exact sampleRandom_range|]. split; [exact sampleEnd_reachable|].
  split; [exact Hm|].
  exact (proj1 (modal_agrees_with_scores sampleRandom sampleRandom_range sampleEnd
                  sampleEnd_reachable Hm)).
Defined.

Lemma hands_compared_are_six_cards_witness :
  let s := App.app sampleBusy in
  (forall k, (0 <= sampleRandom k)%Q /\ (sampleRandom k < 1)%Q)
  /\ App.reachable sampleRandom sampleBusy
  /\ In (1500, App.RevealWinner (App.player1Hand s) (App.player2Hand s)
                 (App.currentDeck s) (App.player1Score s) (App.player2Score s))
        (App.timers sampleBusy)
  /\ NoDup (map face (App.player1Hand s ++ App.player2Hand s)).
Proof.
  assert (Hin : In (1500, App.RevealWinner (App.player1Hand (App.app sampleBusy))
                            (App.player2Hand (App.app sampleBusy))
                            (App.currentDeck (App.app sampleBusy))
                            (App.player1Score (App.app sampleBusy))
                            (App.player2Score (App.app sampleBusy)))
                   (App.timers sampleBusy)).
  { assert (E : App.timers sampleBusy
                = [(350, App.FlipUp);
                   (1500, App.RevealWinner (App.player1Hand (App.app sampleBusy))
                            (App.player2Hand (App.app sampleBusy))
                            (App.currentDeck (App.app sampleBusy))
                            (App.player1Score (App.app sampleBusy))
                            (App.player2Score (App.app sampleBusy)))])
      by (vm_compute; reflexivity).
    rewrite E. right. left. reflexivity. }
  split; [exact sampleRandom_range|]. split; [exact sampleBusy_reachable|].
  split; [exact Hin|].
  exact (proj1 (proj2 (hands_compared_are_six_cards sampleRandom sampleRandom_range
                         sampleBusy _ _ _ _ _ _ sampleBusy_reachable Hin))).
Defined.

Lemma deck_set_up_once_witness :
  App.reachable sampleRandom sampleEnd
  /\ App.initialDeckEffect sampleRandom sampleEnd = sampleEnd.
Proof.
  split; [exact sampleEnd_reachable|].
  exact (proj2 (deck_set_up_once sampleRandom sampleEnd sampleEnd_reachable)).
Defined.

(* ===================================================================== *)
(** ** Rounds and games *)
(* ===================================================================== *)

Section Games.
Variable random : nat -> Q.

Import App.

(** X16. A round is worth one point. After every deal that goes through
    (six cards at least, no timer pending) and has run to its end, the
    state is showdown with the cards face up, [winningPlayer] is what
    [compareHands] answers on the results of the first three and the next
    three cards of the former deck, which is 0, 1 or 2; the winner's score
    has grown by exactly 1 and the other score is unchanged, or, on a tie,
    neither has changed; and the banner names the winner and both hand
    types, or the tie. *)
Theorem round_awards_one_point (w : World) :
  timers w = [] ->
  (cardsNeeded <= length (currentDeck (app w)))%nat ->
  let w' := settle random (handleDeal w) in
  let result1 := evaluateHand (take 3 (currentDeck (app w))) in
  let result2 := evaluateHand (take 3 (drop 3 (currentDeck (app w)))) in
  let winnerId := compareHands result1 result2 in
  gameState (app w') = showdown
  /\ isHandsRevealed (app w') = true
  /\ winningPlayer (app w') = Some winnerId
  /\ (winnerId = 1 ->
      player1Score (app w') = player1Score (app w) + 1
      /\ player2Score (app w') = player2Score (app w)
      /\ winnerMessage (app w')
         = "Player 1 Wins! (" +:+ HandResult.type result1 +:+ " beats "
             +:+ HandResult.type result2 +:+ ")")
  /\ (winnerId = 2 ->
      player1Score (app w') = player1Score (app w)
      /\ player2Score (app w') = player2Score (app w) + 1
      /\ winnerMessage (app w')
         = "Player 2 Wins! (" +:+ HandResult.type result2 +:+ " beats "
             +:+ HandResult.type result1 +:+ ")")
  /\ (winnerId = 0 ->
      player1Score (app w') = player1Score (app w)
      /\ player2Score (app w') = player2Score (app w)
      /\ winnerMessage (app w') = "It's a Tie! No score change.")
  /\ (winnerId = 0 \/ winnerId = 1 \/ winnerId = 2).
Proof.
  intros Hq Hlen w' result1 result2 winnerId.
  assert (Hw' : w' = roundResult w) by apply (settle_handleDeal random w Hq Hlen).
  rewrite Hw'. unfold roundResult, awarded, roundMessage.
  cbn [app gameState isHandsRevealed winningPlayer player1Score player2Score
       winnerMessage].
  change (Js.slice 0 3 (currentDeck (app w))) with (take 3 (currentDeck (app w))).
  change (Js.slice 3 6 (currentDeck (app w)))
    with (take 3 (drop 3 (currentDeck (app w)))).
  fold result1 result2 winnerId.
  pose proof (compareHands_mirror result1 result2) as M12.
  pose proof (compareHands_mirror result2 result1) as M21.
  fold winnerId in M12, M21. revert M12 M21. unfold mirrored.
  generalize (compareHands result2 result1) as y. clearbody winnerId. intros y.
  destruct (Z.eqb_spec winnerId 1), (Z.eqb_spec winnerId 2),
    (Z.eqb_spec y 1), (Z.eqb_spec y 2); intros; repeat split; intros; try lia;
    try reflexivity.
Qed.

Lemma rounds_played (w : World) (n : nat) :
  timers w = [] -> showReshuffleModal (app w) = false ->
  gameState (app w) = pre_deal \/ gameState (app w) = showdown ->
  length (currentDeck (app w)) = 52%nat ->
  (n <= 7)%nat ->
  let wn := Nat.iter n (playRound random) w in
  timers wn = [] /\ showReshuffleModal (app wn) = false
  /\ (gameState (app wn) = pre_deal \/ gameState (app wn) = showdown)
  /\ currentDeck (app wn) = drop (6 * n) (currentDeck (app w)).
Proof.
  intros Hq Hf Hg H52. induction n as [|n IH]; intros Hn; [by repeat split|].
  cbv zeta. rewrite Nat.iter_succ. destruct IH as (Hqn & Hfn & Hgn & Hdn); [lia|].
  set (wn := Nat.iter n (playRound random) w) in *. clearbody wn.
  assert (Hlen : length (currentDeck (app wn)) = (52 - 6 * n)%nat)
    by (rewrite Hdn, length_drop; lia).
  assert (H6 : (cardsNeeded <= length (currentDeck (app wn)))%nat)
    by (unfold cardsNeeded; lia).
  assert (Hclick : clickDeal wn = handleDeal wn).
  { unfold clickDeal, dealButtonRendered, dealButtonDisabled. rewrite Hfn.
    destruct (Nat.ltb_spec (length (currentDeck (app wn))) cardsNeeded); [lia|].
    by destruct Hgn as [-> | ->]. }
  unfold playRound. rewrite Hclick, (settle_handleDeal random wn Hqn H6).
  unfold roundResult. cbn [app timers showReshuffleModal gameState currentDeck].
  unfold Js.slice_from.
  destruct (Nat.ltb_spec (length (drop 6 (currentDeck (app wn)))) cardsNeeded) as [Hl|Hl].
  { rewrite length_drop in Hl. unfold cardsNeeded in Hl. lia. }
  repeat split; auto. rewrite Hdn, drop_drop. f_equal. lia.
Qed.

(** X17. A shuffled deck gives exactly eight rounds. From every state at
    rest with a full deck of 52 cards (as after mount or a reshuffle), the
    deal button is operable before each of the first eight rounds, the
    deck holding 52 - 6n cards before round n + 1; once the eighth round
    has run to its end the modal is shown, the deal button is gone, and
    the deck is what is left after the first 48 cards: 4 cards. *)
Theorem eight_rounds_per_shuffle (w : World) :
  timers w = [] -> showReshuffleModal (app w) = false ->
  gameState (app w) = pre_deal \/ gameState (app w) = showdown ->
  length (currentDeck (app w)) = 52%nat ->
  (forall n, (n < 8)%nat ->
     let wn := Nat.iter n (playRound random) w in
     dealButtonRendered wn && negb (dealButtonDisabled wn) = true
     /\ modalShown wn = false
     /\ length (currentDeck (app wn)) = (52 - 6 * n)%nat)
  /\ (let w8 := Nat.iter 8 (playRound random) w in
      modalShown w8 = true
      /\ dealButtonRendered w8 = false
      /\ timers w8 = []
      /\ currentDeck (app w8) = drop 48 (currentDeck (app w))
      /\ length (currentDeck (app w8)) = 4%nat).
Proof.
  intros Hq Hf Hg H52. split.
  - intros n Hn wn.
    destruct (rounds_played w n Hq Hf Hg H52) as (Hqn & Hfn & Hgn & Hdn); [lia|].
    fold wn in Hqn, Hfn, Hgn, Hdn. clearbody wn.
    assert (Hlen : length (currentDeck (app wn)) = (52 - 6 * n)%nat)
      by (rewrite Hdn, length_drop; lia).
    unfold dealButtonRendered, dealButtonDisabled, modalShown. rewrite Hfn.
    destruct (Nat.ltb_spec (length (currentDeck (app wn))) cardsNeeded) as [Hl|Hl];
      [unfold cardsNeeded in Hl; lia|].
    split; [by destruct Hgn as [-> | ->]|]. by split.
  - destruct (rounds_played w 7 Hq Hf Hg H52) as (Hqn & Hfn & Hgn & Hdn); [lia|].
    cbv zeta. rewrite (Nat.iter_succ 7).
    set (wn := Nat.iter 7 (playRound random) w) in *. clearbody wn.
    assert (Hlen : length (currentDeck (app wn)) = 10%nat)
      by (rewrite Hdn, length_drop; lia).
    assert (H6 : (cardsNeeded <= length (currentDeck (app wn)))%nat)
      by (unfold cardsNeeded; lia).
    assert (Hclick : clickDeal wn = handleDeal wn).
    { unfold clickDeal, dealButtonRendered, dealButtonDisabled. rewrite Hfn.
      destruct (Nat.ltb_spec (length (currentDeck (app wn))) cardsNeeded); [lia|].
      by destruct Hgn as [-> | ->]. }
    unfold playRound. rewrite Hclick, (settle_handleDeal random wn Hqn H6).
    unfold roundResult, modalShown, dealButtonRendered.
    cbn [app timers showReshuffleModal gameState currentDeck].
    unfold Js.slice_from.
    destruct (Nat.ltb_spec (length (drop 6 (currentDeck (app wn)))) cardsNeeded) as [Hl|Hl].
    2: { rewrite length_drop in Hl. unfold cardsNeeded in Hl. lia. }
    repeat split; try done.
    + rewrite Hdn, drop_drop. reflexivity.
    + rewrite length_drop. lia.
Qed.

Lemma handlers_weight (w : World) :
  timers w = [] ->
  (pendingWeight (handleDeal w) <= 4)%nat /\ pendingWeight (handleReshuffle w) = 1%nat.
Proof.
  intros Hq. unfold pendingWeight, handleDeal.
  destruct (Nat.ltb_spec (length (currentDeck (app w))) cardsNeeded);
    cbn; rewrite Hq; cbn; lia.
Qed.

(** X18. The timers run out. Whatever is pending, once the event loop
    has taken as many turns as the pending callbacks weigh, no timer is
    left: no callback re-arms itself for ever. After a deal command at
    rest 4 turns are enough (the deal, the flip, the reveal, and the modal
    when the deck has run low), after a reshuffle command 1. *)
Theorem timers_run_out (w : World) :
  (forall n, (pendingWeight w <= n)%nat -> timers (fire random n w) = [])
  /\ (timers w = [] ->
      timers (fire random 4 (handleDeal w)) = []
      /\ timers (fire random 1 (handleReshuffle w)) = []).
Proof.
  split; [intros n; apply fire_rests|].
  intros Hq. destruct (handlers_weight w Hq) as [Hd Hr].
  split; apply fire_rests; lia.
Qed.

End Games.

Lemma round_awards_one_point_witness :
  App.timers sampleStart = []
  /\ (App.cardsNeeded <= length (App.currentDeck (App.app sampleStart)))%nat
  /\ App.gameState (App.app (App.settle sampleRandom (App.handleDeal sampleStart)))
     = App.showdown.
Proof.
  assert (Hq : App.timers sampleStart = []) by (vm_compute; reflexivity).
  assert (Hlen : (App.cardsNeeded <= length (App.currentDeck (App.app sampleStart)))%nat)
    by (apply Nat.leb_le; vm_compute; reflexivity).
  split; [exact Hq|]. split; [exact Hlen|].
  exact (proj1 (round_awards_one_point sampleRandom sampleStart Hq Hlen)).
Defined.

Lemma eight_rounds_per_shuffle_witness :
  (App.timers sampleStart = []
   /\ App.showReshuffleModal (App.app sampleStart) = false
   /\ App.gameState (App.app sampleStart) = App.pre_deal
   /\ length (App.currentDeck (App.app sampleStart)) = 52%nat)
  /\ App.modalShown (Nat.iter 8 (playRound sampleRandom) sampleStart) = true.
Proof.
  assert (Hq : App.timers sampleStart = []) by (vm_compute; reflexivity).
  assert (Hf : App.showReshuffleModal (App.app sampleStart) = false)
    by (vm_compute; reflexivity).
  assert (Hg : App.gameState (App.app sampleStart) = App.pre_deal)
    by (vm_compute; reflexivity).
  assert (H52 : length (App.currentDeck (App.app sampleStart)) = 52%nat)
    by (vm_compute; reflexivity).
  split; [by repeat split|].
  exact (proj1 (proj2 (eight_rounds_per_shuffle sampleRandom sampleStart Hq Hf
                         (or_introl Hg) H52))).
Defined.

Lemma timers_run_out_witness :
  App.timers sampleStart = []
  /\ App.timers (App.fire sampleRandom 4 (App.handleDeal sampleStart)) = [].
Proof.
  assert (Hq : App.timers sampleStart = []) by (vm_compute; reflexivity).
  split; [exact Hq|].
  exact (proj1 (proj2 (timers_run_out sampleRandom sampleStart) Hq)).
Defined.

(* ===================================================================== *)
(** ** The component of the sibling variant *)
(* ===================================================================== *)

#[local] Arguments Part000.evaluateHand : simpl never.
#[local] Arguments Part000.compareHands : simpl never.
#[local] Arguments Part000.finalResultMessage : simpl never.
#[local] Arguments Part000.finalVerdict : simpl never.
#[local] Arguments Part000.createDeck : simpl never.
#[local] Arguments Part000.shuffle : simpl never.

Section Variants.
Variable random : nat -> Q.

Lemma variant_shuffle (A : Type) (k0 : nat) (array : list A) :
  Part000.shuffle random k0 array = App.shuffle random k0 array.
Proof.
  unfold App.shuffle, Part000.shuffle.
  generalize (length array - 1)%nat as i. intros i. revert k0 array.
  induction i as [|i IH]; intros k0 array; simpl; [reflexivity|apply IH].
Qed.

Lemma variant_compareHands (hand1 hand2 : HandResult.t) :
  Part000.compareHands hand1 hand2 = App.compareHands hand1 hand2.
Proof.
  unfold App.compareHands, Part000.compareHands.
  assert (Hk : forall k1 k2 n i,
             Part000.compareKickers k1 k2 n i = App.compareKickers k1 k2 n i).
  { intros k1 k2 n. induction n as [|n IH]; intros i; simpl; [reflexivity|].
    by rewrite IH. }
  repeat case_match; try reflexivity; apply Hk.
Qed.

Lemma variant_evaluateHand (hand : list Card.t) :
  Part000.evaluateHand hand = App.evaluateHand hand.
Proof. reflexivity. Qed.

Lemma variant_finalResultMessage (p1 p2 : Z) :
  Part000.finalResultMessage p1 p2 = App.finalResultMessage p1 p2.
Proof. reflexivity. Qed.

Lemma popEarliest_alike ts1 ts2 :
  Forall2 alikeTimer ts1 ts2 ->
  match App.popEarliest ts1, App.popEarliest ts2 with
  | Some (t1, rest1), Some (t2, rest2) =>
      alikeTimer t1 t2 /\ Forall2 alikeTimer rest1 rest2
  | None, None => True
  | _, _ => False
  end.
Proof.
  induction 1 as [|t1 t2 ts1 ts2 Ht Hts IH]; [done|].
  cbn [App.popEarliest].
  destruct (App.popEarliest ts1) as [[t1' rest1]|],
    (App.popEarliest ts2) as [[t2' rest2]|]; try done.
  destruct IH as [Ht' Hrest]. destruct Ht as [Hd Hc], Ht' as [Hd' Hc'].
  rewrite Hd, Hd'. destruct (fst t2 <=? fst t2').
  - split; [by split|done].
  - split; [by split|]. constructor; [by split|done].
Qed.

Lemma handleDeal_alike w1 w2 :
  alike w1 w2 -> alike (Part000.handleDeal w1) (App.handleDeal w2).
Proof.
  intros H. unfold Part000.handleDeal, App.handleDeal. worlds.
  destruct H as (Hs & Hm & -> & -> & Ht). simplify_eq.
  change Part000.cardsNeeded with App.cardsNeeded.
  destruct (_ <? _)%nat; setters.
  - repeat split; try done. rewrite variant_finalResultMessage. constructor.
  - repeat split; try done; [constructor|].
    apply Forall2_app; [done|]. by repeat constructor.
Qed.

Lemma handleReshuffle_alike w1 w2 :
  alike w1 w2 -> alike (Part000.handleReshuffle w1) (App.handleReshuffle w2).
Proof.
  intros H. unfold Part000.handleReshuffle, App.handleReshuffle. worlds.
  destruct H as (Hs & Hm & -> & -> & Ht). simplify_eq. setters.
  repeat split; try done; [constructor|].
  apply Forall2_app; [done|]. by repeat constructor.
Qed.

Lemma runCallback_alike callback1 callback2 w1 w2 :
  alikeCallback callback1 callback2 -> alike w1 w2 ->
  alike (Part000.runCallback random callback1 w1)
        (App.runCallback random callback2 w2).
Proof.
  intros Hc H. worlds. destruct H as (Hs & Hm & -> & -> & Ht). simplify_eq.
  unfold alikeCallback in Hc.
  destruct callback1 as [d p1 p2| |h1 h2 r p1 p2|m1|],
    callback2 as [d' p1' p2'| |h1' h2' r' p1' p2'|m2|]; simplify_eq.
  - unfold Part000.runCallback. setters.
    repeat split; try done. rewrite <- !app_assoc.
    apply Forall2_app; [done|]. by repeat constructor.
  - unfold Part000.runCallback. setters. by repeat split.
  - unfold Part000.runCallback, App.runCallback. cbv zeta.
    rewrite !variant_evaluateHand, variant_compareHands.
    change Part000.cardsNeeded with App.cardsNeeded.
    destruct (App.compareHands _ _ =? 1); [|destruct (App.compareHands _ _ =? 2)];
      destruct (_ <? _)%nat; setters; repeat split; try done;
      apply Forall2_app; try done; repeat constructor.
  - unfold Part000.runCallback. setters. by repeat split.
  - unfold Part000.runCallback, Part000.freshDeck. setters.
    rewrite variant_shuffle. by repeat split.
Qed.

Lemma fireNext_alike w1 w2 :
  alike w1 w2 -> alike (Part000.fireNext random w1) (App.fireNext random w2).
Proof.
  intros H. unfold Part000.fireNext, App.fireNext.
  pose proof H as (Hs & Hm & Hc & Hr & Ht).
  pose proof (popEarliest_alike _ _ Ht) as Hpop.
  destruct (App.popEarliest (App.timers w1)) as [[[due1 c1] rest1]|],
    (App.popEarliest (App.timers w2)) as [[[due2 c2] rest2]|]; try done.
  destruct Hpop as [[Hd Hcb] Hrest]. cbn [fst snd] in Hd, Hcb. subst due2.
  apply runCallback_alike; [exact Hcb|].
  unfold alike. cbn [App.app App.clock App.timers App.randomCalls].
  by rewrite Hc.
Qed.

Lemma buttons_alike w1 w2 :
  alike w1 w2 ->
  App.dealButtonRendered w1 = App.dealButtonRendered w2
  /\ App.dealButtonDisabled w1 = App.dealButtonDisabled w2
  /\ App.modalShown w1 = App.modalShown w2.
Proof.
  intros H. unfold App.dealButtonRendered, App.dealButtonDisabled, App.modalShown.
  worlds. destruct H as (Hs & _). by simplify_eq.
Qed.

Lemma step_alike w1 w2 e :
  alike w1 w2 -> alike (Part000.step random w1 e) (App.step random w2 e).
Proof.
  intros H. destruct (buttons_alike w1 w2 H) as (Hr & Hd & Hm).
  destruct e as [| | |d]; cbn [Part000.step App.step].
  - unfold Part000.clickDeal, App.clickDeal. rewrite Hr, Hd.
    destruct (_ && _); [by apply handleDeal_alike|done].
  - unfold Part000.clickReshuffle, App.clickReshuffle. rewrite Hm.
    destruct (App.modalShown w2); [by apply handleReshuffle_alike|done].
  - by apply fireNext_alike.
  - unfold App.elapse. destruct H as (Hs & Hmsg & Hc & Hrc & Ht).
    assert (Hdue : forallb (fun t => App.clock w1 + d <=? fst t) (App.timers w1)
                   = forallb (fun t => App.clock w2 + d <=? fst t) (App.timers w2)).
    { rewrite Hc. clear -Ht. induction Ht as [|t1 t2 ts1 ts2 [Hd _] _ IH]; [done|].
      cbn [forallb]. by rewrite Hd, IH. }
    rewrite Hdue. destruct (_ && _); [|done].
    unfold alike. cbn [App.app App.clock App.timers App.randomCalls].
    by rewrite Hc.
Qed.

Lemma mounted_alike : alike (Part000.mounted random) (App.mounted random).
Proof.
  unfold Part000.mounted, App.mounted, Part000.initialDeckEffect,
    App.initialDeckEffect, Part000.freshDeck.
  cbn [App.app App.initialState App.currentDeck App.shuffleCount length Nat.eqb andb].
  change (0 =? 0) with true. cbv iota. setters.
  rewrite variant_shuffle. repeat split; try done; constructor.
Qed.

Lemma run_alike es w1 w2 :
  alike w1 w2 -> alike (Part000.run random es w1) (App.run random es w2).
Proof.
  revert w1 w2. induction es as [|e es IH]; intros w1 w2 H; [exact H|].
  apply IH. by apply step_alike.
Qed.

Lemma sameVerdict_includes_Tie m1 m2 :
  sameVerdict m1 m2 -> Js.includes m1 "Tie" = Js.includes m2 "Tie".
Proof.
  intros [m|p1 p2]; [reflexivity|].
  rewrite finalResultMessage_includes_Tie. unfold Part000.finalVerdict.
  destruct (Z.ltb_spec p2 p1); [|destruct (Z.ltb_spec p1 p2)];
    destruct (Z.eqb_spec p1 p2); try lia; reflexivity.
Qed.

Lemma alike_shows (wP wA : App.World) :
  alike wP wA ->
  alike wP wA
  /\ cells (App.app wP) = cells (App.app wA)
  /\ map fst (App.timers wP) = map fst (App.timers wA)
  /\ App.dealButtonRendered wP = App.dealButtonRendered wA
  /\ App.dealButtonDisabled wP = App.dealButtonDisabled wA
  /\ App.modalShown wP = App.modalShown wA
  /\ App.isTie <$> Part000.resultModal wP = App.isTie <$> App.resultModal wA.
Proof.
  intros H. destruct (buttons_alike wP wA H) as (Hr & Hd & Hm).
  split; [exact H|]. destruct H as (Hs & Hmsg & Hc & Hrc & Ht).
  split; [exact Hs|]. split.
  { clear -Ht. induction Ht as [|t1 t2 ts1 ts2 [Hd _] _ IH]; [done|].
    cbn [map]. by rewrite Hd, IH. }
  split; [exact Hr|]. split; [exact Hd|]. split; [exact Hm|].
  unfold Part000.resultModal, App.resultModal, Part000.ResultModal, App.ResultModal.
  rewrite Hm. destruct (App.modalShown wA); [|reflexivity].
  cbn. f_equal. by apply sameVerdict_includes_Tie.
Qed.

(** X19. The sibling variant plays the same game. For every sequence of
    clicks, timers and pauses from mount, and the same values of the random
    source, the component of the variant and the one of [App.jsx] are in
    states that differ in nothing but their texts: the same scores, hands,
    game state, winner, deck, shuffle count and flags, the same timers
    due at the same times, the same controls operable; and where the modal
    is shown, it is styled as a tie in the one exactly when it is in the
    other. *)
Theorem variant_runs_alike (es : list App.Event) :
  let wP := Part000.run random es (Part000.mounted random) in
  let wA := App.run random es (App.mounted random) in
  alike wP wA
  /\ cells (App.app wP) = cells (App.app wA)
  /\ map fst (App.timers wP) = map fst (App.timers wA)
  /\ App.dealButtonRendered wP = App.dealButtonRendered wA
  /\ App.dealButtonDisabled wP = App.dealButtonDisabled wA
  /\ App.modalShown wP = App.modalShown wA
  /\ App.isTie <$> Part000.resultModal wP = App.isTie <$> App.resultModal wA.
Proof.
  intros wP wA. apply alike_shows. apply run_alike, mounted_alike.
Qed.

End Variants.

Section VariantModal.
Variable random : nat -> Q.
Hypothesis random_range : forall k, (0 <= random k)%Q /\ (random k < 1)%Q.

(** X20. The modal of the variant tells the truth as well. In every state
    the variant reaches from mount in which its modal is shown, fewer than
    6 cards are left, the title is DECK EMPTY, the scores displayed are
    those of the state, and the modal is styled as a tie
    ([message.includes('Tie')]) exactly when the two scores are equal,
    though its message no longer carries the scores. *)
Theorem variant_modal_agrees_with_scores (es : list App.Event) :
  let wP := Part000.run random es (Part000.mounted random) in
  App.modalShown wP = true ->
  (length (App.currentDeck (App.app wP)) < Part000.cardsNeeded)%nat
  /\ exists view,
       Part000.resultModal wP = Some view
       /\ App.modalTitle view = "DECK EMPTY"
       /\ App.modalScores view
          = (App.player1Score (App.app wP), App.player2Score (App.app wP))
       /\ (App.isTie view = true
           <-> App.player1Score (App.app wP) = App.player2Score (App.app wP)).
Proof.
  intros wP Hshown.
  set (wA := App.run random es (App.mounted random)).
  assert (Halike : alike wP wA) by apply run_alike, mounted_alike.
  assert (Hstage : stage wA).
  { apply (reachable_stage random random_range), run_reachable. constructor. }
  clearbody wP wA.
  destruct (buttons_alike wP wA Halike) as (_ & _ & Hm). rewrite Hshown in Hm.
  destruct Halike as (Hs & Hmsg & _).
  unfold Part000.resultModal, Part000.ResultModal. rewrite Hshown. cbn [negb].
  rewrite (sameVerdict_includes_Tie _ _ Hmsg).
  unfold cells in Hs. injection Hs as -> -> _ _ _ _ -> _ _ _.
  symmetry in Hm. unfold App.modalShown in Hm. apply andb_prop in Hm as [Hflag _].
  destruct Hstage as [s c rc Hg Hf Ha Hh Hw Hr
                     |s c rc k Hg Hf Ha Hh Hw Hr Hl
                     |s c rc k Hg Hf Ha Hh Hw Hr Hl Hmsg'
                     |s c rc k t Hg Hf Ha Hh Hw Hr Hl
                     |s c rc k t1 t2 Hg Hf Ha Hh Hw Hr Ht
                     |s c rc k t Hg Hf Ha Hh Hw Hr
                     |s c rc k t Hg Hf Ha Hh Hw Hr Hl
                     |s c rc k t Hg Hf Ha Hh Hw Hr]; cbn [App.app] in Hflag |- *;
    try congruence.
  split; [exact Hl|]. eexists. split; [reflexivity|].
  cbn [App.modalTitle App.modalScores App.isTie].
  split; [reflexivity|]. split; [reflexivity|].
  rewrite Hmsg', finalResultMessage_includes_Tie. apply Z.eqb_eq.
Qed.

End VariantModal.

Lemma variant_modal_agrees_with_scores_witness :
  (forall k, (0 <= sampleRandom k)%Q /\ (sampleRandom k < 1)%Q)
  /\ App.modalShown (Part000.run sampleRandom sampleScript
                       (Part000.mounted sampleRandom)) = true
  /\ (length (App.currentDeck
                (App.app (Part000.run sampleRandom sampleScript
                            (Part000.mounted sampleRandom))))
      < Part000.cardsNeeded)%nat.
Proof.
  assert (Hm : App.modalShown (Part000.run sampleRandom sampleScript
                                 (Part000.mounted sampleRandom)) = true)
    by (vm_compute; reflexivity).
  split; [exact sampleRandom_range|]. split; [exact Hm|].
  exact (proj1 (variant_modal_agrees_with_scores sampleRandom sampleRandom_range
                  sampleScript Hm)).
Defined.

(* ===================================================================== *)
(** ** What the player areas show *)
(* ===================================================================== *)

Section Areas.
Variable random : nat -> Q.
Hypothesis random_range : forall k, (0 <= random k)%Q /\ (random k < 1)%Q.

Import App.

Lemma createDeck_suits :
  Forall (fun c => valid_card c /\ is_Some (Js.get SUIT_SYMBOLS (Card.suit c)))
         createDeck.
Proof.
  assert (Hall : forallb (fun c => existsb (String.eqb (Card.rank c)) RANKS
                                   && bool_decide (is_Some (Js.get SUIT_SYMBOLS (Card.suit c))))
                   createDeck = true) by (vm_compute; reflexivity).
  rewrite forallb_forall in Hall. apply Forall_forall. intros c Hc.
  apply list_elem_of_In, Hall, andb_prop in Hc as [Hr Hs].
  apply existsb_exists in Hr as (r & Hr & E). apply String.eqb_eq in E.
  apply bool_decide_eq_true in Hs. unfold valid_card. split; [by rewrite E|exact Hs].
Qed.

(** An area over three cards of the deck. *)
Lemma PlayerArea_of_three name score hand isWinner isFaceUp :
  length hand = 3%nat ->
  Forall (fun c => valid_card c /\ is_Some (Js.get SUIT_SYMBOLS (Card.suit c))) hand ->
  let area := PlayerArea name score hand (handResult hand) isWinner isFaceUp in
  In (resultText area) categories
  /\ exists cards,
       handView area = CardsShown cards
       /\ map cardRank cards = map Card.rank hand
       /\ map transitionDelay cards = ["0ms"; "150ms"; "300ms"]
       /\ Forall (fun card => is_Some (symbol card)) cards
       /\ Forall (fun card => flipperClass card
                              = if isFaceUp then "card-flipper flip" else "card-flipper ")
                 cards.
Proof.
  intros Hlen Hall area.
  assert (Hvalid : Forall valid_card hand).
  { eapply Forall_impl; [exact Hall|]. by intros c [? _]. }
  pose proof (evaluateHand_evaluated hand Hlen Hvalid) as He.
  unfold area, PlayerArea, handResult. rewrite Hlen.
  cbn [Nat.eqb resultText handView]. split.
  - destruct He; cbn; tauto.
  - destruct hand as [|c1 [|c2 [|c3 [|]]]]; try discriminate Hlen.
    apply Forall_cons in Hall as [[_ H1] Hall].
    apply Forall_cons in Hall as [[_ H2] Hall].
    apply Forall_cons in Hall as [[_ H3] _].
    eexists. split; [reflexivity|]. cbn [imap map cardRank transitionDelay Card].
    split; [reflexivity|]. split; [reflexivity|]. split.
    + by repeat constructor.
    + destruct isFaceUp; by repeat constructor.
Qed.

(** X22. The player areas show a hand or none. In every reachable state
    either both areas show the three placeholders and the text Waiting...,
    and neither is marked as winner; or both show three cards, with the
    ranks of the hand in its order, the transition delays 0ms, 150ms and
    300ms, a suit symbol for every card, and as text one of the three
    categories of [evaluateHand]. The two areas are never both marked as
    winner. *)
Theorem player_areas_consistent w :
  reachable random w ->
  let area1 := playerArea1 w in
  let area2 := playerArea2 w in
  ((handView area1 = Placeholders ["Card 1"; "Card 2"; "Card 3"]
    /\ handView area2 = Placeholders ["Card 1"; "Card 2"; "Card 3"]
    /\ resultText area1 = "Waiting..." /\ resultText area2 = "Waiting..."
    /\ winnerClass area1 = "player-area-base"
    /\ winnerClass area2 = "player-area-base")
   \/ (exists cards1 cards2,
         handView area1 = CardsShown cards1 /\ handView area2 = CardsShown cards2
         /\ map cardRank cards1 = map Card.rank (player1Hand (app w))
         /\ map cardRank cards2 = map Card.rank (player2Hand (app w))
         /\ map transitionDelay cards1 = ["0ms"; "150ms"; "300ms"]
         /\ map transitionDelay cards2 = ["0ms"; "150ms"; "300ms"]
         /\ Forall (fun card => is_Some (symbol card)) (cards1 ++ cards2)
         /\ In (resultText area1) categories /\ In (resultText area2) categories))
  /\ ~ (winnerClass area1 = "player-area-winner"
        /\ winnerClass area2 = "player-area-winner").
Proof.
  intros Hr area1 area2. split.
  2: { unfold area1, area2, playerArea1, playerArea2, PlayerArea, isWinner.
       cbn [winnerClass].
       destruct (winningPlayer (app w)) as [[|[]|[]]|]; cbn; intros [? ?]; discriminate. }
  assert (Hcards : Forall (fun c => valid_card c
                                    /\ is_Some (Js.get SUIT_SYMBOLS (Card.suit c)))
                          (inPlay (app w))).
  { pose proof Hr as Hs. apply (reachable_stage random random_range) in Hs.
    apply stage_accounts in Hs as (dealt & scored & (Hsub & _) & _).
    apply Forall_forall. intros c Hc.
    pose proof createDeck_suits as Hall. rewrite Forall_forall in Hall.
    by apply (Hall c), (elem_of_submseteq _ _ _ Hc). }
  unfold inPlay in Hcards. apply Forall_app in Hcards as [H1 Hcards].
  apply Forall_app in Hcards as [H2 _].
  apply (reachable_stage random random_range) in Hr.
  unfold area1, area2, playerArea1, playerArea2, player1Result, player2Result.
  assert (Hcase : (handsEmpty (app w) /\ winningPlayer (app w) = None)
                  \/ handsDealt (app w)).
  { destruct Hr; cbn [app]; auto. }
  destruct Hcase as [[[E1 E2] Hw]|[L1 L2]].
  - left. unfold isWinner. rewrite E1, E2, Hw. by repeat split.
  - right.
    destruct (PlayerArea_of_three "Player 1" (player1Score (app w)) _
                (isWinner 1 w) (isHandsRevealed (app w)) L1 H1)
      as (T1 & cards1 & V1 & R1 & D1 & S1 & _).
    destruct (PlayerArea_of_three "Player 2" (player2Score (app w)) _
                (isWinner 2 w) (isHandsRevealed (app w)) L2 H2)
      as (T2 & cards2 & V2 & R2 & D2 & S2 & _).
    exists cards1, cards2. repeat split; try done. by apply Forall_app.
Qed.

End Areas.

Lemma player_areas_consistent_witness :
  (forall k, (0 <= sampleRandom k)%Q /\ (sampleRandom k < 1)%Q)
  /\ App.reachable sampleRandom sampleBusy
  /\ ~ (App.winnerClass (App.playerArea1 sampleBusy) = "player-area-winner"
        /\ App.winnerClass (App.playerArea2 sampleBusy) = "player-area-winner").
Proof.
  split; [exact sampleRandom_range|]. split; [exact sampleBusy_reachable|].
  exact (proj2 (player_areas_consistent sampleRandom sampleRandom_range sampleBusy
                  sampleBusy_reachable)).
Defined.
